(** * t3rep: monthly CSV report extraction

    A shallow embedding of [main.go] and the properties of its
    report-generation engine: the CSV formatter, the window expansion of a
    task, the per-report generation state machine, task execution and the
    bounded dispatcher.

    Layout: the embedding comes first (one module per part of the program),
    the lemmas and theorems follow. *)

From Stdlib Require Import ZArith Lia Ascii String.
From stdpp Require Import base relations gmap strings list pretty.

Local Open Scope Z_scope.
Local Ltac Zify.zify_post_hook ::= Z.to_euclidean_division_equations.

(* ================================================================== *)
(** * Part I: the embedding *)
(* ================================================================== *)

(** ** Go's [time] package, as far as [main.go] uses it

    A [Time] is an instant (Unix seconds and nanoseconds) that carries its
    location; the calendar fields are derived from the instant through the
    zone in effect, as [Time.Date] and [Time.Clock] do.  Integers are
    unbounded: the range of Go's [Time] is not modelled. *)
Module GoTime.

(** One zone transition: from Unix second [when] on, [offset] seconds east of
    UTC are in effect. *)
Record zoneTrans := ZoneTrans { when : Z; offset : Z }.

(** A location: the offset in effect before its first transition and its
    transitions in increasing order of [when]. *)
Record Location := mkLocation { zone0 : Z; tx : list zoneTrans }.

Definition alpha : Z := - 2 ^ 63.
Definition omega : Z := 2 ^ 63 - 1.

Fixpoint lookup_tx (off start : Z) (l : list zoneTrans) (sec : Z) : Z * Z * Z :=
  match l with
  | [] => (off, start, omega)
  | t :: rest =>
      if sec <? when t then (off, start, when t)
      else lookup_tx (offset t) (when t) rest sec
  end.

(** [Location.lookup]: the offset in effect at Unix second [sec] and the
    range [start, end) of seconds over which it is in effect. *)
Definition lookup (l : Location) (sec : Z) : Z * Z * Z :=
  lookup_tx (zone0 l) alpha (tx l) sec.

Definition offsetAt (l : Location) (sec : Z) : Z := (lookup l sec).1.1.

Definition UTC : Location := mkLocation 0 [].

Record Time := mkTime { unixSec : Z; nsec : Z; loc : Location }.

Definition secondsPerDay : Z := 86400.

Definition isLeap (year : Z) : bool :=
  (year mod 4 =? 0) && (negb (year mod 100 =? 0) || (year mod 400 =? 0)).

(** [daysBefore m]: days of a non-leap year before month [m + 1]. *)
Definition daysBefore (m : Z) : Z :=
  match m with
  | 0 => 0 | 1 => 31 | 2 => 59 | 3 => 90 | 4 => 120 | 5 => 151 | 6 => 181
  | 7 => 212 | 8 => 243 | 9 => 273 | 10 => 304 | 11 => 334 | _ => 365
  end.

(** Days from 1970-01-01 to January 1st of [year] (proleptic Gregorian). *)
Definition daysSinceEpoch (year : Z) : Z :=
  365 * (year - 1970) + (year - 1) / 4 - (year - 1) / 100 + (year - 1) / 400 - 477.

(** [norm hi lo base]: carry [lo] into [hi] so that [0 <= lo < base]. *)
Definition norm (hi lo base : Z) : Z * Z := (hi + lo / base, lo mod base).

(** [time.Date]: the fields are normalized, laid out as seconds of local
    time, and the zone offset in effect is subtracted. *)
Definition Date (year month day hour min sec ns : Z) (l : Location) : Time :=
  let '(year, m) := norm year (month - 1) 12 in
  let month := m + 1 in
  let '(sec, ns) := norm sec ns 1000000000 in
  let '(min, sec) := norm min sec 60 in
  let '(hour, min) := norm hour min 60 in
  let '(day, hour) := norm day hour 24 in
  let d := daysSinceEpoch year + daysBefore (month - 1)
           + (if isLeap year && (3 <=? month) then 1 else 0) + (day - 1) in
  let unix := d * secondsPerDay + hour * 3600 + min * 60 + sec in
  let '(off, start, stop) := lookup l unix in
  let unix :=
    if off =? 0 then unix
    else
      let utc := unix - off in
      let off := if (utc <? start) || (stop <=? utc) then offsetAt l utc else off in
      unix - off in
  mkTime unix ns l.

(** Seconds of local time since 1970-01-01T00:00:00 ([Time.abs], up to Go's
    shift of the epoch). *)
Definition abs (t : Time) : Z := unixSec t + offsetAt (loc t) (unixSec t).

Definition yearOfDays (d : Z) : Z :=
  let y0 := 1970 + (400 * d) / 146097 in
  if d <? daysSinceEpoch y0 then y0 - 1
  else if daysSinceEpoch (y0 + 1) <=? d then y0 + 1
  else y0.

(** Month and day of the month from the day of a year without February 29,
    the way [absDate] finds them: the month is estimated as if every month
    had 31 days, which is too low by one month at most. *)
Definition monthDayPlain (day : Z) : Z * Z :=
  let month := day / 31 in
  let stop := daysBefore (month + 1) in
  let '(month, begin) :=
    if stop <=? day then (month + 1, stop) else (month, daysBefore month) in
  (month + 1, day - begin + 1).

(** Month and day of the month from the year and the day of the year. *)
Definition monthDayOfYday (year yday : Z) : Z * Z :=
  if isLeap year && (yday =? 31 + 29 - 1) then (2, 29)
  else
    monthDayPlain
      (if isLeap year && (31 + 29 - 1 <? yday) then yday - 1 else yday).

(** [Time.Date]: year, month and day of the instant in its location. *)
Definition dateOf (t : Time) : Z * Z * Z :=
  let d := abs t / secondsPerDay in
  let year := yearOfDays d in
  let '(month, day) := monthDayOfYday year (d - daysSinceEpoch year) in
  (year, month, day).

Definition Year (t : Time) : Z := (dateOf t).1.1.
Definition Month (t : Time) : Z := (dateOf t).1.2.
Definition Day (t : Time) : Z := (dateOf t).2.

(** [Time.Clock]: hour, minute and second within the day. *)
Definition Clock (t : Time) : Z * Z * Z :=
  let s := abs t mod secondsPerDay in
  (s / 3600, (s mod 3600) / 60, s mod 60).

(** [Time.AddDate]. *)
Definition AddDate (t : Time) (years months days : Z) : Time :=
  let '(year, month, day) := dateOf t in
  let '(hour, min, sec) := Clock t in
  Date (year + years) (month + months) (day + days) hour min sec (nsec t) (loc t).

(** Durations are nanoseconds. *)
Definition Nanosecond : Z := 1.
Definition Second : Z := 1000000000 * Nanosecond.
Definition Minute : Z := 60 * Second.
Definition Hour : Z := 60 * Minute.

(** [Time.Add]: the duration is added to the instant; Go's [/] and [%]
    truncate. *)
Definition Add (t : Time) (d : Z) : Time :=
  let dsec := Z.quot d 1000000000 in
  let ns := nsec t + Z.rem d 1000000000 in
  let '(dsec, ns) :=
    if 1000000000 <=? ns then (dsec + 1, ns - 1000000000)
    else if ns <? 0 then (dsec - 1, ns + 1000000000)
    else (dsec, ns) in
  mkTime (unixSec t + dsec) ns (loc t).

(** Two decimal digits at least, as [%02d] prints a non-negative number. *)
Definition pad2 (z : Z) : string :=
  if (0 <=? z) && (z <? 10) then "0" +:+ pretty z else pretty z.

(** Four decimal digits at least, as the layout element [2006] prints a
    non-negative year. *)
Definition pad4 (z : Z) : string :=
  if z <? 0 then pretty z
  else if z <? 10 then "000" +:+ pretty z
  else if z <? 100 then "00" +:+ pretty z
  else if z <? 1000 then "0" +:+ pretty z
  else pretty z.

(** [t.Format("2006-01-02 15:04:05")]. *)
Definition Format (t : Time) : string :=
  let '(y, m, d) := dateOf t in
  let '(hh, mm, ss) := Clock t in
  pad4 y +:+ "-" +:+ pad2 m +:+ "-" +:+ pad2 d +:+ " "
  +:+ pad2 hh +:+ ":" +:+ pad2 mm +:+ ":" +:+ pad2 ss.

(** *** Vocabulary for the properties of windows *)

(** Days of month [m] of year [y]. *)
Definition daysIn (y m : Z) : Z :=
  match m with
  | 2 => if isLeap y then 29 else 28
  | 4 | 6 | 9 | 11 => 30
  | _ => 31
  end.

(** Months are counted from year 0: month [m] of year [y] has index
    [12 * y + (m - 1)]. *)
Definition monthIndex (y m : Z) : Z := 12 * y + (m - 1).
Definition monthOfIndex (idx : Z) : Z * Z := (idx / 12, idx mod 12 + 1).

(** Days from 1970-01-01 to day [d] of month [m] of year [y]. *)
Definition dayNumber (y m d : Z) : Z :=
  daysSinceEpoch y + daysBefore (m - 1)
  + (if isLeap y && (3 <=? m) then 1 else 0) + (d - 1).

(** Days from 1970-01-01 to the first day of the month of index [idx]. *)
Definition firstDay (idx : Z) : Z :=
  dayNumber (idx / 12) (idx mod 12 + 1) 1.

(** The location keeps one offset from UTC: no transition changes it. *)
Definition fixedOffset (l : Location) : Prop :=
  forall u, offsetAt l u = zone0 l.

(** In a location of fixed offset: local midnight at the start of day [d] of
    the month of index [idx], and the last second of that month. *)
Definition midnight (l : Location) (idx d : Z) : Time :=
  mkTime ((firstDay idx + d - 1) * secondsPerDay - zone0 l) 0 l.
Definition lastSecond (l : Location) (idx : Z) : Time :=
  mkTime (firstDay (idx + 1) * secondsPerDay - 1 - zone0 l) 0 l.

(** Central European time around 2024: UTC+1, UTC+2 from 2024-03-31 01:00 UTC
    to 2024-10-27 01:00 UTC. *)
Definition europeRome : Location :=
  mkLocation 3600 [ZoneTrans 1711846800 7200; ZoneTrans 1729990800 3600].

End GoTime.

(** ** Strings and paths from Go's library *)
Module GoStrings.

Definition dquote : ascii := ascii_of_nat 34.
Definition backslash : ascii := ascii_of_nat 92.
Definition CR : ascii := ascii_of_nat 13.
Definition LF : ascii := ascii_of_nat 10.
Definition slash : ascii := ascii_of_nat 47.

Definition str (c : ascii) : string := String c EmptyString.

(** [strings.Replace(s, old, new, -1)] for a pattern [old] of one byte: every
    occurrence of the byte is replaced, from left to right. *)
Fixpoint ReplaceByte (s : string) (old : ascii) (new : string) : string :=
  match s with
  | EmptyString => EmptyString
  | String c rest =>
      if Ascii.eqb c old then new +:+ ReplaceByte rest old new
      else String c (ReplaceByte rest old new)
  end.

(** The elements of a path between its slashes; [cur] holds the bytes of the
    element being read, last byte first. *)
Fixpoint splitSlash (s : string) (cur : list ascii) : list string :=
  match s with
  | EmptyString => [string_of_list_ascii (rev cur)]
  | String c rest =>
      if Ascii.eqb c slash then string_of_list_ascii (rev cur) :: splitSlash rest []
      else splitSlash rest (c :: cur)
  end.

(** One element of [filepath.Clean]'s loop over the elements of the path;
    [out] holds the elements kept so far, last one first. *)
Definition cleanStep (rooted : bool) (out : list string) (e : string) : list string :=
  if String.eqb e "" || String.eqb e "." then out
  else if String.eqb e ".." then
    match out with
    | [] => if rooted then [] else [".."]
    | top :: below => if String.eqb top ".." then ".." :: out else below
    end
  else e :: out.

(** [filepath.Clean] on Unix paths. *)
Definition Clean (path : string) : string :=
  match path with
  | EmptyString => "."
  | String c _ =>
      let rooted := Ascii.eqb c slash in
      let out := rev (fold_left (cleanStep rooted) (splitSlash path []) []) in
      let body := String.concat (str slash) out in
      if rooted then str slash +:+ body
      else if String.eqb body "" then "." else body
  end.

(** [filepath.Join] of two elements. *)
Definition Join (a b : string) : string :=
  if String.eqb a "" then (if String.eqb b "" then "" else Clean b)
  else Clean (a +:+ str slash +:+ b).

End GoStrings.

(** ** The CSV formatter *)
Module Csv.
Import GoStrings.

(** A [bytes.Buffer]: the bytes written and not yet reset. *)
Definition Buffer := string.

(** [fmt.Fprintf(buf, format, f)] for the two formats of [formatCSV]. *)
Definition Fprintf_sep_quoted (buf : Buffer) (f : string) : Buffer :=
  buf +:+ (";" +:+ str dquote +:+ f +:+ str dquote).
Definition Fprintf_quoted (buf : Buffer) (f : string) : Buffer :=
  buf +:+ (str dquote +:+ f +:+ str dquote).

(** The body of the [for i, f := range fields] loop. *)
Fixpoint formatCSV_loop (i : nat) (fields : list string) (buf : Buffer) : Buffer :=
  match fields with
  | [] => buf
  | f :: rest =>
      let f := ReplaceByte f dquote (String backslash (str dquote)) in
      let buf := if (0 <? i)%nat then Fprintf_sep_quoted buf f
                 else Fprintf_quoted buf f in
      formatCSV_loop (S i) rest buf
  end.

(** [formatCSV]: the buffer after the call and the line returned (the
    contents of the buffer). *)
Definition formatCSV (buf : Buffer) (fields : list string) : Buffer * string :=
  let buf := EmptyString in
  let buf := formatCSV_loop 0 fields buf in
  let buf := buf +:+ String CR (str LF) in
  (buf, buf).

(** The dialect in the words of the specification, for comparison with
    [formatCSV]: a double quote becomes backslash, double quote; every other
    byte is copied. *)
Fixpoint escapeField (f : string) : string :=
  match f with
  | EmptyString => EmptyString
  | String c rest =>
      if Ascii.eqb c dquote then String backslash (String dquote (escapeField rest))
      else String c (escapeField rest)
  end.

Definition quoteField (f : string) : string :=
  str dquote +:+ escapeField f +:+ str dquote.

Definition csvLine (fields : list string) : string :=
  String.concat ";" (map quoteField fields) +:+ String CR (str LF).

(** Every field preceded by a semicolon: what the loop appends once it is
    past its first field. *)
Fixpoint sepJoin (fields : list string) : string :=
  match fields with
  | [] => EmptyString
  | f :: rest => (";" +:+ quoteField f) +:+ sepJoin rest
  end.

End Csv.

(** ** The process and its surroundings

    The file system, the log and the calls made are state; how the operating
    system and the database answer is given by an [env] of oracles that see
    the state at the call.  A computation returns, terminates the process
    ([os.Exit], reached through [Fatalf]) or panics. *)
Module Os.

Inductive errkind := ErrNotExist | ErrPermission | ErrOther.

(** A Go [error]: what [os.IsNotExist] looks at, and the text [%v] prints. *)
Record error := mkError { ekind : errkind; emsg : string }.

(** [fmt.Errorf(prefix + "%v", err)]. *)
Definition Errorf (prefix : string) (e : error) : error :=
  mkError ErrOther (prefix +:+ emsg e).

(** [os.IsNotExist]; a [nil] error is [None]. *)
Definition IsNotExist (err : option error) : bool :=
  match err with
  | Some e => match ekind e with ErrNotExist => true | _ => false end
  | None => false
  end.

Inductive event :=
| EvInfo (msg : string)
| EvError (msg : string)
| EvStat (path : string)
| EvCreate (path : string)
| EvWrite (path data : string)
| EvClose (path : string)
| EvRemove (path : string)
| EvOpenDB (dsn : string)
| EvQuery (dsn query from to : string)
| EvCloseDB (dsn : string).

#[global] Instance event_eq_dec : EqDecision event.
Proof. solve_decision. Defined.

Record world := mkWorld { files : gmap string string; trace : list event }.

(** A row of a result set: its columns, [None] for SQL NULL. *)
Definition row := list (option string).

Record env := mkEnv {
  Local : GoTime.Location;
  stat_fault : world -> string -> option error;
  create_fault : world -> string -> option error;
  write_fault : world -> string -> string -> option error;
  close_fault : world -> string -> option error;
  remove_fault : world -> string -> option error;
  open_fault : world -> string -> option error;
  query_result : world -> string -> string -> string -> string -> error + list row
}.

Inductive res (A : Type) :=
| Ret (a : A)
| Exit (code : Z)
| Panic (msg : string).
Arguments Ret {A} a.
Arguments Exit {A} code.
Arguments Panic {A} msg.

Definition M (A : Type) : Type := world -> res A * world.

Definition ret {A} (a : A) : M A := fun w => (Ret a, w).

Definition bind {A B} (m : M A) (k : A -> M B) : M B :=
  fun w =>
    match m w with
    | (Ret a, w') => k a w'
    | (Exit c, w') => (Exit c, w')
    | (Panic s, w') => (Panic s, w')
    end.

Definition exit {A} (code : Z) : M A := fun w => (Exit code, w).
Definition panic {A} (msg : string) : M A := fun w => (Panic msg, w).

(** A pure computation that may panic, run in the process. *)
Definition lift {A} (r : res A) : M A := fun w => (r, w).

(** [defer d] around [body]: [d] runs when [body] returns or panics, not when
    the process exits. *)
Definition defer {A} (d : M unit) (body : M A) : M A :=
  fun w =>
    match body w with
    | (Ret a, w') => bind d (fun _ => ret a) w'
    | (Exit c, w') => (Exit c, w')
    | (Panic s, w') => bind d (fun _ => panic s) w'
    end.

Definition emit (e : event) : M unit :=
  fun w => (Ret tt, mkWorld (files w) (trace w ++ [e])).

Definition setFiles (fs : gmap string string) : M unit :=
  fun w => (Ret tt, mkWorld fs (trace w)).

Definition get : M world := fun w => (Ret w, w).

(** A computation respects a relation [R] between the world before and the
    world after when every run of it does, however it ends. *)
Definition respects (R : world -> world -> Prop) {A} (m : M A) : Prop :=
  forall w, R w (m w).2.

(** From [w] to [w'] events were only added, all of them of kind [P]. *)
Definition adds (P : event -> Prop) (w w' : world) : Prop :=
  exists l, trace w' = trace w ++ l /\ Forall P l.

(** From [w] to [w'] the file [f], if it was there, is still there. *)
Definition keeps (f : string) (w w' : world) : Prop :=
  is_Some (files w !! f) -> is_Some (files w' !! f).

(** Every run of the computation returns, with a value that satisfies [Q]:
    it neither exits nor panics. *)
Definition returnsWith {A} (Q : A -> Prop) (m : M A) : Prop :=
  forall w, exists a w', m w = (Ret a, w') /\ Q a.

(** The postcondition that asks nothing of the value. *)
Definition anything {A} : A -> Prop := fun _ => True.

End Os.

Module OsNotations.
Notation "'do' x <- m ; k" := (Os.bind m (fun x => k))
  (at level 10, x name, m at level 100, k at level 200).
Notation "'do_' m ; k" := (Os.bind m (fun _ => k))
  (at level 10, m at level 100, k at level 200).
End OsNotations.

(** ** System calls, the database and the loggers *)
Module Sys.
Import Os OsNotations.

(** [os.Stat]: only the error is used by the program. *)
Definition os_Stat (E : env) (path : string) : M (option error) :=
  do w <- get;
  do_ emit (EvStat path);
  match stat_fault E w path with
  | Some e => ret (Some e)
  | None =>
      match files w !! path with
      | Some _ => ret None
      | None => ret (Some (mkError ErrNotExist
                             ("stat " +:+ path +:+ ": no such file or directory")))
      end
  end.

(** [os.Create]: the file is created or truncated; the handle is the path. *)
Definition os_Create (E : env) (path : string) : M (error + string) :=
  do w <- get;
  do_ emit (EvCreate path);
  match create_fault E w path with
  | Some e => ret (inl e)
  | None => do_ setFiles (<[path := ""]> (files w)); ret (inr path)
  end.

(** [Write] on an [os.File]: a failed write leaves the file as it was. *)
Definition file_Write (E : env) (f data : string) : M (option error) :=
  do w <- get;
  do_ emit (EvWrite f data);
  match write_fault E w f data with
  | Some e => ret (Some e)
  | None =>
      do_ setFiles (<[f := default "" (files w !! f) +:+ data]> (files w));
      ret None
  end.

Definition file_Close (E : env) (f : string) : M (option error) :=
  do w <- get;
  do_ emit (EvClose f);
  ret (close_fault E w f).

Definition os_Remove (E : env) (path : string) : M (option error) :=
  do w <- get;
  do_ emit (EvRemove path);
  match remove_fault E w path with
  | Some e => ret (Some e)
  | None =>
      match files w !! path with
      | Some _ => do_ setFiles (delete path (files w)); ret None
      | None => ret (Some (mkError ErrNotExist
                             ("remove " +:+ path +:+ ": no such file or directory")))
      end
  end.

(** [sql.Open("mysql", dsn)]: the handle is the connection string.  No
    connection is made yet; the call fails where the driver rejects the
    connection string. *)
Definition sql_Open (E : env) (dsn : string) : M (error + string) :=
  do w <- get;
  do_ emit (EvOpenDB dsn);
  match open_fault E w dsn with
  | Some e => ret (inl e)
  | None => ret (inr dsn)
  end.

Definition db_Close (db : string) : M unit := emit (EvCloseDB db).

(** [db.Query(query, from, to)]. *)
Definition db_Query (E : env) (db query from to : string) : M (error + list row) :=
  do w <- get;
  do_ emit (EvQuery db query from to);
  ret (query_result E w db query from to).

(** [rows.Scan(params...)] into [assoc]: the number of columns must be the
    number of destinations, and NULL does not convert to a string. *)
Definition Scan (r : row) (assoc : list string) : error + list string :=
  if negb (length r =? length assoc)%nat then
    inl (mkError ErrOther
           ("sql: expected " +:+ pretty (length r)
            +:+ " destination arguments in Scan, not " +:+ pretty (length assoc)))
  else
    match mapM id r with
    | Some vals => inr vals
    | None => inl (mkError ErrOther "sql: Scan error: converting NULL to string is unsupported")
    end.

(** The two loggers of [logs]. *)
Definition info_Printf (msg : string) : M unit := emit (EvInfo msg).
Definition err_Printf (msg : string) : M unit := emit (EvError msg).

(** [log.Fatalf]: print, then [os.Exit(1)]. *)
Definition err_Fatalf (msg : string) : M unit :=
  do_ emit (EvError msg); exit 1.

End Sys.

(** ** [main.go]: reports, the reporter and tasks *)
Module T3rep.
Import GoTime GoStrings Csv Os OsNotations Sys.

Record conf := mkConf {
  Query : string;
  Fields : Z;
  Months : Z;
  Directory : string;
  Systems : gmap string string
}.

Record report := mkReport {
  name : string;
  fname : string;
  start : Time;
  end_ : Time
}.

(** [fmt.Sprintf("%s-%d-%02d.csv", name, year, month)]. *)
Definition Sprintf_csv (name : string) (year month : Z) : string :=
  name +:+ "-" +:+ pretty year +:+ "-" +:+ pad2 month +:+ ".csv".

Definition makeReport (name dir : string) (start : Time) : report :=
  {| name := name;
     start := start;
     end_ := Add (AddDate start 0 1 (-1)) (23 * Hour + 59 * Minute + 59 * Second);
     fname := Join dir (Sprintf_csv name (Year start) (Month start)) |}.

(** [(r *report) rows]. *)
Definition rows (E : env) (r : report) (db query : string) : M (error + list row) :=
  db_Query E db query (Format (start r)) (Format (end_ r)).

(** [(r *report) exists]. *)
Definition exists_ (E : env) (r : report) : M bool :=
  do err <- os_Stat E (fname r);
  ret (negb (IsNotExist err)).

(** [(r *report) String]. *)
Definition String_ (r : report) : string := fname r.

(** The loop of [extract] over the rows of the result set. *)
Fixpoint extract_loop (E : env) (w : string) (rs : list row)
    (assoc : list string) (buf : Buffer) : M (option error) :=
  match rs with
  | [] => ret None
  | r :: rest =>
      match Scan r assoc with
      | inl err => ret (Some (Errorf "cannot scan query: " err))
      | inr assoc =>
          let '(buf, line) := formatCSV buf assoc in
          do err <- file_Write E w line;
          match err with
          | Some err => ret (Some (Errorf "cannot write line: " err))
          | None => extract_loop E w rest assoc buf
          end
      end
  end.

(** [extract]; [make([]string, nassoc)] panics on a negative length. *)
Definition extract (E : env) (w : string) (rs : list row) (nassoc : Z) : M (option error) :=
  if nassoc <? 0 then panic "makeslice: len out of range"
  else extract_loop E w rs (replicate (Z.to_nat nassoc) "") "".

Record reporter := mkReporter {
  db : string;
  query : string;
  nassoc : Z
}.

Definition newReporter (db query : string) (nassoc : Z) : reporter :=
  {| db := db; query := query; nassoc := nassoc |}.

(** [(r *reporter) write]. *)
Definition write (E : env) (r : reporter) (w : string) (rep : report) : M (option error) :=
  do res <- rows E rep (db r) (query r);
  match res with
  | inl err => ret (Some (Errorf "cannot query: " err))
  | inr rs => extract E w rs (nassoc r)
  end.

Definition removePartial (E : env) (rep : report) : M unit :=
  do err <- os_Remove E (fname rep);
  match err with
  | Some err =>
      err_Printf (String_ rep
        +:+ ": cannot removed partial report file, remove it manually: " +:+ emsg err)
  | None => ret tt
  end.

(** [(r *reporter) generate].  The removal after [Fatalf] is kept where the
    source has it. *)
Definition generate (E : env) (r : reporter) (rep : report) : M unit :=
  do_ info_Printf (String_ rep +:+ ": generating report");
  do ex <- exists_ E rep;
  if ex then info_Printf (String_ rep +:+ ": exists")
  else
    do cr <- os_Create E (fname rep);
    match cr with
    | inl _ => err_Printf (String_ rep +:+ ": cannot create file")
    | inr f =>
        do err <- write E r f rep;
        match err with
        | Some err =>
            do_ err_Printf (String_ rep +:+ ": cannot generate report: " +:+ emsg err);
            do _ignored <- file_Close E f;
            removePartial E rep
        | None =>
            do err <- file_Close E f;
            match err with
            | Some err =>
                do_ err_Fatalf (String_ rep +:+ ": cannot close file: " +:+ emsg err);
                removePartial E rep
            | None => ret tt
            end
        end
    end.

Record task := mkTask {
  t : Time;
  tname : string;
  dir : string;
  dsn : string;
  tquery : string;
  months : Z;
  fields : Z
}.

Definition newTask (now : Time) (name dsn : string) (cf : conf) : task :=
  {| t := now; tname := name; dsn := dsn; dir := Directory cf;
     tquery := Query cf; months := Months cf; fields := Fields cf |}.

(** The zero value of [report], which [make] fills the slice with. *)
Definition zeroTime : Time := mkTime (-62135596800) 0 UTC.
Definition zeroReport : report := mkReport "" "" zeroTime zeroTime.

(** The loop of [reports]: [n] iterations are left, [i] is the index. *)
Fixpoint reports_loop (tk : task) (n i : nat) (last : Time) (reports : list report)
    : list report :=
  match n with
  | O => reports
  | S n' =>
      let last := AddDate last 0 (-1) 0 in
      let reports := <[i := makeReport (tname tk) (dir tk) last]> reports in
      reports_loop tk n' (S i) last reports
  end.

(** [(t *task) reports]; [make([]report, t.months)] panics on a negative
    length. *)
Definition reports (E : env) (tk : task) : res (list report) :=
  let last := Date (Year (t tk)) (Month (t tk)) 1 0 0 0 0 (Local E) in
  if months tk <? 0 then Panic "makeslice: len out of range"
  else
    let n := Z.to_nat (months tk) in
    Ret (reports_loop tk n 0 last (replicate n zeroReport)).

(** [for i := range reps { reporter.generate(l, &reps[i]) }]. *)
Fixpoint generate_all (E : env) (r : reporter) (reps : list report) : M unit :=
  match reps with
  | [] => ret tt
  | rep :: rest => do_ generate E r rep; generate_all E r rest
  end.

(** [(t *task) exec]. *)
Definition exec (E : env) (tk : task) : M (option error) :=
  do res <- sql_Open E (dsn tk);
  match res with
  | inl err =>
      ret (Some (Errorf (tname tk +:+ ": cannot connect to database: ") err))
  | inr db =>
      defer (db_Close db)
        (let reporter := newReporter db (tquery tk) (fields tk) in
         do reps <- lift (reports E tk);
         do_ generate_all E reporter reps;
         ret None)
  end.

Definition work (E : env) (tk : task) : M (option error) :=
  do err <- exec E tk;
  match err with
  | Some err => ret (Some (Errorf "creating report: " err))
  | None => ret None
  end.

(** The end of [main]: the parallelism flag, then [make(chan struct{},
    *parallel)], which panics on a negative size.  The result is the capacity
    of the gate handed to [run]. *)
Definition gateCapacity (parallel : Z) : res Z :=
  let parallel := if 0 <? parallel then 1 else parallel in
  if parallel <? 0 then Panic "makechan: size out of range" else Ret parallel.

End T3rep.

(** ** Vocabulary for the properties of [main.go] *)
Module Scenarios.
Import GoTime GoStrings Os Sys T3rep.

(** The window of the month of index [idx] in the words of the
    specification, for comparison with [makeReport]: from the first instant
    of the month to its last second, in a file named after the system, the
    year and the month. *)
Definition window (l : Location) (name dir : string) (idx : Z) : report :=
  let '(y, m) := monthOfIndex idx in
  {| name := name;
     fname := Join dir (Sprintf_csv name y m);
     start := midnight l idx 1;
     end_ := lastSecond l idx |}.

(** Report [r] covers exactly the month of index [idx]: it starts at 00:00:00
    on the first day and ends at 23:59:59 on the last day of that month, in
    the local time of its instants. *)
Definition coversMonth (r : report) (idx : Z) : Prop :=
  let '(y, m) := monthOfIndex idx in
  dateOf (start r) = (y, m, 1) /\ Clock (start r) = (0, 0, 0)
  /\ nsec (start r) = 0
  /\ dateOf (end_ r) = (y, m, daysIn y m) /\ Clock (end_ r) = (23, 59, 59)
  /\ nsec (end_ r) = 0.

Definition never1 {A B} : A -> B -> option error := fun _ _ => None.
Definition never2 {A B C} : A -> B -> C -> option error := fun _ _ _ => None.

(** Nothing fails, and every query has the result [rs]. *)
Definition quietEnv (l : Location) (rs : list row) : env :=
  {| Local := l;
     stat_fault := never1; create_fault := never1; write_fault := never2;
     close_fault := never1; remove_fault := never1; open_fault := never1;
     query_result := fun _ _ _ _ _ => inr rs |}.

Definition EACCES (op path : string) : error :=
  mkError ErrPermission (op +:+ " " +:+ path +:+ ": permission denied").
Definition EIO (op path : string) : error :=
  mkError ErrOther (op +:+ " " +:+ path +:+ ": input/output error").

(** [stat] is denied on every path; nothing else fails. *)
Definition statDeniedEnv (l : Location) (rs : list row) : env :=
  {| Local := l;
     stat_fault := fun _ p => Some (EACCES "stat" p);
     create_fault := never1; write_fault := never2;
     close_fault := never1; remove_fault := never1; open_fault := never1;
     query_result := fun _ _ _ _ _ => inr rs |}.

(** Closing a file fails; nothing else does. *)
Definition closeFailsEnv (l : Location) (rs : list row) : env :=
  {| Local := l;
     stat_fault := never1; create_fault := never1; write_fault := never2;
     close_fault := fun _ p => Some (EIO "close" p);
     remove_fault := never1; open_fault := never1;
     query_result := fun _ _ _ _ _ => inr rs |}.

Definition emptyWorld : world := mkWorld ∅ [].

Definition sampleRows : list row := [[Some "a"; Some "b"]; [Some "c"; Some "d"]].

(** A task for system [sys] writing to [out], two columns wide. *)
Definition sampleTask (now : Time) (months : Z) : task :=
  {| t := now; tname := "sys"; dir := "out"; dsn := "user@/db";
     tquery := "SELECT a, b FROM t WHERE at BETWEEN ? AND ?";
     months := months; fields := 2 |}.

(** Instants used as now. *)
Definition march2024 : Time := Date 2024 3 15 10 30 0 0 UTC.
Definition april2024Rome : Time := Date 2024 4 15 12 0 0 0 europeRome.
Definition may2024Rome : Time := Date 2024 5 15 12 0 0 0 europeRome.

(** The world in which [generate] tests for the file of [rep]: the start of
    the generation has been logged. *)
Definition atExistenceTest (rep : report) (w : world) : world :=
  (info_Printf (String_ rep +:+ ": generating report") w).2.

(** The events of [w'] that came after those of [w]. *)
Definition eventsSince (w w' : world) : list event :=
  drop (length (trace w)) (trace w').

(** The log entry written by [w] having one more event [e]. *)
Definition logged (e : event) (w : world) : world :=
  mkWorld (files w) (trace w ++ [e]).

(** The report of February 2024 of [sampleTask]. *)
Definition februaryReport : report :=
  makeReport "sys" "out" (Date 2024 2 1 0 0 0 0 UTC).

Definition sampleReporter : reporter :=
  newReporter "user@/db" "SELECT a, b FROM t WHERE at BETWEEN ? AND ?" 2.

End Scenarios.

(** ** [run]: the dispatcher

    The goroutines of [run] as a transition system.  The main goroutine
    spawns one worker per system, in the order [range] happens to visit the
    map, then receives [len(cf.Systems)] results.  A worker sends on the gate
    [sem], builds and runs its task, sends the result on [errch] and receives
    from [sem].  A task runs in one step on the shared [world]; between the
    send on [sem] and that step the worker is in its query phase.  A task
    that exits or panics terminates the whole process. *)
Module Dispatch.
Import GoTime Os OsNotations Sys T3rep.

Inductive wpc :=
| WAcquire
| WWork
| WSend (err : option error)
| WRelease
| WDone.

(** A worker: the arguments of its closure, where it stands, and the result
    of its task once it has run. *)
Record worker := mkWorker {
  wname : string;
  wdsn : string;
  pc : wpc;
  wres : option (option error)
}.

Inductive mpc :=
| MSpawn (todo : list (string * string))
| MRecv (i : nat)
| MReturned.

Record state := mkState {
  mainpc : mpc;
  workers : list worker;
  sem : nat;
  errch : list (option error);
  wld : world;
  dead : bool
}.

Inductive action :=
| AMain
| AAcquire (k : nat)
| AWork (k : nat)
| ASend (k : nat)
| ARelease (k : nat)
| AHandoff (k j : nat).

Definition setPc (k : nat) (p : wpc) (ws : list worker) : list worker :=
  alter (fun w => mkWorker (wname w) (wdsn w) p (wres w)) k ws.

Definition setRes (k : nat) (p : wpc) (r : option error) (ws : list worker) : list worker :=
  alter (fun w => mkWorker (wname w) (wdsn w) p (Some r)) k ws.

Definition pcAt (s : state) (k : nat) : option wpc := pc <$> workers s !! k.

(** The message of [logs.err.Printf("fatal: %v", err)]. *)
Definition fatalMsg (e : error) : string := "fatal: " +:+ emsg e.

(** The body of the receiving loop of [run] after [err := <-errch]. *)
Definition logResult (err : option error) (w : world) : world :=
  match err with
  | Some e => (err_Printf (fatalMsg e) w).2
  | None => w
  end.

Section Run.
Variable E : env.
Variable cf : conf.
Variable now : Time.
(** The capacity of the gate [sem]. *)
Variable cap : nat.

(** [len(cf.Systems)], the capacity of [errch] and the number of receives. *)
Definition nsys : nat := size (Systems cf).

Definition fireMain (s : state) : option state :=
  match mainpc s with
  | MSpawn [] =>
      Some (mkState (MRecv 0) (workers s) (sem s) (errch s) (wld s) (dead s))
  | MSpawn ((name, dsn) :: rest) =>
      Some (mkState (MSpawn rest) (workers s ++ [mkWorker name dsn WAcquire None])
              (sem s) (errch s) (wld s) (dead s))
  | MRecv i =>
      if (i <? nsys)%nat then
        match errch s with
        | [] => None
        | err :: q =>
            Some (mkState (MRecv (S i)) (workers s) (sem s) q
                    (logResult err (wld s)) (dead s))
        end
      else Some (mkState MReturned (workers s) (sem s) (errch s) (wld s) (dead s))
  | MReturned => None
  end.

Definition fireWork (k : nat) (s : state) : option state :=
  match workers s !! k with
  | Some w =>
      match pc w with
      | WWork =>
          let tk := newTask now (wname w) (wdsn w) cf in
          match work E tk (wld s) with
          | (Ret err, w') =>
              Some (mkState (mainpc s) (setRes k (WSend err) err (workers s))
                      (sem s) (errch s) w' (dead s))
          | (_, w') =>
              Some (mkState (mainpc s) (workers s) (sem s) (errch s) w' true)
          end
      | _ => None
      end
  | None => None
  end.

(** One step of one goroutine; [None] when the goroutine is blocked, has
    finished, or the process has terminated. *)
Definition fire (a : action) (s : state) : option state :=
  if dead s then None
  else
    match a with
    | AMain => fireMain s
    | AAcquire k =>
        match pcAt s k with
        | Some WAcquire =>
            if (sem s <? cap)%nat then
              Some (mkState (mainpc s) (setPc k WWork (workers s)) (S (sem s))
                      (errch s) (wld s) (dead s))
            else None
        | _ => None
        end
    | AWork k => fireWork k s
    | ASend k =>
        match pcAt s k with
        | Some (WSend err) =>
            if (length (errch s) <? nsys)%nat then
              Some (mkState (mainpc s) (setPc k WRelease (workers s)) (sem s)
                      (errch s ++ [err]) (wld s) (dead s))
            else None
        | _ => None
        end
    | ARelease k =>
        match pcAt s k, sem s with
        | Some WRelease, S n =>
            Some (mkState (mainpc s) (setPc k WDone (workers s)) n
                    (errch s) (wld s) (dead s))
        | _, _ => None
        end
    | AHandoff k j =>
        (* an unbuffered gate: a sender and a receiver meet *)
        match cap, pcAt s k, pcAt s j with
        | O, Some WAcquire, Some WRelease =>
            Some (mkState (mainpc s)
                    (setPc j WDone (setPc k WWork (workers s))) (sem s)
                    (errch s) (wld s) (dead s))
        | _, _, _ => None
        end
    end.

Definition step (s s' : state) : Prop := exists a, fire a s = Some s'.

(** A schedule, run from a state. *)
Fixpoint fireAll (sched : list action) (s : state) : option state :=
  match sched with
  | [] => Some s
  | a :: rest =>
      match fire a s with
      | Some s' => fireAll rest s'
      | None => None
      end
  end.

(** [run] is entered: nothing spawned yet, [order] the order in which
    [range cf.Systems] visits the map. *)
Definition init (order : list (string * string)) (w : world) : state :=
  mkState (MSpawn order) [] 0 [] w false.

End Run.

(** A worker holds a slot of the gate from its send on [sem] to its receive. *)
Definition holding (w : worker) : bool :=
  match pc w with
  | WWork | WSend _ | WRelease => true
  | _ => false
  end.

(** A worker is in the query phase of its task. *)
Definition querying (w : worker) : bool :=
  match pc w with
  | WWork => true
  | _ => false
  end.

(** A worker has run its task and delivered the result. *)
Definition delivered (w : worker) : bool :=
  match pc w with
  | WRelease | WDone => true
  | _ => false
  end.

(** The number of workers that satisfy [f]. *)
Definition count (f : worker -> bool) (ws : list worker) : nat :=
  sum_list_with (fun w => if f w then 1%nat else 0%nat) ws.

Definition allDone (s : state) : bool :=
  forallb (fun w => match pc w with WDone => true | _ => false end) (workers s).

(** Nothing is left to do: the process has terminated, or [run] has returned
    and every worker has finished. *)
Definition final (s : state) : bool :=
  dead s || (match mainpc s with MReturned => true | _ => false end && allDone s).

Definition ident (w : worker) : string * string := (wname w, wdsn w).

(** Steps a goroutine has left, at most. *)
Definition wweight (w : worker) : nat :=
  match pc w with
  | WAcquire => 4
  | WWork => 3
  | WSend _ => 2
  | WRelease => 1
  | WDone => 0
  end.

Definition mweight (n : nat) (m : mpc) : nat :=
  match m with
  | MSpawn todo => 5 * length todo + n + 2
  | MRecv i => (n - i) + 1
  | MReturned => 0
  end.

Definition measure (n : nat) (s : state) : nat :=
  if dead s then 0
  else 1 + mweight n (mainpc s) + sum_list_with wweight (workers s).

(** The systems [run] has not spawned a worker for yet. *)
Definition todo (s : state) : list (string * string) :=
  match mainpc s with
  | MSpawn l => l
  | _ => []
  end.

(** The number of results the main goroutine has received. *)
Definition received (n : nat) (s : state) : nat :=
  match mainpc s with
  | MSpawn _ => 0
  | MRecv i => i
  | MReturned => n
  end.

(** The result of the task of worker [w] is in the error log. *)
Definition resultLogged (s : state) (w : worker) : Prop :=
  forall e, wres w = Some (Some e) -> EvError (fatalMsg e) ∈ trace (wld s).

(** What is known of the result of a worker from where it stands. *)
Definition resOK (w : worker) : Prop :=
  match pc w with
  | WAcquire | WWork => wres w = None
  | WSend err => wres w = Some err
  | WRelease | WDone => is_Some (wres w)
  end.

(** The result of a worker that has delivered it is in [errch] or, if it is
    an error, in the error log. *)
Definition resultKept (s : state) (w : worker) : Prop :=
  delivered w = true ->
  forall e, wres w = Some (Some e) ->
    Some e ∈ errch s \/ EvError (fatalMsg e) ∈ trace (wld s).

(** What holds of every state [run] can reach, for the gate of capacity
    [cap] and the spawning order [order]. *)
Record Inv (cf : conf) (cap : nat) (order : list (string * string)) (s : state)
    : Prop := mkInv {
  inv_ident : (ident <$> workers s) ++ todo s = order;
  inv_sem : sem s = count holding (workers s);
  inv_cap : (sem s <= cap)%nat;
  inv_recv :
    (received (nsys cf) s + length (errch s))%nat = count delivered (workers s);
  inv_le : (received (nsys cf) s <= nsys cf)%nat;
  inv_res : Forall resOK (workers s);
  inv_log : Forall (resultKept s) (workers s)
}.

(** The steps of [fire], case by case. *)
Inductive trans (E : env) (cf : conf) (now : Time) (cap : nat) (s : state)
  : state -> Prop :=
| t_spawn name dsn rest :
    mainpc s = MSpawn ((name, dsn) :: rest) ->
    trans E cf now cap s
      (mkState (MSpawn rest) (workers s ++ [mkWorker name dsn WAcquire None])
         (sem s) (errch s) (wld s) (dead s))
| t_spawned :
    mainpc s = MSpawn [] ->
    trans E cf now cap s
      (mkState (MRecv 0) (workers s) (sem s) (errch s) (wld s) (dead s))
| t_recv i err q :
    mainpc s = MRecv i -> (i < nsys cf)%nat -> errch s = err :: q ->
    trans E cf now cap s
      (mkState (MRecv (S i)) (workers s) (sem s) q (logResult err (wld s)) (dead s))
| t_return i :
    mainpc s = MRecv i -> ~ (i < nsys cf)%nat ->
    trans E cf now cap s
      (mkState MReturned (workers s) (sem s) (errch s) (wld s) (dead s))
| t_acquire k w :
    workers s !! k = Some w -> pc w = WAcquire -> (sem s < cap)%nat ->
    trans E cf now cap s
      (mkState (mainpc s) (setPc k WWork (workers s)) (S (sem s))
         (errch s) (wld s) (dead s))
| t_work k w err w' :
    workers s !! k = Some w -> pc w = WWork ->
    work E (newTask now (wname w) (wdsn w) cf) (wld s) = (Ret err, w') ->
    trans E cf now cap s
      (mkState (mainpc s) (setRes k (WSend err) err (workers s))
         (sem s) (errch s) w' (dead s))
| t_die k w r w' :
    workers s !! k = Some w -> pc w = WWork ->
    work E (newTask now (wname w) (wdsn w) cf) (wld s) = (r, w') ->
    (forall err, r <> Ret err) ->
    trans E cf now cap s
      (mkState (mainpc s) (workers s) (sem s) (errch s) w' true)
| t_send k w err :
    workers s !! k = Some w -> pc w = WSend err ->
    (length (errch s) < nsys cf)%nat ->
    trans E cf now cap s
      (mkState (mainpc s) (setPc k WRelease (workers s)) (sem s)
         (errch s ++ [err]) (wld s) (dead s))
| t_release k w n :
    workers s !! k = Some w -> pc w = WRelease -> sem s = S n ->
    trans E cf now cap s
      (mkState (mainpc s) (setPc k WDone (workers s)) n
         (errch s) (wld s) (dead s))
| t_handoff k j wk wj :
    cap = 0%nat ->
    workers s !! k = Some wk -> pc wk = WAcquire ->
    workers s !! j = Some wj -> pc wj = WRelease ->
    trans E cf now cap s
      (mkState (mainpc s) (setPc j WDone (setPc k WWork (workers s))) (sem s)
         (errch s) (wld s) (dead s)).

(** With an unbuffered gate nothing gets past the gate: every worker waits
    to send on it, nothing has been sent on [errch], and the main goroutine
    spawns or waits for its first result. *)
Definition blocked (w0 : world) (s : state) : Prop :=
  Forall (fun w => pc w = WAcquire) (workers s)
  /\ errch s = []
  /\ ((exists l, mainpc s = MSpawn l) \/ mainpc s = MRecv 0)
  /\ wld s = w0
  /\ dead s = false.

(** Two systems, and a configuration for one month back. *)
Definition twoSystems : conf :=
  {| Query := "SELECT a, b FROM t WHERE at BETWEEN ? AND ?";
     Fields := 2; Months := 1; Directory := "out";
     Systems := {[ "a" := "user@/a"; "b" := "user@/b" ]} |}.

(** The workers run one after the other, then the results are received. *)
Definition oneByOne : list action :=
  [AMain; AMain; AMain;
   AAcquire 0; AWork 0; ASend 0; ARelease 0;
   AAcquire 1; AWork 1; ASend 1; ARelease 1;
   AMain; AMain; AMain].

End Dispatch.

(** ** Vocabulary for the properties of extraction and generation *)
Module Terms.
Import GoTime GoStrings Csv Os Sys T3rep Scenarios.

(** A row whose columns all hold text. *)
Definition textRow (v : list string) : row := Some <$> v.

(** The lines [formatCSV] makes of rows of text. *)
Definition csvLines (vals : list (list string)) : list string := csvLine <$> vals.

(** Strings one after the other. *)
Definition joined (ls : list string) : string := foldr String.append EmptyString ls.

(** What file [f] holds, nothing when it is absent. *)
Definition contents (w : world) (f : string) : string := default "" (files w !! f).

(** The world after the lines have been written to [f], one [Write] each. *)
Fixpoint written (f : string) (lines : list string) (w : world) : world :=
  match lines with
  | [] => w
  | l :: ls =>
      written f ls
        (mkWorld (<[f := contents w f +:+ l]> (files w)) (trace w ++ [EvWrite f l]))
  end.

(** A row [Scan] rejects when it scans into [n] strings. *)
Definition unscannable (n : nat) (r : row) : Prop := length r <> n \/ None ∈ r.

(** Writes fail once the file holds something: the first line of a file gets
    through, the second does not.  Nothing else fails. *)
Definition secondWriteFailsEnv (l : Location) (rs : list row) : env :=
  {| Local := l;
     stat_fault := never1; create_fault := never1;
     write_fault := fun w f _ =>
       if String.eqb (contents w f) "" then None else Some (EIO "write" f);
     close_fault := never1; remove_fault := never1; open_fault := never1;
     query_result := fun _ _ _ _ _ => inr rs |}.

(** The world in which [generate] removes the file of [rep] after [write]
    failed with [err] in [w]: the failure is logged and the file closed. *)
Definition atRemoval (rep : report) (err : error) (w : world) : world :=
  logged (EvClose (fname rep))
    (logged (EvError (fname rep +:+ ": cannot generate report: " +:+ emsg err)) w).

(** Path [p] holds in [w'] what it held in [w]. *)
Definition sameAt (p : string) (w w' : world) : Prop :=
  files w' !! p = files w !! p.

(** Removing a file is denied; nothing else fails. *)
Definition removeDeniedEnv (l : Location) (rs : list row) : env :=
  {| Local := l;
     stat_fault := never1; create_fault := never1; write_fault := never2;
     close_fault := never1;
     remove_fault := fun _ p => Some (EACCES "remove" p);
     open_fault := never1;
     query_result := fun _ _ _ _ _ => inr rs |}.

(** Creating a file is denied; nothing else fails. *)
Definition createDeniedEnv (l : Location) (rs : list row) : env :=
  {| Local := l;
     stat_fault := never1;
     create_fault := fun _ p => Some (EACCES "open" p);
     write_fault := never2; close_fault := never1; remove_fault := never1;
     open_fault := never1;
     query_result := fun _ _ _ _ _ => inr rs |}.

(** No call on path [p] fails for a reason of the environment's own. *)
Definition faultless (E : env) (p : string) : Prop :=
  (forall w, stat_fault E w p = None)
  /\ (forall w, create_fault E w p = None)
  /\ (forall w d, write_fault E w p d = None)
  /\ (forall w, close_fault E w p = None).

(** The query of reporter [r] for the window of [rep] has the rows of text
    [vals] as its result. *)
Definition answers (E : env) (r : reporter) (rep : report)
    (vals : list (list string)) : Prop :=
  forall w,
    query_result E w (db r) (query r) (Format (start rep)) (Format (end_ rep))
    = inr (textRow <$> vals).

(** The events of a run of [generate] that writes the lines [ls]. *)
Definition generationEvents (r : reporter) (rep : report) (ls : list string)
    : list event :=
  [EvInfo (fname rep +:+ ": generating report");
   EvStat (fname rep);
   EvCreate (fname rep);
   EvQuery (db r) (query r) (Format (start rep)) (Format (end_ rep))]
  ++ (EvWrite (fname rep) <$> ls) ++ [EvClose (fname rep)].

(** The events of a run of [generate] that finds the file. *)
Definition skipEvents (rep : report) : list event :=
  [EvInfo (fname rep +:+ ": generating report");
   EvStat (fname rep);
   EvInfo (fname rep +:+ ": exists")].

(** An event that neither opens nor closes a connection; a query on a
    connection is such an event. *)
Definition notDB (ev : event) : Prop :=
  match ev with
  | EvOpenDB _ | EvCloseDB _ => False
  | _ => True
  end.

(** An event that leaves connection [d] open and uses no other: not an open
    and not a close, and, if it is a query, a query on [d]. *)
Definition usesOnly (d : string) (ev : event) : Prop :=
  match ev with
  | EvOpenDB _ | EvCloseDB _ => False
  | EvQuery d' _ _ _ => d' = d
  | _ => True
  end.

End Terms.

(** ** Vocabulary for the runs of the dispatcher *)
Module RunTerms.
Import GoTime Os Sys T3rep Scenarios Dispatch.

(** The connection strings [sql.Open] was called with, in the order of the
    calls. *)
Definition opened (evs : list event) : list string :=
  omap (fun ev => match ev with EvOpenDB d => Some d | _ => None end) evs.

(** A worker has run its task. *)
Definition ran (w : worker) : bool :=
  match pc w with
  | WSend _ | WRelease | WDone => true
  | _ => false
  end.

(** The state in which [run] has returned without having spawned a worker. *)
Definition returnedAtOnce (w0 : world) : state := mkState MReturned [] 0 [] w0 false.

(** A configuration without systems. *)
Definition noSystems : conf :=
  {| Query := "SELECT a, b FROM t WHERE at BETWEEN ? AND ?";
     Fields := 2; Months := 1; Directory := "out"; Systems := ∅ |}.

End RunTerms.

(** ** Vocabulary for the names of the report files *)
Module NameTerms.
Import GoTime GoStrings T3rep.

(** The string holds a slash. *)
Fixpoint hasSlash (s : string) : bool :=
  match s with
  | EmptyString => false
  | String c rest => Ascii.eqb c slash || hasSlash rest
  end.

(** What [makeReport] puts after the name of the system in the name of the
    file: the rest of [fmt.Sprintf("%s-%d-%02d.csv", ...)]. *)
Definition monthSuffix (year month : Z) : string :=
  "-" +:+ pretty year +:+ "-" +:+ pad2 month +:+ ".csv".

End NameTerms.

(** ** Vocabulary for the lines of a report *)
Module CsvTerms.
Import GoStrings Csv.

(** Read from its end, every double quote of the text follows a backslash:
    in [u], the text last byte first, a double quote is followed by a
    backslash. *)
Fixpoint quotesEscaped (u : list ascii) : bool :=
  match u with
  | [] => true
  | c :: rest =>
      if Ascii.eqb c dquote then
        match rest with
        | b :: _ => Ascii.eqb b backslash && quotesEscaped rest
        | [] => false
        end
      else quotesEscaped rest
  end.

(** What follows the opening quote of a field, read from the end of the
    line: nothing, or the semicolon before the field. *)
Definition fieldStart (x : list ascii) : Prop :=
  match x with
  | [] => True
  | c :: _ => c <> backslash
  end.

(** The bytes of the fields of a line, without the end of the line. *)
Definition lineBody (fields : list string) : list ascii :=
  list_ascii_of_string (String.concat ";" (map quoteField fields)).

End CsvTerms.

(** ** Vocabulary for whole tasks *)
Module TaskTerms.
Import GoTime Os Sys T3rep Scenarios Terms.

(** The reporter [exec] makes for the task. *)
Definition reporterOf (tk : task) : reporter :=
  newReporter (dsn tk) (tquery tk) (fields tk).

(** The events of a task that finds the file of every report. *)
Definition skippedTaskEvents (tk : task) (reps : list report) : list event :=
  EvOpenDB (dsn tk) :: (reps ≫= skipEvents) ++ [EvCloseDB (dsn tk)].

(** Nothing stands in the way of report [r] of the task in world [w]: no
    call on its file fails, its file is absent, and its query has the rows of
    text [vals], of the configured width, as its result. *)
Definition clearFor (E : env) (tk : task) (w : world) (r : report)
    (vals : list (list string)) : Prop :=
  faultless E (fname r)
  /\ answers E (reporterOf tk) r vals
  /\ Forall (fun v => length v = Z.to_nat (fields tk)) vals
  /\ files w !! fname r = None.

End TaskTerms.

(** ** Vocabulary for the results of the tasks *)
Module ResultTerms.
Import GoTime Os Sys T3rep Scenarios Dispatch.

(** The result worker [w] holds is the result of a run of its task. *)
Definition resultOfTask (E : env) (cf : conf) (now : Time) (w : worker) : Prop :=
  forall r, wres w = Some r ->
    exists w1 w2, work E (newTask now (wname w) (wdsn w) cf) w1 = (Ret r, w2).

(** The line [run] logs for a system whose [sql.Open] failed with [e0]. *)
Definition openFailureLine (name : string) (e0 : error) : string :=
  "fatal: creating report: " +:+ name +:+ ": cannot connect to database: "
  +:+ emsg e0.

(** The error of the MySQL driver for a connection string without the slash
    that separates the name of the database. *)
Definition EBADDSN : error :=
  mkError ErrOther "invalid DSN: missing the slash separating the database name".

(** [sql.Open] makes no connection: it fails where the driver cannot parse
    the connection string, here where the string has no slash.  Nothing else
    fails. *)
Definition strictDsnEnv (l : Location) (rs : list row) : env :=
  {| Local := l;
     stat_fault := never1; create_fault := never1; write_fault := never2;
     close_fault := never1; remove_fault := never1;
     open_fault := fun _ d => if NameTerms.hasSlash d then None else Some EBADDSN;
     query_result := fun _ _ _ _ _ => inr rs |}.

(** Two systems, the first with a connection string the driver rejects. *)
Definition oneBadDsn : conf :=
  {| Query := "SELECT a, b FROM t WHERE at BETWEEN ? AND ?";
     Fields := 2; Months := 1; Directory := "out";
     Systems := {[ "a" := "user@tcp(db:3306)"; "b" := "user@/b" ]} |}.

End ResultTerms.

(** ** Vocabulary for windows in zones that change their offset *)
Module ZoneTerms.
Import GoTime.

(** Seconds of local time from 1970-01-01 00:00:00 to midnight at the start
    of day [d] of the month of index [idx]. *)
Definition civilMidnight (idx d : Z) : Z := (firstDay idx + d - 1) * secondsPerDay.

(** The local time [c] is read with offset [off] in location [l]: the offset
    is in force at the instant [c - off] the local time stands for, and at
    the instant [c] at which [time.Date] first looks the zone up. *)
Definition inForce (l : Location) (off c : Z) : Prop :=
  offsetAt l c = off /\ offsetAt l (c - off) = off.

(** The instant at which local time [c] is read with offset [off]. *)
Definition instant (l : Location) (off c : Z) : Time := mkTime (c - off) 0 l.

(** What [makeReport] builds for the month of index [idx] when the first
    midnight of the month is read with offset [s] and the midnight that
    starts its last day with offset [e]: the window ends 86399 seconds after
    that midnight. *)
Definition zoneWindow (l : Location) (s e : Z) (name dir : string) (idx : Z)
    : T3rep.report :=
  {| T3rep.name := name;
     T3rep.fname :=
       GoStrings.Join dir (T3rep.Sprintf_csv name (idx / 12) (idx mod 12 + 1));
     T3rep.start := instant l s (civilMidnight idx 1);
     T3rep.end_ := mkTime (civilMidnight (idx + 1) 1 - 1 - e) 0 l |}.

(** The offsets in force in Central European time at the first midnight of
    the months of 2024 and at the midnight that starts their last day. *)
Definition romeStart (idx : Z) : Z :=
  if (monthIndex 2024 4 <=? idx) && (idx <=? monthIndex 2024 10) then 7200 else 3600.
Definition romeLastDay (idx : Z) : Z :=
  if (monthIndex 2024 4 <=? idx) && (idx <=? monthIndex 2024 9) then 7200 else 3600.

End ZoneTerms.

(* ================================================================== *)
(** * Part II: properties *)
(* ================================================================== *)

(** ** The calendar *)
Module TimeFacts.
Import GoTime.

Lemma isLeap_len y : daysSinceEpoch (y + 1) = daysSinceEpoch y + (if isLeap y then 366 else 365).
Proof.
  unfold daysSinceEpoch, isLeap.
  replace (y + 1 - 1) with y by lia.
  destruct (Z.eqb_spec (y mod 4) 0), (Z.eqb_spec (y mod 100) 0),
    (Z.eqb_spec (y mod 400) 0); simpl; lia.
Qed.

Lemma yearOfDays_spec y yd :
  0 <= yd < (if isLeap y then 366 else 365) ->
  yearOfDays (daysSinceEpoch y + yd) = y.
Proof.
  intros H. unfold yearOfDays.
  pose proof (isLeap_len y) as Hs.
  pose proof (isLeap_len (y - 1)) as Hp.
  replace (y - 1 + 1) with y in Hp by lia.
  pose proof (isLeap_len (y + 1)) as Hn.
  set (d := daysSinceEpoch y + yd) in *.
  set (y0 := 1970 + 400 * d / 146097).
  assert (Hy0 : y0 = y - 1 \/ y0 = y \/ y0 = y + 1).
  { subst y0 d. unfold daysSinceEpoch in *. destruct (isLeap y); lia. }
  destruct (isLeap y), (isLeap (y - 1)), (isLeap (y + 1));
    destruct Hy0 as [-> | [-> | ->]];
    repeat match goal with
           | |- context [y - 1 + 1] => replace (y - 1 + 1) with y by lia
           | |- context [if ?a <? ?b then _ else _] => destruct (Z.ltb_spec a b)
           | |- context [if ?a <=? ?b then _ else _] => destruct (Z.leb_spec a b)
           end; lia.
Qed.

Ltac split_month m :=
  let Hc := fresh "Hc" in
  assert (Hc : m = 1 \/ m = 2 \/ m = 3 \/ m = 4 \/ m = 5 \/ m = 6 \/ m = 7
               \/ m = 8 \/ m = 9 \/ m = 10 \/ m = 11 \/ m = 12) by lia;
  repeat (destruct Hc as [-> | Hc]); try subst m.

Ltac decide_tests :=
  repeat match goal with
    | |- context [if ?a =? ?b then _ else _] => destruct (Z.eqb_spec a b)
    | |- context [if ?a <? ?b then _ else _] => destruct (Z.ltb_spec a b)
    | |- context [if ?a <=? ?b then _ else _] => destruct (Z.leb_spec a b)
    end.

Ltac closed_Z a :=
  let v := eval vm_compute in a in
  lazymatch v with
  | Z0 => idtac
  | Zpos _ => idtac
  | Zneg _ => idtac
  end.

(** Look up [daysBefore] at constant months, in the goal and the hypotheses. *)
Ltac eval_daysBefore :=
  repeat match goal with
    | |- context [daysBefore ?a] =>
        closed_Z a;
        let v := eval vm_compute in (daysBefore a) in
        change (daysBefore a) with v
    | H : context [daysBefore ?a] |- _ =>
        closed_Z a;
        let v := eval vm_compute in (daysBefore a) in
        change (daysBefore a) with v in H
    end.

Lemma monthDayPlain_spec m k :
  1 <= m <= 12 -> 0 <= k < daysBefore m - daysBefore (m - 1) ->
  monthDayPlain (daysBefore (m - 1) + k) = (m, k + 1).
Proof.
  intros Hm Hk. unfold monthDayPlain.
  split_month m; eval_daysBefore.
  all: match goal with
       | |- context [(?c + ?k') / 31] =>
           let a := eval vm_compute in (c / 31) in
           let lo := eval vm_compute in (31 * (c / 31 + 1)) in
           let q := fresh "q" in
           remember ((c + k') / 31) as q eqn:Hq;
           assert (Hq' : (q = a /\ c + k' < lo) \/ (q = a + 1 /\ lo <= c + k'))
             by lia;
           clear Hq; destruct Hq' as [[-> Hq] | [-> Hq]]
       end.
  all: eval_daysBefore.
  all: decide_tests; try lia; try (f_equal; lia).
Qed.

Lemma monthDayOfYday_spec y m d :
  1 <= m <= 12 -> 1 <= d <= daysIn y m ->
  monthDayOfYday y
    (daysBefore (m - 1) + (if isLeap y && (3 <=? m) then 1 else 0) + (d - 1))
  = (m, d).
Proof.
  intros Hm Hd. unfold monthDayOfYday.
  assert (Hlen : daysIn y m
                 = daysBefore m - daysBefore (m - 1)
                   + (if isLeap y && (m =? 2) then 1 else 0)).
  { unfold daysIn. destruct (isLeap y); split_month m; reflexivity. }
  destruct (isLeap y); cbn [andb] in *.
  - destruct (Z.leb_spec 3 m), (Z.eqb_spec m 2); try lia.
    + (* March and later: February 29 is skipped *)
      assert (59 <= daysBefore (m - 1)) by (split_month m; eval_daysBefore; lia).
      decide_tests; try lia.
      replace (daysBefore (m - 1) + 1 + (d - 1) - 1)
        with (daysBefore (m - 1) + (d - 1)) by lia.
      rewrite monthDayPlain_spec by lia. f_equal; lia.
    + (* February *)
      subst m. pose proof (monthDayPlain_spec 2 (d - 1)) as Hp.
      eval_daysBefore. decide_tests; try lia.
      * f_equal; lia.
      * replace (31 + 0 + (d - 1)) with (31 + (d - 1)) by lia.
        rewrite Hp by lia. f_equal; lia.
    + (* January *)
      assert (m = 1) as -> by lia.
      pose proof (monthDayPlain_spec 1 (d - 1)) as Hp.
      eval_daysBefore. decide_tests; try lia.
      replace (0 + 0 + (d - 1)) with (0 + (d - 1)) by lia.
      rewrite Hp by lia. f_equal; lia.
  - replace (daysBefore (m - 1) + 0 + (d - 1))
      with (daysBefore (m - 1) + (d - 1)) by lia.
    rewrite monthDayPlain_spec by lia. f_equal; lia.
Qed.

Lemma yday_bound y m d :
  1 <= m <= 12 -> 1 <= d <= daysIn y m ->
  0 <= daysBefore (m - 1) + (if isLeap y && (3 <=? m) then 1 else 0) + (d - 1)
    < (if isLeap y then 366 else 365).
Proof.
  intros Hm Hd. unfold daysIn in Hd.
  destruct (isLeap y); split_month m; eval_daysBefore; cbn [andb Z.leb Z.compare Pos.compare Pos.compare_cont] in *; lia.
Qed.

(** The calendar fields of an instant are those it was laid out from. *)
Lemma civil_of_abs t y m d s :
  abs t = dayNumber y m d * secondsPerDay + s ->
  0 <= s < secondsPerDay ->
  1 <= m <= 12 -> 1 <= d <= daysIn y m ->
  dateOf t = (y, m, d) /\ Clock t = (s / 3600, (s mod 3600) / 60, s mod 60).
Proof.
  intros Ha Hs Hm Hd. unfold dateOf, Clock. rewrite Ha.
  unfold secondsPerDay in *.
  replace ((dayNumber y m d * 86400 + s) / 86400) with (dayNumber y m d) by lia.
  replace ((dayNumber y m d * 86400 + s) mod 86400) with s by lia.
  split; [|reflexivity].
  unfold dayNumber.
  pose proof (yday_bound y m d Hm Hd) as Hb.
  replace (daysSinceEpoch y + daysBefore (m - 1)
           + (if isLeap y && (3 <=? m) then 1 else 0) + (d - 1))
    with (daysSinceEpoch y
          + (daysBefore (m - 1) + (if isLeap y && (3 <=? m) then 1 else 0) + (d - 1)))
    by lia.
  rewrite yearOfDays_spec by exact Hb.
  match goal with
  | |- context [monthDayOfYday y ?x] =>
      replace x with (daysBefore (m - 1)
                      + (if isLeap y && (3 <=? m) then 1 else 0) + (d - 1)) by lia
  end.
  rewrite monthDayOfYday_spec by assumption. reflexivity.
Qed.

Lemma monthOfIndex_range idx : 1 <= idx mod 12 + 1 <= 12.
Proof. lia. Qed.

Lemma daysIn_pos y m : 28 <= daysIn y m <= 31.
Proof.
  unfold daysIn. destruct (isLeap y);
    repeat match goal with |- context [match ?x with _ => _ end] => destruct x end;
    lia.
Qed.

(** The first day of the next month comes [daysIn] days after the first day
    of a month. *)
Lemma firstDay_succ idx :
  firstDay (idx + 1) = firstDay idx + daysIn (idx / 12) (idx mod 12 + 1).
Proof.
  unfold firstDay, dayNumber.
  destruct (Z.eq_dec (idx mod 12) 11) as [H11 | H11].
  - replace ((idx + 1) / 12) with (idx / 12 + 1) by lia.
    replace ((idx + 1) mod 12) with 0 by lia.
    rewrite H11, isLeap_len.
    change (11 + 1) with 12. change (0 + 1) with 1.
    unfold daysIn. eval_daysBefore.
    change (3 <=? 12) with true. change (3 <=? 1) with false.
    destruct (isLeap (idx / 12)), (isLeap (idx / 12 + 1)); cbn [andb]; lia.
  - replace ((idx + 1) / 12) with (idx / 12) by lia.
    replace ((idx + 1) mod 12) with (idx mod 12 + 1) by lia.
    remember (idx mod 12 + 1) as m eqn:Em.
    assert (Hm : 1 <= m <= 11) by lia. clear Em H11.
    unfold daysIn.
    assert (Hc : m = 1 \/ m = 2 \/ m = 3 \/ m = 4 \/ m = 5 \/ m = 6 \/ m = 7
                 \/ m = 8 \/ m = 9 \/ m = 10 \/ m = 11) by lia.
    destruct (isLeap (idx / 12));
      repeat (destruct Hc as [-> | Hc]); try subst m; eval_daysBefore;
      cbn [andb];
      repeat match goal with
        | |- context [?a <=? ?b] =>
            let v := eval vm_compute in (a <=? b) in change (a <=? b) with v
        end; lia.
Qed.

(** *** Locations of fixed offset *)
Section FixedOffset.
Variable l : Location.
Hypothesis Hfix : fixedOffset l.

Lemma lookup_fixed u : exists a b, lookup l u = (zone0 l, a, b).
Proof.
  pose proof (Hfix u) as H. unfold offsetAt in H.
  destruct (lookup l u) as [[o a] b]. cbn in H. subst o. eauto.
Qed.

(** [Date] at midnight: the day is counted from the first day of the month
    the normalized fields name. *)
Lemma Date_midnight y m d :
  Date y m d 0 0 0 0 l = midnight l (monthIndex y m) d.
Proof.
  unfold Date, midnight, norm, monthIndex.
  change (0 mod 1000000000) with 0. change (0 / 1000000000) with 0.
  change (0 + 0) with 0. change (0 mod 60) with 0. change (0 / 60) with 0.
  change (0 + 0) with 0. change (0 mod 24) with 0. change (0 / 24) with 0.
  cbv zeta.
  match goal with
  | |- context [lookup l ?u] => destruct (lookup_fixed u) as (a & b & ->)
  end.
  f_equal.
  assert (Hd : daysSinceEpoch (y + (m - 1) / 12) + daysBefore ((m - 1) mod 12 + 1 - 1)
           + (if isLeap (y + (m - 1) / 12) && (3 <=? (m - 1) mod 12 + 1) then 1 else 0)
           = firstDay (12 * y + (m - 1))).
  { unfold firstDay, dayNumber.
    replace ((12 * y + (m - 1)) / 12) with (y + (m - 1) / 12) by lia.
    replace ((12 * y + (m - 1)) mod 12) with ((m - 1) mod 12) by lia.
    lia. }
  unfold secondsPerDay.
  destruct (Z.eqb_spec (zone0 l) 0) as [H0 | H0].
  - lia.
  - rewrite Hfix. destruct (_ || _); lia.
Qed.

Lemma abs_fixed u ns : abs (mkTime u ns l) = u + zone0 l.
Proof. unfold abs. cbn. rewrite Hfix. reflexivity. Qed.

(** The fields of local midnight on a day of the month. *)
Lemma civil_midnight idx d :
  1 <= d <= daysIn (idx / 12) (idx mod 12 + 1) ->
  dateOf (midnight l idx d) = (idx / 12, idx mod 12 + 1, d)
  /\ Clock (midnight l idx d) = (0, 0, 0).
Proof.
  intros Hd.
  apply (civil_of_abs _ (idx / 12) (idx mod 12 + 1) d 0).
  - unfold midnight. rewrite abs_fixed. unfold firstDay, dayNumber. lia.
  - unfold secondsPerDay. lia.
  - lia.
  - exact Hd.
Qed.

(** The fields of the last second of a month. *)
Lemma civil_lastSecond idx :
  dateOf (lastSecond l idx)
  = (idx / 12, idx mod 12 + 1, daysIn (idx / 12) (idx mod 12 + 1))
  /\ Clock (lastSecond l idx) = (23, 59, 59).
Proof.
  pose proof (daysIn_pos (idx / 12) (idx mod 12 + 1)) as Hp.
  apply (civil_of_abs _ (idx / 12) (idx mod 12 + 1) _ 86399).
  - unfold lastSecond. rewrite abs_fixed, firstDay_succ.
    unfold firstDay, dayNumber, secondsPerDay. lia.
  - unfold secondsPerDay. lia.
  - lia.
  - lia.
Qed.

(** [AddDate] from the first midnight of a month. *)
Lemma AddDate_midnight idx months days :
  AddDate (midnight l idx 1) 0 months days = midnight l (idx + months) (1 + days).
Proof.
  pose proof (daysIn_pos (idx / 12) (idx mod 12 + 1)) as Hp.
  destruct (civil_midnight idx 1) as [Hd Hc]; [lia|].
  unfold AddDate. rewrite Hd, Hc. cbn [nsec loc midnight].
  rewrite Date_midnight. f_equal. unfold monthIndex. lia.
Qed.

Lemma Add_lastSecond idx :
  Add (midnight l (idx + 1) (1 + -1)) (23 * Hour + 59 * Minute + 59 * Second)
  = lastSecond l idx.
Proof.
  unfold Add, midnight, lastSecond. cbn [nsec unixSec loc].
  change (23 * Hour + 59 * Minute + 59 * Second) with 86399000000000.
  change (Z.quot 86399000000000 1000000000) with 86399.
  change (0 + Z.rem 86399000000000 1000000000) with 0.
  cbn [Z.leb Z.ltb Z.compare]. f_equal. unfold secondsPerDay. lia.
Qed.

End FixedOffset.

Lemma fixedOffset_no_tx z : fixedOffset (mkLocation z []).
Proof. intros u. reflexivity. Qed.

End TimeFacts.

(** ** Window expansion *)
Module Windows.
Import GoTime GoStrings Os T3rep Scenarios TimeFacts.

Section FixedOffset.
Variable l : Location.
Hypothesis Hfix : fixedOffset l.

(** [makeReport] at the first midnight of a month builds the window of that
    month. *)
Lemma makeReport_window name dir idx :
  makeReport name dir (midnight l idx 1) = window l name dir idx.
Proof.
  pose proof (daysIn_pos (idx / 12) (idx mod 12 + 1)) as Hp.
  destruct (civil_midnight l Hfix idx 1) as [Hd _]; [lia|].
  unfold makeReport, window, monthOfIndex, Year, Month.
  rewrite Hd. cbn [fst snd].
  rewrite (AddDate_midnight l Hfix), (Add_lastSecond l). reflexivity.
Qed.

(** The loop fills the slots [i], [i + 1], ... with the windows of the months
    before the month of [last], one month further back at each slot. *)
Lemma reports_loop_spec tk n : forall i idx reps,
  (i + n <= length reps)%nat ->
  let rs := reports_loop tk n i (midnight l idx 1) reps in
  length rs = length reps
  /\ (forall j, (j < n)%nat ->
        rs !! (i + j)%nat
        = Some (window l (tname tk) (dir tk) (idx - (Z.of_nat j + 1))))
  /\ (forall j, (j < i)%nat -> rs !! j = reps !! j).
Proof.
  induction n as [|n IH]; intros i idx reps Hlen; cbn [reports_loop].
  - split; [reflexivity|]. split; [lia|]. reflexivity.
  - rewrite (AddDate_midnight l Hfix), makeReport_window.
    replace (idx + -1) with (idx - 1) by lia.
    replace (1 + 0) with 1 by lia.
    set (reps' := <[i := window l (tname tk) (dir tk) (idx - 1)]> reps).
    assert (Hlen' : (S i + n <= length reps')%nat)
      by (subst reps'; rewrite length_insert; lia).
    destruct (IH (S i) (idx - 1) reps' Hlen') as (IH1 & IH2 & IH3).
    split; [|split].
    + rewrite IH1. subst reps'. apply length_insert.
    + intros [|j] Hj.
      * rewrite Nat.add_0_r, IH3 by lia. subst reps'.
        rewrite list_lookup_insert_eq by lia. reflexivity.
      * replace (i + S j)%nat with (S i + j)%nat by lia.
        rewrite IH2 by lia. do 2 f_equal. lia.
    + intros j Hj. rewrite IH3 by lia. subst reps'.
      apply list_lookup_insert_ne. lia.
Qed.

End FixedOffset.

(** In a location of fixed offset, [reports] returns the windows of the
    [months] months before the month of [now], the latest first. *)
Lemma reports_windows E tk :
  fixedOffset (Local E) -> 0 <= months tk ->
  exists rs,
    reports E tk = Ret rs
    /\ length rs = Z.to_nat (months tk)
    /\ forall i, (i < Z.to_nat (months tk))%nat ->
         rs !! i
         = Some (window (Local E) (tname tk) (dir tk)
                   (monthIndex (Year (t tk)) (Month (t tk)) - (Z.of_nat i + 1))).
Proof.
  intros Hfix Hm. unfold reports.
  destruct (Z.ltb_spec (months tk) 0) as [?|_]; [lia|].
  rewrite (Date_midnight _ Hfix).
  eexists. split; [reflexivity|].
  destruct (reports_loop_spec _ Hfix tk (Z.to_nat (months tk)) 0
              (monthIndex (Year (t tk)) (Month (t tk)))
              (replicate (Z.to_nat (months tk)) zeroReport)) as (H1 & H2 & _).
  { rewrite length_replicate. lia. }
  split.
  - rewrite H1. apply length_replicate.
  - intros i Hi. exact (H2 i Hi).
Qed.

Lemma window_covers l name dir idx :
  fixedOffset l -> coversMonth (window l name dir idx) idx.
Proof.
  intros Hfix. unfold coversMonth, window, monthOfIndex. cbn [start end_].
  pose proof (daysIn_pos (idx / 12) (idx mod 12 + 1)) as Hp.
  destruct (civil_midnight l Hfix idx 1) as [Hd Hc]; [lia|].
  destruct (civil_lastSecond l Hfix idx) as [Hd' Hc'].
  repeat split; assumption.
Qed.

Lemma window_adjacent l name dir name' dir' idx :
  unixSec (end_ (window l name dir (idx - 1))) + 1
  = unixSec (start (window l name' dir' idx)).
Proof.
  unfold window, monthOfIndex, lastSecond, midnight. cbn [start end_ unixSec].
  replace (idx - 1 + 1) with idx by lia. lia.
Qed.

Lemma pad2_month m : 1 <= m <= 12 -> String.length (pad2 m) = 2%nat.
Proof. intros Hm. split_month m; reflexivity. Qed.

(** In a local zone of fixed offset the expansion is as the specification
    asks: for every now and every monthsBack = N >= 0 it returns exactly N
    reports; report [i] covers exactly the calendar month [i + 1] months
    before the month of now (so every month is strictly before that month,
    the latest first); consecutive windows are adjacent to the second, and
    the first one ends one second before the month of now starts. *)
Lemma window_expansion_fixed_offset E tk :
  fixedOffset (Local E) -> 0 <= months tk ->
  exists rs,
    reports E tk = Ret rs
    /\ length rs = Z.to_nat (months tk)
    /\ (forall (i : nat) r, rs !! i = Some r ->
          coversMonth r (monthIndex (Year (t tk)) (Month (t tk)) - (Z.of_nat i + 1)))
    /\ (forall (i : nat) r r', rs !! i = Some r -> rs !! S i = Some r' ->
          unixSec (end_ r') + 1 = unixSec (start r))
    /\ (forall r, rs !! 0%nat = Some r ->
          unixSec (end_ r) + 1
          = unixSec (Date (Year (t tk)) (Month (t tk)) 1 0 0 0 0 (Local E))).
Proof.
  intros Hfix Hm.
  destruct (reports_windows E tk Hfix Hm) as (rs & Hrs & Hlen & Hnth).
  exists rs. split; [exact Hrs|]. split; [exact Hlen|].
  assert (Hget : forall (i : nat) r, rs !! i = Some r ->
            r = window (Local E) (tname tk) (dir tk)
                  (monthIndex (Year (t tk)) (Month (t tk)) - (Z.of_nat i + 1))).
  { intros i r Hi. pose proof (lookup_lt_Some _ _ _ Hi) as Hlt.
    rewrite Hnth in Hi by lia. congruence. }
  split; [|split].
  - intros i r Hi. rewrite (Hget i r Hi). apply window_covers, Hfix.
  - intros i r r' Hi Hi'. rewrite (Hget i r Hi), (Hget (S i) r' Hi').
    replace (monthIndex (Year (t tk)) (Month (t tk)) - (Z.of_nat (S i) + 1))
      with (monthIndex (Year (t tk)) (Month (t tk)) - (Z.of_nat i + 1) - 1) by lia.
    apply window_adjacent.
  - intros r Hr. rewrite (Hget 0%nat r Hr), (Date_midnight _ Hfix).
    unfold window, monthOfIndex, lastSecond, midnight. cbn [end_ unixSec].
    replace (monthIndex (Year (t tk)) (Month (t tk)) - (Z.of_nat 0 + 1) + 1)
      with (monthIndex (Year (t tk)) (Month (t tk))) by lia.
    lia.
Qed.

(** The expansion returns as many reports as months are asked for, in every
    local zone. *)
Lemma reports_loop_length tk n : forall i last reps,
  length (reports_loop tk n i last reps) = length reps.
Proof.
  induction n as [|n IH]; intros i last reps; cbn [reports_loop]; [reflexivity|].
  rewrite IH. apply length_insert.
Qed.

(** C2, on the code.  The expansion returns N reports in every local zone
    (and panics for a negative N), but [makeReport] takes as the end of a
    window the instant 86399 elapsed seconds after local midnight of the last
    day of the month, which is not the last second of that day when the zone
    changes its offset during it.  Central European time, now in May 2024,
    monthsBack = 2: the window of April is right, the window of March ends at
    00:59:59 on April 1st, and the two overlap by 3600 seconds. *)
Theorem windows_overlap_at_offset_change :
  (forall E tk,
     match reports E tk with
     | Ret rs => 0 <= months tk /\ length rs = Z.to_nat (months tk)
     | Exit _ => False
     | Panic _ => months tk < 0
     end)
  /\ exists apr mar,
       reports (quietEnv europeRome sampleRows) (sampleTask may2024Rome 2)
       = Ret [apr; mar]
       /\ Format (start apr) = "2024-04-01 00:00:00"
       /\ Format (end_ apr) = "2024-04-30 23:59:59"
       /\ Format (start mar) = "2024-03-01 00:00:00"
       /\ Format (end_ mar) = "2024-04-01 00:59:59"
       /\ unixSec (start apr) < unixSec (end_ mar)
       /\ unixSec (end_ mar) + 1 = unixSec (start apr) + 3600.
Proof.
  split.
  - intros E tk. unfold reports. destruct (Z.ltb_spec (months tk) 0); [assumption|].
    split; [assumption|]. rewrite reports_loop_length. apply length_replicate.
  - eexists _, _. split; [vm_compute; reflexivity|].
    repeat split; vm_compute; congruence.
Qed.

(** In a local zone of fixed offset, every report of the expansion starts
    at 00:00:00 on the first day of its month and ends at 23:59:59 on the
    last calendar day of the same month; a now in March 2024 with
    monthsBack = 2 yields February 2024 and then January 2024. *)
Lemma report_window_and_name E tk :
  fixedOffset (Local E) ->
  (forall rs (i : nat) r, reports E tk = Ret rs -> rs !! i = Some r ->
     exists y m,
       1 <= m <= 12
       /\ dateOf (start r) = (y, m, 1) /\ Clock (start r) = (0, 0, 0)
       /\ dateOf (end_ r) = (y, m, daysIn y m) /\ Clock (end_ r) = (23, 59, 59)
       /\ String.length (pad2 m) = 2%nat
       /\ fname r
          = Join (dir tk)
              (tname tk +:+ "-" +:+ pretty y +:+ "-" +:+ pad2 m +:+ ".csv"))
  /\ (Year (t tk) = 2024 -> Month (t tk) = 3 -> months tk = 2 ->
      exists feb jan,
        reports E tk = Ret [feb; jan]
        /\ Format (start feb) = "2024-02-01 00:00:00"
        /\ Format (end_ feb) = "2024-02-29 23:59:59"
        /\ fname feb = Join (dir tk) (tname tk +:+ "-2024-02.csv")
        /\ Format (start jan) = "2024-01-01 00:00:00"
        /\ Format (end_ jan) = "2024-01-31 23:59:59"
        /\ fname jan = Join (dir tk) (tname tk +:+ "-2024-01.csv")).
Proof.
  intros Hfix. split.
  - intros rs i r Hrs Hi.
    assert (Hm : 0 <= months tk).
    { unfold reports in Hrs. destruct (Z.ltb_spec (months tk) 0); [discriminate|lia]. }
    destruct (reports_windows E tk Hfix Hm) as (rs' & Hrs' & Hlen & Hnth).
    assert (rs' = rs) as -> by congruence.
    pose proof (lookup_lt_Some _ _ _ Hi) as Hlt.
    rewrite Hnth in Hi by lia. injection Hi as <-.
    set (idx := monthIndex (Year (t tk)) (Month (t tk)) - (Z.of_nat i + 1)).
    pose proof (window_covers (Local E) (tname tk) (dir tk) idx Hfix) as Hc.
    unfold coversMonth, monthOfIndex in Hc.
    destruct Hc as (H1 & H2 & _ & H3 & H4 & _).
    exists (idx / 12), (idx mod 12 + 1).
    split; [lia|]. repeat (split; [assumption|]).
    split; [apply pad2_month; lia|]. reflexivity.
  - intros Hy Hmo Hn.
    assert (Hm : 0 <= months tk) by lia.
    destruct (reports_windows E tk Hfix Hm) as (rs & Hrs & Hlen & Hnth).
    rewrite Hn in Hlen, Hnth. rewrite Hy, Hmo in Hnth.
    pose proof (Hnth 0%nat ltac:(lia)) as H0.
    pose proof (Hnth 1%nat ltac:(lia)) as H1.
    destruct rs as [|feb [|jan [|? ?]]]; try discriminate.
    cbn in H0, H1. injection H0 as ->. injection H1 as ->.
    eexists _, _. split; [exact Hrs|].
    unfold window, Format. cbn [start end_ fname].
    destruct (civil_midnight _ Hfix (monthIndex 2024 3 - (Z.of_nat 0 + 1)) 1)
      as [-> ->]; [vm_compute; intuition discriminate|].
    destruct (civil_midnight _ Hfix (monthIndex 2024 3 - (Z.of_nat 1 + 1)) 1)
      as [-> ->]; [vm_compute; intuition discriminate|].
    destruct (civil_lastSecond _ Hfix (monthIndex 2024 3 - (Z.of_nat 0 + 1)))
      as [-> ->].
    destruct (civil_lastSecond _ Hfix (monthIndex 2024 3 - (Z.of_nat 1 + 1)))
      as [-> ->].
    repeat split.
Qed.

(** C3, on the code.  The start of a report and the name of its file are as
    the specification says, and so is the end wherever the last day of the
    month has 24 hours: a now of 2024-03-15 with monthsBack = 2 yields
    February 2024 (2024-02-01 00:00:00 to 2024-02-29 23:59:59, in
    out/sys-2024-02.csv) and then January 2024.  But the end is computed as
    86399 elapsed seconds after local midnight of the last day: in Central
    European time the report of March 2024 (31 days), asked for in April
    with monthsBack = 1, starts at 00:00:00 on March 1st and ends at 00:59:59
    on April 1st, not at 23:59:59 on March 31st. *)
Theorem march_window_ends_in_april :
  (exists mar,
     reports (quietEnv europeRome sampleRows) (sampleTask april2024Rome 1)
     = Ret [mar]
     /\ fname mar = "out/sys-2024-03.csv"
     /\ dateOf (start mar) = (2024, 3, 1) /\ Clock (start mar) = (0, 0, 0)
     /\ daysIn 2024 3 = 31
     /\ dateOf (end_ mar) = (2024, 4, 1) /\ Clock (end_ mar) = (0, 59, 59)
     /\ Format (start mar) = "2024-03-01 00:00:00"
     /\ Format (end_ mar) = "2024-04-01 00:59:59")
  /\ (exists feb jan,
        reports (quietEnv UTC sampleRows) (sampleTask march2024 2) = Ret [feb; jan]
        /\ fname feb = "out/sys-2024-02.csv"
        /\ Format (start feb) = "2024-02-01 00:00:00"
        /\ Format (end_ feb) = "2024-02-29 23:59:59"
        /\ fname jan = "out/sys-2024-01.csv"
        /\ Format (start jan) = "2024-01-01 00:00:00"
        /\ Format (end_ jan) = "2024-01-31 23:59:59").
Proof.
  split.
  - eexists. split; [vm_compute; reflexivity|].
    repeat split; vm_compute; congruence.
  - eexists _, _. split; [vm_compute; reflexivity|].
    repeat split; vm_compute; congruence.
Qed.

(** C5, amended.  With monthsBack = 0 the expansion returns the empty
    sequence.  A negative monthsBack is not validated: the expansion does not
    loop, it panics when it allocates the slice of reports. *)
Theorem reports_zero_and_negative E tk :
  (months tk = 0 -> reports E tk = Ret [])
  /\ (months tk < 0 -> reports E tk = Panic "makeslice: len out of range").
Proof.
  unfold reports. split; intros H.
  - rewrite H. reflexivity.
  - destruct (Z.ltb_spec (months tk) 0); [reflexivity|lia].
Qed.

Lemma reports_zero_and_negative_witness :
  reports (quietEnv UTC sampleRows) (sampleTask march2024 0) = Ret []
  /\ reports (quietEnv UTC sampleRows) (sampleTask march2024 (-3))
     = Panic "makeslice: len out of range".
Proof.
  destruct (reports_zero_and_negative
              (quietEnv UTC sampleRows) (sampleTask march2024 0)) as [H0 _].
  destruct (reports_zero_and_negative
              (quietEnv UTC sampleRows) (sampleTask march2024 (-3))) as [_ Hn].
  split; [apply H0; reflexivity | apply Hn; cbn; lia].
Defined.

(** C5 as stated fails at monthsBack = -1: the expansion panics. *)
Lemma reports_negative_panics :
  reports (quietEnv UTC sampleRows) (sampleTask march2024 (-1))
  = Panic "makeslice: len out of range"
  /\ (forall rs,
        reports (quietEnv UTC sampleRows) (sampleTask march2024 (-1)) <> Ret rs).
Proof. split; [reflexivity | intros rs; vm_compute; discriminate]. Qed.

End Windows.

(** ** The CSV formatter *)
Module CsvFacts.
Import GoStrings Csv.

Lemma append_assoc (a b c : string) : (a +:+ b) +:+ c = a +:+ (b +:+ c).
Proof.
  induction a as [|x a IH]; [reflexivity|].
  change (String x ((a +:+ b) +:+ c) = String x (a +:+ (b +:+ c))).
  now f_equal.
Qed.

Lemma append_nil_r (a : string) : a +:+ EmptyString = a.
Proof.
  induction a as [|x a IH]; [reflexivity|].
  change (String x (a +:+ EmptyString) = String x a). now f_equal.
Qed.

(** [strings.Replace] with the arguments of [formatCSV] is the escaping of
    the dialect. *)
Lemma ReplaceByte_escape f :
  ReplaceByte f dquote (String backslash (str dquote)) = escapeField f.
Proof.
  induction f as [|c f IH]; cbn [ReplaceByte escapeField]; [reflexivity|].
  rewrite IH. destruct (Ascii.eqb c dquote); reflexivity.
Qed.

Lemma formatCSV_loop_later fields : forall i buf,
  formatCSV_loop (S i) fields buf = buf +:+ sepJoin fields.
Proof.
  induction fields as [|f rest IH]; intros i buf; cbn [formatCSV_loop sepJoin].
  - now rewrite append_nil_r.
  - rewrite IH, ReplaceByte_escape. change (0 <? S i)%nat with true. cbn iota.
    unfold Fprintf_sep_quoted, quoteField.
    now rewrite !append_assoc.
Qed.

Lemma concat_sepJoin f rest :
  String.concat ";" (map quoteField (f :: rest)) = quoteField f +:+ sepJoin rest.
Proof.
  revert f. induction rest as [|g rest IH]; intros f.
  - cbn. now rewrite append_nil_r.
  - change (String.concat ";" (map quoteField (f :: g :: rest)))
      with (quoteField f +:+ ";" +:+ String.concat ";" (map quoteField (g :: rest))).
    rewrite IH. cbn [sepJoin]. now rewrite !append_assoc.
Qed.

Lemma formatCSV_loop_csv fields :
  formatCSV_loop 0 fields EmptyString = String.concat ";" (map quoteField fields).
Proof.
  destruct fields as [|f rest]; [reflexivity|].
  rewrite concat_sepJoin. cbn [formatCSV_loop].
  rewrite formatCSV_loop_later, ReplaceByte_escape. reflexivity.
Qed.

(** C6.  Whatever the buffer held, [formatCSV] leaves in it and returns one
    line: the fields, each between double quotes, joined by semicolons and
    followed by CR LF.  Inside a field every double quote becomes backslash,
    double quote, and every other byte is copied as it is, semicolons,
    backslashes, CR and LF included.  The field a"b is written "a\"b". *)
Theorem formatCSV_line buf fields :
  formatCSV buf fields = (csvLine fields, csvLine fields)
  /\ csvLine fields
     = String.concat ";"
         (map (fun f => str dquote
                        +:+ ReplaceByte f dquote (String backslash (str dquote))
                        +:+ str dquote) fields)
       +:+ String CR (str LF)
  /\ (forall c f,
        ReplaceByte (String c f) dquote (String backslash (str dquote))
        = (if Ascii.eqb c dquote then String backslash (str dquote) else str c)
          +:+ ReplaceByte f dquote (String backslash (str dquote)))
  /\ ReplaceByte EmptyString dquote (String backslash (str dquote)) = EmptyString
  /\ formatCSV buf [String "a" (String dquote "b")]
     = (let line := String dquote (String "a" (String backslash (String dquote
                      (String "b" (String dquote (String CR (str LF))))))) in
        (line, line))
  /\ formatCSV buf [String ";" (String backslash (String CR (String LF "x"))); "y"]
     = (let line := String dquote (String ";" (String backslash (String CR
                      (String LF (String "x" (String dquote (String ";"
                      (String dquote (String "y" (String dquote
                      (String CR (str LF)))))))))))) in
        (line, line)).
Proof.
  split; [|split; [|split; [|split; [|split]]]].
  - unfold formatCSV, csvLine. now rewrite formatCSV_loop_csv.
  - unfold csvLine. do 2 f_equal. apply map_ext. intros f.
    unfold quoteField. now rewrite ReplaceByte_escape.
  - intros c f. cbn [ReplaceByte]. destruct (Ascii.eqb c dquote); reflexivity.
  - reflexivity.
  - reflexivity.
  - reflexivity.
Qed.

End CsvFacts.

(** ** Report generation and task execution *)
Module GenerateFacts.
Import GoTime GoStrings Csv Os OsNotations Sys T3rep Scenarios.

Lemma bind_Ret {A B} (m : M A) (k : A -> M B) w a w' :
  m w = (Ret a, w') -> bind m k w = k a w'.
Proof. intros H. unfold bind. now rewrite H. Qed.

Lemma bind_Exit {A B} (m : M A) (k : A -> M B) w c w' :
  m w = (Exit c, w') -> bind m k w = (Exit c, w').
Proof. intros H. unfold bind. now rewrite H. Qed.

Lemma bind_Panic {A B} (m : M A) (k : A -> M B) w s w' :
  m w = (Panic s, w') -> bind m k w = (Panic s, w').
Proof. intros H. unfold bind. now rewrite H. Qed.

(** The system calls return: none of them exits or panics. *)
Lemma os_Stat_returns E p w :
  exists err, os_Stat E p w = (Ret err, logged (EvStat p) w).
Proof.
  unfold os_Stat, bind, get, emit, ret, logged. cbn.
  destruct (stat_fault E w p); [eauto|]. destruct (files w !! p); eauto.
Qed.

Lemma exists_returns E rep w :
  exists err,
    os_Stat E (fname rep) w = (Ret err, logged (EvStat (fname rep)) w)
    /\ exists_ E rep w = (Ret (negb (IsNotExist err)), logged (EvStat (fname rep)) w).
Proof.
  destruct (os_Stat_returns E (fname rep) w) as [err H].
  exists err. split; [exact H|]. unfold exists_.
  now rewrite (bind_Ret _ _ _ _ _ H).
Qed.

Lemma atExistenceTest_eq rep w :
  atExistenceTest rep w = logged (EvInfo (fname rep +:+ ": generating report")) w.
Proof. reflexivity. Qed.

Lemma generate_unfold E r rep w :
  generate E r rep w
  = bind (exists_ E rep)
      (fun ex =>
         if ex then info_Printf (String_ rep +:+ ": exists")
         else
           do cr <- os_Create E (fname rep);
           match cr with
           | inl _ => err_Printf (String_ rep +:+ ": cannot create file")
           | inr f =>
               do err <- write E r f rep;
               match err with
               | Some err =>
                   do_ err_Printf (String_ rep +:+ ": cannot generate report: "
                                   +:+ emsg err);
                   do _ignored <- file_Close E f;
                   removePartial E rep
               | None =>
                   do err <- file_Close E f;
                   match err with
                   | Some err =>
                       do_ err_Fatalf (String_ rep +:+ ": cannot close file: "
                                       +:+ emsg err);
                       removePartial E rep
                   | None => ret tt
                   end
               end
           end)
      (atExistenceTest rep w).
Proof. reflexivity. Qed.

(** C7.  When the existence test of [generate] answers that the file of the
    report exists, [generate] logs the skip and returns: the files are as
    they were, and the only events are the two log lines and the [stat]; no
    file is created, no query is issued, nothing is written. *)
Theorem generate_skips_existing E r rep w w1 :
  exists_ E rep (atExistenceTest rep w) = (Ret true, w1) ->
  generate E r rep w = (Ret tt, logged (EvInfo (fname rep +:+ ": exists")) w1)
  /\ files (generate E r rep w).2 = files w
  /\ eventsSince w (generate E r rep w).2
     = [EvInfo (fname rep +:+ ": generating report");
        EvStat (fname rep);
        EvInfo (fname rep +:+ ": exists")].
Proof.
  intros Hex.
  assert (Hgen : generate E r rep w
                 = (Ret tt, logged (EvInfo (fname rep +:+ ": exists")) w1)).
  { rewrite generate_unfold, (bind_Ret _ _ _ _ _ Hex). reflexivity. }
  split; [exact Hgen|]. rewrite Hgen.
  destruct (exists_returns E rep (atExistenceTest rep w)) as (err & _ & Hex').
  rewrite Hex' in Hex. injection Hex as _ <-.
  split; [reflexivity|].
  unfold eventsSince, logged, atExistenceTest. cbn.
  rewrite <- !app_assoc. now rewrite drop_app_length.
Qed.

Lemma generate_skips_existing_witness :
  let w := mkWorld {[ fname februaryReport := "old" ]} [] in
  generate (quietEnv UTC sampleRows) sampleReporter februaryReport w
  = (Ret tt,
     mkWorld {[ fname februaryReport := "old" ]}
       [EvInfo "out/sys-2024-02.csv: generating report";
        EvStat "out/sys-2024-02.csv";
        EvInfo "out/sys-2024-02.csv: exists"]).
Proof.
  intros w.
  destruct (generate_skips_existing (quietEnv UTC sampleRows) sampleReporter
              februaryReport w
              (logged (EvStat (fname februaryReport)) (atExistenceTest februaryReport w)))
    as [H _].
  - vm_compute. reflexivity.
  - rewrite H. vm_compute. reflexivity.
Defined.

(** *** What a computation leaves of the world

    [R] relates the world before to the world after; it is reflexive and
    transitive, so that it composes along a computation. *)
Section Respects.
Variable R : world -> world -> Prop.
Hypothesis R_refl : forall w, R w w.
Hypothesis R_trans : forall w1 w2 w3, R w1 w2 -> R w2 w3 -> R w1 w3.

Lemma respects_ret {A} (a : A) : respects R (ret a).
Proof. intros w. apply R_refl. Qed.

Lemma respects_exit {A} c : respects R (@exit A c).
Proof. intros w. apply R_refl. Qed.

Lemma respects_panic {A} s : respects R (@panic A s).
Proof. intros w. apply R_refl. Qed.

Lemma respects_lift {A} (r : res A) : respects R (lift r).
Proof. intros w. apply R_refl. Qed.

Lemma respects_get : respects R get.
Proof. intros w. apply R_refl. Qed.

Lemma respects_bind {A B} (m : M A) (k : A -> M B) :
  respects R m -> (forall a, respects R (k a)) -> respects R (bind m k).
Proof.
  intros Hm Hk w. unfold bind. specialize (Hm w).
  destruct (m w) as [[a | c | msg] w']; cbn in *; [|assumption|assumption].
  eapply R_trans; [exact Hm | apply Hk].
Qed.

Lemma respects_defer {A} (d : M unit) (body : M A) :
  respects R d -> respects R body -> respects R (defer d body).
Proof.
  intros Hd Hb w. unfold defer. specialize (Hb w).
  destruct (body w) as [[a | c | msg] w']; cbn in *; [|assumption|].
  - eapply R_trans; [exact Hb|].
    apply (respects_bind d (fun _ => ret a)); [exact Hd|].
    intros _. apply respects_ret.
  - eapply R_trans; [exact Hb|].
    apply (respects_bind d (fun _ => panic msg)); [exact Hd|].
    intros _. apply respects_panic.
Qed.

End Respects.

(** One step through a computation built from [bind], [defer] and case
    distinctions, for a relation with lemmas [Hrefl] and [Htrans]. *)
Ltac respects_step Hrefl Htrans :=
  first
    [ apply respects_ret; exact Hrefl
    | apply respects_exit; exact Hrefl
    | apply respects_panic; exact Hrefl
    | apply respects_lift; exact Hrefl
    | apply respects_get; exact Hrefl
    | apply respects_bind; [exact Htrans | | intros ?]
    | apply respects_defer; [exact Hrefl | exact Htrans | | ]
    | match goal with
      | |- respects _ (match ?x with _ => _ end) => destruct x
      | |- respects _ (if ?b then _ else _) => destruct b
      | |- respects _ (let '(_, _) := ?x in _) => destruct x
      end ].

(** *** Events only accumulate, and a computation adds events of its kind *)
Lemma adds_refl P w : adds P w w.
Proof. exists []. split; [now rewrite app_nil_r | constructor]. Qed.

Lemma adds_trans P w1 w2 w3 : adds P w1 w2 -> adds P w2 w3 -> adds P w1 w3.
Proof.
  intros (l1 & H1 & F1) (l2 & H2 & F2). exists (l1 ++ l2). split.
  - now rewrite H2, H1, app_assoc.
  - now apply Forall_app.
Qed.

Lemma adds_emit P e : P e -> respects (adds P) (emit e).
Proof. intros He w. exists [e]. split; [reflexivity | now repeat constructor]. Qed.

Lemma adds_setFiles P fs : respects (adds P) (setFiles fs).
Proof. intros w. exists []. split; [cbn; now rewrite app_nil_r | constructor]. Qed.

Lemma adds_weaken (P Q : event -> Prop) w w' :
  (forall e, P e -> Q e) -> adds P w w' -> adds Q w w'.
Proof.
  intros HPQ (l & H & F). exists l. split; [exact H|].
  eapply Forall_impl; eauto.
Qed.

Lemma adds_eventsSince P w w' : adds P w w' -> Forall P (eventsSince w w').
Proof.
  intros (l & H & F). unfold eventsSince. rewrite H.
  now rewrite drop_app_length.
Qed.

(** *** The reporter's [write], for any such relation *)
Section WriteRespects.
Variable R : world -> world -> Prop.
Hypothesis R_refl : forall w, R w w.
Hypothesis R_trans : forall w1 w2 w3, R w1 w2 -> R w2 w3 -> R w1 w3.
Variable E : env.
Hypothesis Hquery : forall db q a b, respects R (db_Query E db q a b).
Hypothesis Hwrite : forall f data, respects R (file_Write E f data).

Lemma extract_loop_respects f rs : forall assoc buf,
  respects R (extract_loop E f rs assoc buf).
Proof.
  induction rs as [|r rs IH]; intros assoc buf; cbn [extract_loop].
  - apply respects_ret, R_refl.
  - destruct (Scan r assoc) as [err | assoc']; [apply respects_ret, R_refl|].
    destruct (formatCSV buf assoc') as [buf' line].
    apply respects_bind; [exact R_trans | apply Hwrite |].
    intros [err|]; [apply respects_ret, R_refl | apply IH].
Qed.

Lemma write_respects r f rep : respects R (write E r f rep).
Proof.
  unfold write, rows.
  apply respects_bind; [exact R_trans | apply Hquery |].
  intros [err | rs]; [apply respects_ret, R_refl|].
  unfold extract. destruct (nassoc r <? 0).
  - apply respects_panic, R_refl.
  - apply extract_loop_respects.
Qed.

End WriteRespects.

(** *** Which events the parts of the program add *)
Section Adds.
Variable P : event -> Prop.
Variable E : env.

Ltac adds_auto :=
  repeat first
    [ respects_step (adds_refl P) (adds_trans P)
    | apply adds_setFiles
    | apply adds_emit; assumption ].

Lemma adds_os_Stat p : P (EvStat p) -> respects (adds P) (os_Stat E p).
Proof. intros H. unfold os_Stat. adds_auto. Qed.

Lemma adds_os_Create p : P (EvCreate p) -> respects (adds P) (os_Create E p).
Proof. intros H. unfold os_Create. adds_auto. Qed.

Lemma adds_file_Write f data :
  P (EvWrite f data) -> respects (adds P) (file_Write E f data).
Proof. intros H. unfold file_Write. adds_auto. Qed.

Lemma adds_file_Close f : P (EvClose f) -> respects (adds P) (file_Close E f).
Proof. intros H. unfold file_Close. adds_auto. Qed.

Lemma adds_os_Remove p : P (EvRemove p) -> respects (adds P) (os_Remove E p).
Proof. intros H. unfold os_Remove. adds_auto. Qed.

Lemma adds_sql_Open d : P (EvOpenDB d) -> respects (adds P) (sql_Open E d).
Proof. intros H. unfold sql_Open. adds_auto. Qed.

Lemma adds_db_Query d q a b :
  P (EvQuery d q a b) -> respects (adds P) (db_Query E d q a b).
Proof. intros H. unfold db_Query. adds_auto. Qed.

(** [write] adds queries and writes only. *)
Lemma adds_write r f rep :
  (forall d q a b, P (EvQuery d q a b)) ->
  (forall g data, P (EvWrite g data)) ->
  respects (adds P) (write E r f rep).
Proof.
  intros Hq Hw. apply write_respects.
  - apply adds_refl.
  - apply adds_trans.
  - intros. apply adds_db_Query, Hq.
  - intros. apply adds_file_Write, Hw.
Qed.

End Adds.

(** Whatever the program does, the events already there stay. *)
Section Grows.
Variable E : env.
Let any : event -> Prop := fun _ => True.

Ltac grows_auto :=
  repeat first
    [ apply adds_setFiles
    | apply adds_emit; exact I
    | apply adds_os_Stat; exact I
    | apply adds_os_Create; exact I
    | apply adds_file_Close; exact I
    | apply adds_os_Remove; exact I
    | apply adds_sql_Open; exact I
    | apply adds_write; intros; exact I
    | respects_step (adds_refl any) (adds_trans any) ].

Lemma grows_generate r rep : respects (adds any) (generate E r rep).
Proof.
  unfold generate, exists_, removePartial, info_Printf, err_Printf, err_Fatalf.
  grows_auto.
Qed.

Lemma grows_generate_all r reps : respects (adds any) (generate_all E r reps).
Proof.
  induction reps as [|rep reps IH]; cbn [generate_all].
  - apply respects_ret, adds_refl.
  - apply respects_bind;
      [apply adds_trans | apply grows_generate | intros _; exact IH].
Qed.

Lemma grows_exec tk : respects (adds any) (exec E tk).
Proof.
  unfold exec, db_Close. pose proof grows_generate_all as Hall.
  grows_auto. apply Hall.
Qed.

Lemma grows_work tk : respects (adds any) (work E tk).
Proof.
  unfold work. pose proof grows_exec as Hex.
  apply respects_bind; [apply adds_trans | apply Hex |].
  intros [e|]; apply respects_ret, adds_refl.
Qed.

End Grows.

Lemma respects_run {A} R (m : M A) w r w' :
  respects R m -> m w = (r, w') -> R w w'.
Proof. intros Hm H. specialize (Hm w). now rewrite H in Hm. Qed.

(** *** [write] does not lose the file it writes to *)
Lemma keeps_refl f w : keeps f w w.
Proof. intros H. exact H. Qed.

Lemma keeps_trans f w1 w2 w3 : keeps f w1 w2 -> keeps f w2 w3 -> keeps f w1 w3.
Proof. unfold keeps. auto. Qed.

Lemma keeps_write E r f g rep : respects (keeps f) (write E r g rep).
Proof.
  apply write_respects.
  - apply keeps_refl.
  - apply keeps_trans.
  - intros d q a b w. unfold keeps, db_Query, bind, get, emit, ret. cbn. auto.
  - intros h data w. unfold keeps, file_Write, bind, get, emit, ret, setFiles. cbn.
    destruct (write_fault E w h data); cbn; [auto|].
    intros Hin. destruct (decide (h = f)) as [->|Hne].
    + rewrite lookup_insert_eq. eauto.
    + now rewrite lookup_insert_ne.
Qed.

Lemma os_Create_inr E p w f w' :
  os_Create E p w = (Ret (inr f), w') ->
  f = p /\ w' = mkWorld (<[p := ""]> (files w)) (trace w ++ [EvCreate p]).
Proof.
  unfold os_Create, bind, get, emit, ret, setFiles. cbn.
  destruct (create_fault E w p); cbn; intros H; [discriminate|].
  injection H as <- <-. split; reflexivity.
Qed.

Lemma file_Close_eq E f w :
  file_Close E f w = (Ret (close_fault E w f), logged (EvClose f) w).
Proof. reflexivity. Qed.

(** C10.  When the file of the report did not exist, was created and written
    without error, and the final close fails, [generate] logs the failure
    with [Fatalf] and the process exits with status 1.  Whatever follows
    [Fatalf] does not run: the file stays as it was written, and no removal
    of it is among the events of the call. *)
Theorem close_failure_is_fatal E r rep w w1 f w2 w3 e w4 :
  exists_ E rep (atExistenceTest rep w) = (Ret false, w1) ->
  os_Create E (fname rep) w1 = (Ret (inr f), w2) ->
  write E r f rep w2 = (Ret None, w3) ->
  file_Close E f w3 = (Ret (Some e), w4) ->
  generate E r rep w
  = (Exit 1,
     logged (EvError (fname rep +:+ ": cannot close file: " +:+ emsg e)) w4)
  /\ files (generate E r rep w).2 = files w3
  /\ is_Some (files (generate E r rep w).2 !! fname rep)
  /\ (EvRemove (fname rep) ∉ eventsSince w (generate E r rep w).2)
  /\ (forall (k : unit -> M unit) msg w',
        bind (err_Fatalf msg) k w' = (Exit 1, logged (EvError msg) w')).
Proof.
  intros Hex Hcr Hwr Hcl.
  assert (Hgen : generate E r rep w
                 = (Exit 1,
                    logged (EvError (fname rep +:+ ": cannot close file: " +:+ emsg e)) w4)).
  { rewrite generate_unfold, (bind_Ret _ _ _ _ _ Hex). cbn iota.
    rewrite (bind_Ret _ _ _ _ _ Hcr). cbn iota.
    rewrite (bind_Ret _ _ _ _ _ Hwr). cbn iota.
    rewrite (bind_Ret _ _ _ _ _ Hcl). cbn iota.
    reflexivity. }
  split; [exact Hgen|]. rewrite Hgen. cbn [snd].
  destruct (os_Create_inr _ _ _ _ _ Hcr) as [-> Hw2].
  rewrite file_Close_eq in Hcl. injection Hcl as Hf <-.
  split; [reflexivity|]. split; [|split].
  - cbn [logged files].
    apply (respects_run _ _ _ _ _ (keeps_write E r (fname rep) (fname rep) rep) Hwr).
    rewrite Hw2. cbn. rewrite lookup_insert_eq. eauto.
  - set (P := fun ev => ev <> EvRemove (fname rep)).
    assert (HP : forall ev, match ev with EvRemove _ => False | _ => True end -> P ev).
    { intros [] Hev; try contradiction; subst P; cbn; discriminate. }
    assert (H0 : adds P w (atExistenceTest rep w)).
    { apply (adds_emit P (EvInfo (fname rep +:+ ": generating report"))), HP, I. }
    assert (H1 : adds P (atExistenceTest rep w) w1).
    { eapply respects_run; [|exact Hex]. unfold exists_.
      apply respects_bind; [apply adds_trans| |intros ?; apply respects_ret, adds_refl].
      apply adds_os_Stat, HP, I. }
    assert (H2 : adds P w1 w2).
    { eapply respects_run; [|exact Hcr]. apply adds_os_Create, HP, I. }
    assert (H3 : adds P w2 w3).
    { eapply respects_run; [|exact Hwr].
      apply adds_write; intros; apply HP, I. }
    assert (H4 : adds P w3 (logged (EvClose (fname rep)) w3)).
    { apply (adds_emit P (EvClose (fname rep))), HP, I. }
    assert (H5 : adds P (logged (EvClose (fname rep)) w3)
                   (logged (EvError (fname rep +:+ ": cannot close file: " +:+ emsg e))
                      (logged (EvClose (fname rep)) w3))).
    { apply (adds_emit P (EvError _)), HP, I. }
    pose proof (adds_trans _ _ _ _ H0
                  (adds_trans _ _ _ _ H1
                     (adds_trans _ _ _ _ H2
                        (adds_trans _ _ _ _ H3 (adds_trans _ _ _ _ H4 H5))))) as Hadds.
    apply adds_eventsSince in Hadds.
    rewrite Forall_forall in Hadds. intros Hin.
    exact (Hadds _ Hin eq_refl).
  - intros k msg w'. reflexivity.
Qed.

Lemma close_failure_is_fatal_witness :
  exists w',
    generate (closeFailsEnv UTC sampleRows) sampleReporter februaryReport emptyWorld
    = (Exit 1, w')
    /\ files w' !! "out/sys-2024-02.csv" = Some (csvLine ["a"; "b"] +:+ csvLine ["c"; "d"])
    /\ (EvRemove "out/sys-2024-02.csv" ∉ trace w').
Proof.
  pose (E := closeFailsEnv UTC sampleRows).
  pose (w0 := atExistenceTest februaryReport emptyWorld).
  pose (w1 := (exists_ E februaryReport w0).2).
  pose (w2 := (os_Create E (fname februaryReport) w1).2).
  pose (w3 := (write E sampleReporter (fname februaryReport) februaryReport w2).2).
  pose (w4 := (file_Close E (fname februaryReport) w3).2).
  destruct (close_failure_is_fatal E sampleReporter februaryReport emptyWorld
              w1 (fname februaryReport) w2 w3
              (EIO "close" (fname februaryReport)) w4)
    as (Hgen & Hfiles & _ & Hrem & _).
  - vm_compute. reflexivity.
  - vm_compute. reflexivity.
  - vm_compute. reflexivity.
  - vm_compute. reflexivity.
  - eexists. split; [exact Hgen|]. split.
    + vm_compute. reflexivity.
    + rewrite Hgen in Hrem. exact Hrem.
Defined.

(** C4, amended.  The existence test stats the path of the report and
    answers that it exists unless [stat] fails with not-found: after a
    successful [stat], and after any other failure of [stat] such as a
    permission error, [generate] logs the skip and returns without creating
    the file; only after not-found does it go on to the create step. *)
Theorem exists_unless_not_found E r rep w :
  exists err w1,
    os_Stat E (fname rep) (atExistenceTest rep w) = (Ret err, w1)
    /\ exists_ E rep (atExistenceTest rep w) = (Ret (negb (IsNotExist err)), w1)
    /\ if IsNotExist err
       then take 3 (eventsSince w (generate E r rep w).2)
            = [EvInfo (fname rep +:+ ": generating report");
               EvStat (fname rep);
               EvCreate (fname rep)]
       else generate E r rep w
            = (Ret tt, logged (EvInfo (fname rep +:+ ": exists")) w1)
            /\ files w1 = files w.
Proof.
  destruct (exists_returns E rep (atExistenceTest rep w)) as (err & Hst & Hex).
  exists err, (logged (EvStat (fname rep)) (atExistenceTest rep w)).
  split; [exact Hst|]. split; [exact Hex|].
  destruct (IsNotExist err) eqn:Hne; cbn [negb] in Hex.
  - rewrite generate_unfold, (bind_Ret _ _ _ _ _ Hex). cbn iota.
    set (w1 := logged (EvStat (fname rep)) (atExistenceTest rep w)).
    set (any := fun _ : event => True).
    assert (Hrest : forall cr : error + string,
              respects (adds any)
                (match cr with
                 | inl _ => err_Printf (String_ rep +:+ ": cannot create file")
                 | inr f =>
                     do err <- write E r f rep;
                     match err with
                     | Some err =>
                         do_ err_Printf (String_ rep +:+ ": cannot generate report: "
                                         +:+ emsg err);
                         do _ignored <- file_Close E f;
                         removePartial E rep
                     | None =>
                         do err <- file_Close E f;
                         match err with
                         | Some err =>
                             do_ err_Fatalf (String_ rep +:+ ": cannot close file: "
                                             +:+ emsg err);
                             removePartial E rep
                         | None => ret tt
                         end
                     end
                 end)).
    { intros cr. unfold removePartial, err_Printf, err_Fatalf.
      repeat first
        [ apply adds_emit; exact I
        | apply adds_file_Close; exact I
        | apply adds_os_Remove; exact I
        | apply adds_write; intros; exact I
        | respects_step (adds_refl any) (adds_trans any) ]. }
    unfold bind at 1.
    assert (Hcr : exists cr,
              os_Create E (fname rep) w1
              = (Ret cr, mkWorld (files (os_Create E (fname rep) w1).2)
                           (trace w1 ++ [EvCreate (fname rep)]))).
    { unfold os_Create, bind, get, emit, ret, setFiles. cbn.
      destruct (create_fault E _ (fname rep)); cbn; eauto. }
    destruct Hcr as (cr & Hcr). rewrite Hcr. cbn iota.
    destruct (Hrest cr (mkWorld (files (os_Create E (fname rep) w1).2)
                          (trace w1 ++ [EvCreate (fname rep)])))
      as (l & Hl & _).
    unfold eventsSince. rewrite Hl. cbn [trace].
    subst w1. unfold logged, atExistenceTest. cbn.
    rewrite <- !app_assoc. rewrite drop_app_length. reflexivity.
  - split; [|reflexivity].
    rewrite generate_unfold, (bind_Ret _ _ _ _ _ Hex). reflexivity.
Qed.

(** C4 as stated fails when [stat] is denied: the file is absent, yet the
    report counts as existing and is skipped; nothing is created. *)
Lemma stat_error_skips_report :
  files emptyWorld !! fname februaryReport = None
  /\ generate (statDeniedEnv UTC sampleRows) sampleReporter februaryReport emptyWorld
     = (Ret tt,
        mkWorld ∅
          [EvInfo "out/sys-2024-02.csv: generating report";
           EvStat "out/sys-2024-02.csv";
           EvInfo "out/sys-2024-02.csv: exists"])
  /\ exists_ (statDeniedEnv UTC sampleRows) februaryReport emptyWorld
     = (Ret true, mkWorld ∅ [EvStat "out/sys-2024-02.csv"]).
Proof. repeat split; vm_compute; reflexivity. Qed.

(** *** Computations that return *)
Lemma returnsWith_ret {A} (Q : A -> Prop) a : Q a -> returnsWith Q (ret a).
Proof. intros H w. exists a, w. split; [reflexivity | exact H]. Qed.

Lemma returnsWith_bind {A B} (Q : A -> Prop) (Q' : B -> Prop) (m : M A) k :
  returnsWith Q m -> (forall a, Q a -> returnsWith Q' (k a)) ->
  returnsWith Q' (bind m k).
Proof.
  intros Hm Hk w. destruct (Hm w) as (a & w' & H & HQ).
  rewrite (bind_Ret _ _ _ _ _ H). apply Hk, HQ.
Qed.

Lemma returnsWith_weaken {A} (Q Q' : A -> Prop) m :
  (forall a, Q a -> Q' a) -> returnsWith Q m -> returnsWith Q' m.
Proof.
  intros HQ Hm w. destruct (Hm w) as (a & w' & H & Ha). eauto.
Qed.

Section Returns.
Variable E : env.

Lemma emit_returns e : returnsWith anything (emit e).
Proof. intros w. eexists _, _. split; [reflexivity | exact I]. Qed.

Lemma os_Stat_returnsWith p : returnsWith anything (os_Stat E p).
Proof.
  intros w. destruct (os_Stat_returns E p w) as [err H].
  exists err, (logged (EvStat p) w). split; [exact H | exact I].
Qed.

Lemma os_Create_returns p : returnsWith anything (os_Create E p).
Proof.
  intros w. unfold os_Create, bind, get, emit, ret, setFiles. cbn.
  destruct (create_fault E w p); cbn; eexists _, _; (split; [reflexivity | exact I]).
Qed.

Lemma file_Write_returns f data : returnsWith anything (file_Write E f data).
Proof.
  intros w. unfold file_Write, bind, get, emit, ret, setFiles. cbn.
  destruct (write_fault E w f data); cbn; eexists _, _; (split; [reflexivity | exact I]).
Qed.

Lemma os_Remove_returns p : returnsWith anything (os_Remove E p).
Proof.
  intros w. unfold os_Remove, bind, get, emit, ret, setFiles. cbn.
  destruct (remove_fault E w p); cbn; [eexists _, _; (split; [reflexivity | exact I])|].
  destruct (files w !! p); cbn; eexists _, _; (split; [reflexivity | exact I]).
Qed.

Lemma db_Query_returns d q a b : returnsWith anything (db_Query E d q a b).
Proof. intros w. eexists _, _. split; [reflexivity | exact I]. Qed.

Lemma file_Close_returns f : returnsWith anything (file_Close E f).
Proof. intros w. eexists _, _. split; [reflexivity | exact I]. Qed.

(** Where closing never fails, [file_Close] returns [nil]. *)
Lemma file_Close_nil f :
  (forall w g, close_fault E w g = None) ->
  returnsWith (fun err => err = None) (file_Close E f).
Proof.
  intros Hc w. rewrite file_Close_eq, Hc. eexists _, _. split; reflexivity.
Qed.

Lemma extract_loop_returns f rs : forall assoc buf,
  returnsWith anything (extract_loop E f rs assoc buf).
Proof.
  induction rs as [|r rs IH]; intros assoc buf; cbn [extract_loop].
  - now apply returnsWith_ret.
  - destruct (Scan r assoc) as [err | assoc']; [now apply returnsWith_ret|].
    destruct (formatCSV buf assoc') as [buf' line].
    eapply returnsWith_bind; [apply file_Write_returns|].
    intros [err|] _; [now apply returnsWith_ret | apply IH].
Qed.

Lemma write_returns r f rep :
  0 <= nassoc r -> returnsWith anything (write E r f rep).
Proof.
  intros Hn. unfold write, rows.
  eapply returnsWith_bind; [apply db_Query_returns|].
  intros [err | rs] _; [now apply returnsWith_ret|].
  unfold extract. destruct (Z.ltb_spec (nassoc r) 0); [lia|].
  apply extract_loop_returns.
Qed.

Lemma removePartial_returns rep : returnsWith anything (removePartial E rep).
Proof.
  unfold removePartial.
  eapply returnsWith_bind; [apply os_Remove_returns|].
  intros [err|] _; [apply emit_returns | now apply returnsWith_ret].
Qed.

(** With a column count that is not negative, [generate] returns unless the
    final close of its file fails: the close after a write that succeeded. *)
Lemma generate_returns r rep :
  0 <= nassoc r ->
  (forall w2 w3,
     write E r (fname rep) rep w2 = (Ret None, w3) ->
     close_fault E w3 (fname rep) = None) ->
  returnsWith anything (generate E r rep).
Proof.
  intros Hn Hc w. rewrite generate_unfold.
  destruct (exists_returns E rep (atExistenceTest rep w)) as (err & _ & Hex).
  rewrite (bind_Ret _ _ _ _ _ Hex).
  destruct (negb (IsNotExist err)); [apply emit_returns|].
  destruct (os_Create_returns (fname rep)
              (logged (EvStat (fname rep)) (atExistenceTest rep w)))
    as (cr & w2 & Hcr & _).
  rewrite (bind_Ret _ _ _ _ _ Hcr). destruct cr as [e | f]; [apply emit_returns|].
  destruct (os_Create_inr _ _ _ _ _ Hcr) as [-> _].
  destruct (write_returns r (fname rep) rep Hn w2) as (res & w3 & Hwr & _).
  rewrite (bind_Ret _ _ _ _ _ Hwr). destruct res as [e|].
  - revert w3 Hwr. intros w3 _.
    apply (returnsWith_bind anything); [apply emit_returns|]. intros _ _.
    apply (returnsWith_bind anything); [apply file_Close_returns|]. intros _ _.
    apply removePartial_returns.
  - rewrite (bind_Ret _ _ _ _ _ (file_Close_eq E (fname rep) w3)), (Hc w2 w3 Hwr).
    eexists _, _. split; [reflexivity | exact I].
Qed.

Lemma generate_all_returns r reps :
  0 <= nassoc r ->
  (forall rep w2 w3, rep ∈ reps ->
     write E r (fname rep) rep w2 = (Ret None, w3) ->
     close_fault E w3 (fname rep) = None) ->
  returnsWith anything (generate_all E r reps).
Proof.
  intros Hn. induction reps as [|rep reps IH]; intros Hc; cbn [generate_all].
  - now apply returnsWith_ret.
  - eapply returnsWith_bind.
    + apply (generate_returns r rep Hn). intros w2 w3. apply Hc. now left.
    + intros _ _. apply IH. intros rep' w2 w3 Hin. apply Hc. now right.
Qed.

(** An opened task that returns, returns [nil]; otherwise the process exits
    or panics. *)
Lemma exec_opened tk w db w1 :
  sql_Open E (dsn tk) w = (Ret (inr db), w1) ->
  exists w',
    exec E tk w = (Ret None, w')
    \/ (exists c, exec E tk w = (Exit c, w'))
    \/ (exists msg, exec E tk w = (Panic msg, w')).
Proof.
  intros Hop. unfold exec. rewrite (bind_Ret _ _ _ _ _ Hop). cbn iota.
  unfold defer.
  match goal with
  | |- context [match ?body w1 with _ => _ end] => set (b := body)
  end.
  assert (Hb : forall a w', b w1 = (Ret a, w') -> a = None).
  { subst b. intros a w'. unfold lift, bind at 1.
    destruct (reports E tk) as [reps | c | msg]; [|discriminate|discriminate].
    unfold bind.
    destruct (generate_all E _ reps w1) as [[[] | c | msg] w2];
      cbn; intros H; [|discriminate|discriminate].
    now injection H as <- _. }
  destruct (b w1) as [[a | c | msg] w'] eqn:Hbw.
  - rewrite (Hb a w' eq_refl). eexists. left. reflexivity.
  - eexists. right; left. eauto.
  - eexists. right; right. exists msg. reflexivity.
Qed.

(** A task whose connection opens returns [nil] when its counts are not
    negative and the final close of none of its reports fails. *)
Lemma exec_returns_nil tk w db w1 :
  sql_Open E (dsn tk) w = (Ret (inr db), w1) ->
  0 <= months tk -> 0 <= fields tk ->
  (forall reps rep w2 w3,
     reports E tk = Ret reps -> rep ∈ reps ->
     write E (newReporter db (tquery tk) (fields tk)) (fname rep) rep w2
     = (Ret None, w3) ->
     close_fault E w3 (fname rep) = None) ->
  exists w', exec E tk w = (Ret None, w').
Proof.
  intros Hop Hm Hf Hc. unfold exec. rewrite (bind_Ret _ _ _ _ _ Hop). cbn iota.
  unfold defer, lift, bind at 1.
  assert (Hr : exists reps, reports E tk = Ret reps).
  { unfold reports. destruct (Z.ltb_spec (months tk) 0); [lia | eauto]. }
  destruct Hr as [reps Hreps]. rewrite Hreps.
  destruct (generate_all_returns (newReporter db (tquery tk) (fields tk)) reps
              Hf (fun rep w2 w3 => Hc reps rep w2 w3 Hreps) w1) as ([] & w2 & Hg & _).
  rewrite (bind_Ret _ _ _ _ _ Hg). cbn. eauto.
Qed.

(** The task of a system whose connection opens returns. *)
Lemma work_opened tk w db w1 :
  sql_Open E (dsn tk) w = (Ret (inr db), w1) ->
  exists w',
    work E tk w = (Ret None, w')
    \/ (exists c, work E tk w = (Exit c, w'))
    \/ (exists msg, work E tk w = (Panic msg, w')).
Proof.
  intros Hop. destruct (exec_opened tk w db w1 Hop) as (w' & [H | [[c H] | [msg H]]]);
    exists w'; unfold work, bind; rewrite H; eauto.
Qed.

(** An error returned by [work] is the failure to open the connection. *)
Lemma work_error tk w e w' :
  work E tk w = (Ret (Some e), w') ->
  exists e0,
    open_fault E w (dsn tk) = Some e0
    /\ e = Errorf "creating report: "
             (Errorf (tname tk +:+ ": cannot connect to database: ") e0).
Proof.
  intros Hw.
  destruct (open_fault E w (dsn tk)) as [e0|] eqn:Hof.
  - exists e0. split; [reflexivity|].
    unfold work, exec, sql_Open, bind, get, emit, ret in Hw. cbn in Hw.
    rewrite Hof in Hw. cbn in Hw. now injection Hw as <- _.
  - exfalso.
    assert (Hop : sql_Open E (dsn tk) w
                  = (Ret (inr (dsn tk)), logged (EvOpenDB (dsn tk)) w)).
    { unfold sql_Open, bind, get, emit, ret. cbn. now rewrite Hof. }
    destruct (work_opened tk w _ _ Hop) as (w2 & [H | [[c H] | [msg H]]]);
      rewrite H in Hw; discriminate.
Qed.

End Returns.

(** A task whose connection opens never returns an error, however many of
    its reports fail to be created or generated: those failures are only
    logged.  With counts of months and columns that are not negative it
    returns [nil] unless the final close of one of its reports fails.  An
    error that [work] hands to the dispatcher is therefore always the failure
    to open the connection. *)
Lemma exec_error_is_open_failure E tk w :
  (forall db w1,
     sql_Open E (dsn tk) w = (Ret (inr db), w1) ->
     (forall e w', exec E tk w <> (Ret (Some e), w'))
     /\ (forall e w', work E tk w <> (Ret (Some e), w'))
     /\ (0 <= months tk -> 0 <= fields tk ->
         (forall reps rep w2 w3,
            reports E tk = Ret reps -> rep ∈ reps ->
            write E (newReporter db (tquery tk) (fields tk)) (fname rep) rep w2
            = (Ret None, w3) ->
            close_fault E w3 (fname rep) = None) ->
         exists w', exec E tk w = (Ret None, w')))
  /\ (forall e w',
        work E tk w = (Ret (Some e), w') ->
        exists e0,
          open_fault E w (dsn tk) = Some e0
          /\ e = Errorf "creating report: "
                   (Errorf (tname tk +:+ ": cannot connect to database: ") e0)).
Proof.
  split.
  - intros db w1 Hop. split; [|split].
    + intros e w' H.
      destruct (exec_opened E tk w db w1 Hop) as (w2 & [H' | [[c H'] | [msg H']]]);
        rewrite H' in H; discriminate.
    + intros e w' H.
      destruct (work_opened E tk w db w1 Hop) as (w2 & [H' | [[c H'] | [msg H']]]);
        rewrite H' in H; discriminate.
    + intros Hm Hf Hc. exact (exec_returns_nil E tk w db w1 Hop Hm Hf Hc).
  - intros e w'. apply work_error.
Qed.

(** C9, on the code.  A task whose connection opens returns [nil] when a
    report fails to be generated, as the specification says: when a row
    cannot be scanned the failure is logged, the partial file is removed and
    the task goes on to its next report.  But when the final close of a
    report fails, [generate] logs with [Fatalf]: the task does not return
    [nil], the process exits with status 1 inside the first report, and the
    second report is never attempted. *)
Theorem exec_exits_on_close_failure :
  sql_Open (closeFailsEnv UTC sampleRows) (dsn (sampleTask march2024 2)) emptyWorld
  = (Ret (inr "user@/db"), logged (EvOpenDB "user@/db") emptyWorld)
  /\ (exists w',
        exec (closeFailsEnv UTC sampleRows) (sampleTask march2024 2) emptyWorld
        = (Exit 1, w')
        /\ last (trace w')
           = Some (EvError "out/sys-2024-02.csv: cannot close file: close out/sys-2024-02.csv: input/output error")
        /\ (EvStat "out/sys-2024-01.csv" ∉ trace w'))
  /\ (forall w',
        exec (closeFailsEnv UTC sampleRows) (sampleTask march2024 2) emptyWorld
        <> (Ret None, w'))
  /\ (exists w',
        exec (quietEnv UTC [[Some "a"; None]]) (sampleTask march2024 2) emptyWorld
        = (Ret None, w')
        /\ files w' = ∅
        /\ (EvStat "out/sys-2024-01.csv" ∈ trace w')).
Proof.
  split; [reflexivity|]. split; [|split].
  - eexists. split; [vm_compute; reflexivity|].
    split; [vm_compute; reflexivity|].
    apply (bool_decide_unpack _). vm_compute. exact I.
  - intros w'. vm_compute. discriminate.
  - eexists. split; [vm_compute; reflexivity|].
    split; [vm_compute; reflexivity|].
    apply (bool_decide_unpack _). vm_compute. exact I.
Qed.

End GenerateFacts.

(** ** The dispatcher *)
Module DispatchFacts.
Import GoTime Os Sys T3rep Scenarios Dispatch GenerateFacts.

(** *** Lists of workers *)
Lemma sum_alter (g : worker -> nat) (h : worker -> worker) (ws : list worker) :
  forall (k : nat) w,
  ws !! k = Some w ->
  (sum_list_with g (alter h k ws) + g w = sum_list_with g ws + g (h w))%nat.
Proof.
  induction ws as [|x ws IH]; intros [|k] w Hk; try discriminate; cbn in *.
  - injection Hk as ->. lia.
  - specialize (IH k w Hk). cbn in IH. lia.
Qed.

Lemma ident_alter (h : worker -> worker) (k : nat) (ws : list worker) :
  (forall w, ident (h w) = ident w) ->
  ident <$> alter h k ws = ident <$> ws.
Proof.
  intros Hh. revert k. induction ws as [|w ws IH]; intros [|k]; cbn;
    [reflexivity | reflexivity | now rewrite Hh | now rewrite IH].
Qed.

Lemma count_le f (ws : list worker) : (count f ws <= length ws)%nat.
Proof.
  unfold count. induction ws as [|w ws IH]; cbn; [lia|].
  destruct (f w); lia.
Qed.

(** Fewer than all satisfy [f]: one does not. *)
Lemma count_lt_exists f (ws : list worker) :
  (count f ws < length ws)%nat -> exists k w, ws !! k = Some w /\ f w = false.
Proof.
  unfold count. induction ws as [|w ws IH]; cbn; [lia|].
  destruct (f w) eqn:Hf; intros H.
  - destruct IH as (k & w' & Hk & Hw'); [lia|]. exists (S k), w'. eauto.
  - exists 0%nat, w. eauto.
Qed.

(** One at least satisfies [f]. *)
Lemma count_pos_exists f (ws : list worker) :
  (0 < count f ws)%nat -> exists k w, ws !! k = Some w /\ f w = true.
Proof.
  unfold count. induction ws as [|w ws IH]; cbn; [lia|].
  destruct (f w) eqn:Hf; intros H.
  - exists 0%nat, w. eauto.
  - destruct IH as (k & w' & Hk & Hw'); [lia|]. exists (S k), w'. eauto.
Qed.

Lemma count_all f (ws : list worker) :
  count f ws = length ws -> Forall (fun w => f w = true) ws.
Proof.
  unfold count. induction ws as [|w ws IH]; cbn; [constructor|].
  pose proof (count_le f ws) as Hle. unfold count in Hle.
  destruct (f w) eqn:Hf; intros H; [|lia].
  constructor; [exact Hf | apply IH; lia].
Qed.

Lemma count_app f ws ws' : count f (ws ++ ws') = (count f ws + count f ws')%nat.
Proof. unfold count. apply sum_list_with_app. Qed.

(** *** The steps *)
Section Steps.
Variable E : env.
Variable cf : conf.
Variable now : Time.
Variable cap : nat.

Lemma pcAt_Some s k p :
  pcAt s k = Some p -> exists w, workers s !! k = Some w /\ pc w = p.
Proof.
  unfold pcAt. destruct (workers s !! k) as [w|]; cbn; [|discriminate].
  intros H. injection H as <-. eauto.
Qed.

(** A step that fires is one of the cases of [trans], from a live state. *)
Lemma fire_trans a s s' :
  fire E cf now cap a s = Some s' -> dead s = false /\ trans E cf now cap s s'.
Proof.
  unfold fire. destruct (dead s) eqn:Hdead; [discriminate|].
  intros H. split; [reflexivity|].
  destruct a as [|k|k|k|k|k j]; cbn beta iota in H.
  - unfold fireMain in H.
    destruct (mainpc s) as [[|[name dsn] rest]|i|] eqn:Hm; try discriminate.
    + injection H as <-. try rewrite <- Hdead. now apply t_spawned.
    + injection H as <-. try rewrite <- Hdead. now apply t_spawn.
    + destruct (Nat.ltb_spec i (nsys cf)).
      * destruct (errch s) as [|err q] eqn:Hq; [discriminate|].
        injection H as <-. try rewrite <- Hdead. now apply (t_recv _ _ _ _ _ i err q).
      * injection H as <-. try rewrite <- Hdead. apply (t_return _ _ _ _ _ i); [assumption|lia].
  - destruct (pcAt s k) as [p|] eqn:Hp; [|discriminate].
    destruct (pcAt_Some _ _ _ Hp) as (w & Hw & Hpc).
    destruct p; try discriminate.
    destruct (Nat.ltb_spec (sem s) cap); [|discriminate].
    injection H as <-. try rewrite <- Hdead. now apply (t_acquire _ _ _ _ _ k w).
  - unfold fireWork in H.
    destruct (workers s !! k) as [w|] eqn:Hw; [|discriminate].
    destruct (pc w) eqn:Hpc; try discriminate.
    destruct (work E (newTask now (wname w) (wdsn w) cf) (wld s))
      as [[err | c | msg] w'] eqn:Hwork; injection H as <-.
    + try rewrite <- Hdead. now apply (t_work _ _ _ _ _ k w err w').
    + apply (t_die _ _ _ _ _ k w (Exit c) w'); try assumption.
      discriminate.
    + apply (t_die _ _ _ _ _ k w (Panic msg) w'); try assumption.
      discriminate.
  - destruct (pcAt s k) as [p|] eqn:Hp; [|discriminate].
    destruct (pcAt_Some _ _ _ Hp) as (w & Hw & Hpc).
    destruct p; try discriminate.
    destruct (Nat.ltb_spec (length (errch s)) (nsys cf)); [|discriminate].
    injection H as <-. try rewrite <- Hdead. now apply (t_send _ _ _ _ _ k w).
  - destruct (pcAt s k) as [p|] eqn:Hp; [|discriminate].
    destruct (pcAt_Some _ _ _ Hp) as (w & Hw & Hpc).
    destruct p; try discriminate.
    destruct (sem s) as [|n] eqn:Hsem; [discriminate|].
    injection H as <-. try rewrite <- Hdead.
    now apply (t_release _ _ _ _ _ k w n).
  - destruct cap as [|c] eqn:Hcap; [|discriminate].
    destruct (pcAt s k) as [p|] eqn:Hp; [|discriminate].
    destruct (pcAt_Some _ _ _ Hp) as (wk & Hwk & Hpk).
    destruct p; try discriminate.
    destruct (pcAt s j) as [p|] eqn:Hq; [|discriminate].
    destruct (pcAt_Some _ _ _ Hq) as (wj & Hwj & Hpj).
    destruct p; try discriminate.
    injection H as <-. try rewrite <- Hdead. now apply (t_handoff _ _ _ _ _ k j wk wj).
Qed.

Lemma setPc_lookup_ne (k j : nat) p (ws : list worker) :
  k <> j -> setPc k p ws !! j = ws !! j.
Proof. intros H. unfold setPc. now apply list_lookup_alter_ne. Qed.

Lemma sum_setPc g k p (ws : list worker) w :
  ws !! k = Some w ->
  (sum_list_with g (setPc k p ws) + g w
   = sum_list_with g ws + g (mkWorker (wname w) (wdsn w) p (wres w)))%nat.
Proof. intros H. unfold setPc. now apply sum_alter. Qed.

Lemma sum_setRes g k p r (ws : list worker) w :
  ws !! k = Some w ->
  (sum_list_with g (setRes k p r ws) + g w
   = sum_list_with g ws + g (mkWorker (wname w) (wdsn w) p (Some r)))%nat.
Proof. intros H. unfold setRes. now apply sum_alter. Qed.

(** Every step takes the state closer to the end: no run is longer than the
    measure of its first state. *)
Lemma trans_measure s s' :
  dead s = false -> trans E cf now cap s s' ->
  (measure (nsys cf) s' < measure (nsys cf) s)%nat.
Proof.
  intros Hd Ht. unfold measure. rewrite Hd.
  destruct Ht; cbn [dead mainpc workers]; try rewrite Hd;
    repeat match goal with H : mainpc s = _ |- _ => rewrite H end;
    cbn [mweight length].
  - rewrite sum_list_with_app. cbn. lia.
  - lia.
  - lia.
  - lia.
  - pose proof (sum_setPc wweight k WWork _ _ H) as Hs.
    unfold wweight in Hs at 2 4. cbn [pc] in Hs. rewrite H0 in Hs. lia.
  - pose proof (sum_setRes wweight k (WSend err) err _ _ H) as Hs.
    unfold wweight in Hs at 2 4. cbn [pc] in Hs. rewrite H0 in Hs. lia.
  - lia.
  - pose proof (sum_setPc wweight k WRelease _ _ H) as Hs.
    unfold wweight in Hs at 2 4. cbn [pc] in Hs. rewrite H0 in Hs. lia.
  - pose proof (sum_setPc wweight k WDone _ _ H) as Hs.
    unfold wweight in Hs at 2 4. cbn [pc] in Hs. rewrite H0 in Hs. lia.
  - assert (Hkj : k <> j) by (intros ->; congruence).
    pose proof (sum_setPc wweight k WWork _ _ H0) as Hs.
    assert (Hj : setPc k WWork (workers s) !! j = Some wj)
      by (now rewrite setPc_lookup_ne).
    pose proof (sum_setPc wweight j WDone _ _ Hj) as Hs'.
    unfold wweight in Hs at 2 4. unfold wweight in Hs' at 2 4.
    cbn [pc] in Hs, Hs'. rewrite H1 in Hs. rewrite H3 in Hs'. lia.
Qed.

Lemma count_setPc f k p (ws : list worker) w :
  ws !! k = Some w ->
  (count f (setPc k p ws) + (if f w then 1 else 0)
   = count f ws + (if f (mkWorker (wname w) (wdsn w) p (wres w)) then 1 else 0))%nat.
Proof.
  intros H. unfold count.
  exact (sum_setPc (fun w => if f w then 1 else 0)%nat k p ws w H).
Qed.

Lemma count_setRes f k p r (ws : list worker) w :
  ws !! k = Some w ->
  (count f (setRes k p r ws) + (if f w then 1 else 0)
   = count f ws + (if f (mkWorker (wname w) (wdsn w) p (Some r)) then 1 else 0))%nat.
Proof.
  intros H. unfold count.
  exact (sum_setRes (fun w => if f w then 1 else 0)%nat k p r ws w H).
Qed.

Lemma ident_setPc k p (ws : list worker) : ident <$> setPc k p ws = ident <$> ws.
Proof. apply ident_alter. reflexivity. Qed.

Lemma ident_setRes k p r (ws : list worker) :
  ident <$> setRes k p r ws = ident <$> ws.
Proof. apply ident_alter. reflexivity. Qed.

(** A result that was kept stays kept when the channel only loses what the
    log gains and the log only grows. *)
Lemma resultKept_step s s' w w' :
  (delivered w' = true -> delivered w = true /\ wres w' = wres w) ->
  (forall e, Some e ∈ errch s ->
     Some e ∈ errch s' \/ EvError (fatalMsg e) ∈ trace (wld s')) ->
  (forall ev, ev ∈ trace (wld s) -> ev ∈ trace (wld s')) ->
  resultKept s w -> resultKept s' w'.
Proof.
  intros Hw Hch Hlog Hk Hd e He.
  destruct (Hw Hd) as [Hd' Hres]. rewrite Hres in He.
  destruct (Hk Hd' e He) as [Hin | Hin]; [now apply Hch | right; now apply Hlog].
Qed.

Lemma work_trace tk w r w' ev :
  work E tk w = (r, w') -> ev ∈ trace w -> ev ∈ trace w'.
Proof.
  intros Hw Hev. destruct (respects_run _ _ _ _ _ (grows_work E tk) Hw) as (l & -> & _).
  apply elem_of_app. now left.
Qed.

Variable order : list (string * string).

Ltac kept_same Hlog :=
  eapply Forall_impl; [exact Hlog|];
  let x := fresh "x" in let Hx := fresh "Hx" in
  intros x Hx; eapply resultKept_step; [| | | exact Hx]; cbn; auto.

Ltac use_pc :=
  repeat match goal with
    | H : pc ?w = ?p, H' : context [holding ?w] |- _ =>
        let b := eval cbn in (holding (mkWorker "" "" p None)) in
        replace (holding w) with b in H' by (unfold holding; rewrite H; reflexivity)
    | H : pc ?w = ?p, H' : context [delivered ?w] |- _ =>
        let b := eval cbn in (delivered (mkWorker "" "" p None)) in
        replace (delivered w) with b in H' by (unfold delivered; rewrite H; reflexivity)
    end.

(** The invariant is kept by every step. *)
Lemma trans_Inv s s' :
  Inv cf cap order s -> trans E cf now cap s s' -> Inv cf cap order s'.
Proof.
  intros [Hid Hsem Hcap Hrecv Hle Hres Hlog] Ht.
  unfold todo, received in *.
  destruct Ht; constructor; unfold todo, received;
    cbn [mainpc workers sem errch wld dead];
    repeat match goal with H : mainpc s = _ |- _ => rewrite H in * end.
  (* spawn *)
  - rewrite fmap_app, <- app_assoc. exact Hid.
  - rewrite count_app. cbn. lia.
  - exact Hcap.
  - rewrite count_app. cbn. lia.
  - lia.
  - apply Forall_app. split; [exact Hres|]. apply Forall_singleton. reflexivity.
  - apply Forall_app. split; [kept_same Hlog|].
    apply Forall_singleton. intros Hd. discriminate.
  (* every system spawned *)
  - rewrite app_nil_r in *. exact Hid.
  - exact Hsem.
  - exact Hcap.
  - exact Hrecv.
  - lia.
  - exact Hres.
  - kept_same Hlog.
  (* receive *)
  - exact Hid.
  - exact Hsem.
  - exact Hcap.
  - rewrite H1 in Hrecv. cbn in Hrecv. lia.
  - lia.
  - exact Hres.
  - eapply Forall_impl; [exact Hlog|]. intros x Hx.
    eapply resultKept_step; [| | | exact Hx]; cbn [errch wld]; auto.
    + intros e He. rewrite H1 in He. apply elem_of_cons in He as [<- | He].
      * right. cbn. apply elem_of_app. right. apply list_elem_of_singleton.
        reflexivity.
      * now left.
    + intros ev Hev. destruct err as [e|]; cbn; [|exact Hev].
      apply elem_of_app. now left.
  (* return *)
  - exact Hid.
  - exact Hsem.
  - exact Hcap.
  - rewrite <- Hrecv. lia.
  - lia.
  - exact Hres.
  - kept_same Hlog.
  (* acquire *)
  - rewrite ident_setPc. exact Hid.
  - pose proof (count_setPc holding k WWork _ _ H) as Hc. use_pc. cbn in Hc. lia.
  - lia.
  - pose proof (count_setPc delivered k WWork _ _ H) as Hc. use_pc. cbn in Hc. lia.
  - exact Hle.
  - unfold setPc. apply Forall_alter; [exact Hres|].
    intros x Hx Hr. rewrite H in Hx. injection Hx as <-.
    unfold resOK in *. cbn. now rewrite H0 in Hr.
  - unfold setPc. apply Forall_alter; [kept_same Hlog|].
    intros x Hx _ Hd. discriminate.
  (* a task returns *)
  - rewrite ident_setRes. exact Hid.
  - pose proof (count_setRes holding k (WSend err) err _ _ H) as Hc.
    use_pc. cbn in Hc. lia.
  - exact Hcap.
  - pose proof (count_setRes delivered k (WSend err) err _ _ H) as Hc.
    use_pc. cbn in Hc. lia.
  - exact Hle.
  - unfold setRes. apply Forall_alter; [exact Hres|].
    intros x Hx Hr. reflexivity.
  - unfold setRes. apply Forall_alter.
    + eapply Forall_impl; [exact Hlog|]. intros x Hx.
      eapply resultKept_step; [| | | exact Hx]; cbn [errch wld]; auto.
      intros ev. now apply (work_trace _ _ _ _ _ H1).
    + intros x Hx _ Hd. discriminate.
  (* a task terminates the process *)
  - exact Hid.
  - exact Hsem.
  - exact Hcap.
  - exact Hrecv.
  - exact Hle.
  - exact Hres.
  - eapply Forall_impl; [exact Hlog|]. intros x Hx.
    eapply resultKept_step; [| | | exact Hx]; cbn [errch wld]; auto.
    intros ev. now apply (work_trace _ _ _ _ _ H1).
  (* send the result *)
  - rewrite ident_setPc. exact Hid.
  - pose proof (count_setPc holding k WRelease _ _ H) as Hc. use_pc. cbn in Hc. lia.
  - exact Hcap.
  - pose proof (count_setPc delivered k WRelease _ _ H) as Hc.
    use_pc. cbn in Hc. rewrite length_app. cbn. lia.
  - exact Hle.
  - unfold setPc. apply Forall_alter; [exact Hres|].
    intros x Hx Hr. rewrite H in Hx. injection Hx as <-.
    unfold resOK in *. cbn. rewrite H0 in Hr. rewrite Hr. eauto.
  - unfold setPc. apply Forall_alter.
    + eapply Forall_impl; [exact Hlog|]. intros x Hx.
      eapply resultKept_step; [| | | exact Hx]; cbn [errch wld]; auto.
      intros e He. left. apply elem_of_app. now left.
    + intros x Hx _ _ e He. rewrite H in Hx. injection Hx as <-.
      cbn in He. pose proof (Forall_lookup_1 _ _ _ _ Hres H) as Hr.
      unfold resOK in Hr. rewrite H0 in Hr. rewrite Hr in He.
      injection He as ->. left. cbn. apply elem_of_app. right.
      apply list_elem_of_singleton. reflexivity.
  (* release the gate *)
  - rewrite ident_setPc. exact Hid.
  - pose proof (count_setPc holding k WDone _ _ H) as Hc. use_pc. cbn in Hc. lia.
  - lia.
  - pose proof (count_setPc delivered k WDone _ _ H) as Hc. use_pc. cbn in Hc. lia.
  - exact Hle.
  - unfold setPc. apply Forall_alter; [exact Hres|].
    intros x Hx Hr. rewrite H in Hx. injection Hx as <-.
    unfold resOK in *. cbn. now rewrite H0 in Hr.
  - unfold setPc. apply Forall_alter; [kept_same Hlog|].
    intros x Hx Hk. rewrite H in Hx. injection Hx as <-.
    intros _ e He. cbn in He. apply Hk; [|exact He].
    unfold delivered. now rewrite H0.
  (* hand over on an unbuffered gate *)
  - rewrite !ident_setPc. exact Hid.
  - assert (Hkj : k <> j) by (intros ->; congruence).
    pose proof (count_setPc holding k WWork _ _ H0) as Hc.
    assert (Hj : setPc k WWork (workers s) !! j = Some wj)
      by (now rewrite setPc_lookup_ne).
    pose proof (count_setPc holding j WDone _ _ Hj) as Hc'.
    use_pc. cbn in Hc, Hc'. lia.
  - exact Hcap.
  - assert (Hkj : k <> j) by (intros ->; congruence).
    pose proof (count_setPc delivered k WWork _ _ H0) as Hc.
    assert (Hj : setPc k WWork (workers s) !! j = Some wj)
      by (now rewrite setPc_lookup_ne).
    pose proof (count_setPc delivered j WDone _ _ Hj) as Hc'.
    use_pc. cbn in Hc, Hc'. lia.
  - exact Hle.
  - assert (Hkj : k <> j) by (intros ->; congruence).
    unfold setPc. apply Forall_alter; [apply Forall_alter; [exact Hres|]|].
    + intros x Hx Hr. rewrite H0 in Hx. injection Hx as <-.
      unfold resOK in *. cbn. now rewrite H1 in Hr.
    + intros x Hx _. rewrite list_lookup_alter_ne in Hx by exact Hkj.
      rewrite H2 in Hx. injection Hx as <-.
      pose proof (Forall_lookup_1 _ _ _ _ Hres H2) as Hr.
      unfold resOK in *. cbn. now rewrite H3 in Hr.
  - assert (Hkj : k <> j) by (intros ->; congruence).
    unfold setPc. apply Forall_alter; [apply Forall_alter; [kept_same Hlog|]|].
    + intros x Hx _ Hd. discriminate.
    + intros x Hx _. rewrite list_lookup_alter_ne in Hx by exact Hkj.
      rewrite H2 in Hx. injection Hx as <-.
      pose proof (Forall_lookup_1 _ _ _ _ Hlog H2) as Hk.
      intros _ e He. cbn in He. apply Hk; [|exact He].
      unfold delivered. now rewrite H3.
Qed.

Lemma init_Inv w0 :
  (length order <= nsys cf)%nat -> Inv cf cap order (init order w0).
Proof.
  intros Hlen. constructor; cbn; try reflexivity; try lia; constructor.
Qed.

(** Every state [run] reaches satisfies the invariant. *)
Lemma reachable_Inv w0 s :
  (length order <= nsys cf)%nat ->
  rtc (step E cf now cap) (init order w0) s -> Inv cf cap order s.
Proof.
  intros Hlen. revert s. apply rtc_ind_r.
  - now apply init_Inv.
  - intros s1 s2 _ [a Hs] IH.
    destruct (fire_trans _ _ _ Hs) as [_ Ht]. exact (trans_Inv _ _ IH Ht).
Qed.

Lemma count_member_lt f (ws : list worker) k w :
  ws !! k = Some w -> f w = false -> (count f ws < length ws)%nat.
Proof.
  unfold count. revert k. induction ws as [|x ws IH]; intros [|k] Hk Hf;
    try discriminate; cbn in *.
  - injection Hk as ->. rewrite Hf. pose proof (count_le f ws). unfold count in *. lia.
  - specialize (IH k Hk Hf). destruct (f x); lia.
Qed.

Lemma count_member_pos f (ws : list worker) k w :
  ws !! k = Some w -> f w = true -> (0 < count f ws)%nat.
Proof.
  unfold count. revert k. induction ws as [|x ws IH]; intros [|k] Hk Hf;
    try discriminate; cbn in *.
  - injection Hk as ->. rewrite Hf. lia.
  - specialize (IH k Hk Hf). lia.
Qed.

Lemma workers_le s :
  Inv cf cap order s -> (length (workers s) + length (todo s))%nat = length order.
Proof.
  intros HI. rewrite <- (inv_ident _ _ _ _ HI), length_app, length_fmap. reflexivity.
Qed.

(** A worker that holds the gate can take its next step. *)
Lemma holder_fires s k w :
  Inv cf cap order s -> length order = nsys cf -> dead s = false ->
  workers s !! k = Some w -> holding w = true ->
  exists a s', fire E cf now cap a s = Some s'.
Proof.
  intros HI Hlen Hd Hk Hh. unfold holding in Hh.
  destruct (pc w) eqn:Hpc; try discriminate.
  - exists (AWork k). unfold fire, fireWork. rewrite Hd, Hk, Hpc.
    destruct (work E _ (wld s)) as [[err | c | msg] w']; eauto.
  - exists (ASend k). unfold fire, pcAt. rewrite Hd, Hk.
    change (pc <$> Some w) with (Some (pc w)). rewrite Hpc.
    assert (Hlt : (length (errch s) < nsys cf)%nat).
    { pose proof (inv_recv _ _ _ _ HI) as Hr.
      pose proof (count_member_lt delivered _ _ _ Hk) as Hc.
      unfold delivered in Hc at 1. rewrite Hpc in Hc. specialize (Hc eq_refl).
      pose proof (workers_le s HI). lia. }
    destruct (Nat.ltb_spec (length (errch s)) (nsys cf)); [eauto | lia].
  - exists (ARelease k). unfold fire, pcAt. rewrite Hd, Hk.
    change (pc <$> Some w) with (Some (pc w)). rewrite Hpc.
    pose proof (inv_sem _ _ _ _ HI) as Hs.
    pose proof (count_member_pos holding _ _ _ Hk) as Hc.
    unfold holding in Hc at 1. rewrite Hpc in Hc. specialize (Hc eq_refl).
    destruct (sem s); [lia | eauto].
Qed.

Lemma allDone_false s :
  allDone s = false ->
  exists k w, workers s !! k = Some w /\ pc w <> WDone.
Proof.
  unfold allDone. induction (workers s) as [|x ws IH]; cbn; [discriminate|].
  destruct (pc x) eqn:Hpc; cbn;
    try (intros _; exists 0%nat, x; split; [reflexivity | congruence]).
  intros H. destruct (IH H) as (k & w & Hk & Hw). exists (S k), w. eauto.
Qed.

Lemma allDone_delivered s :
  allDone s = true -> count delivered (workers s) = length (workers s).
Proof.
  unfold allDone, count. induction (workers s) as [|x ws IH]; cbn; [reflexivity|].
  unfold delivered at 1. destruct (pc x); cbn; try discriminate.
  intros H. rewrite (IH H). reflexivity.
Qed.

(** With a gate of capacity one at least there is no deadlock: in every
    state that is not final some goroutine can take a step. *)
Lemma progress s :
  (1 <= cap)%nat -> length order = nsys cf ->
  Inv cf cap order s -> final s = false ->
  exists a s', fire E cf now cap a s = Some s'.
Proof.
  intros Hcap Hlen HI Hfin. unfold final in Hfin.
  destruct (dead s) eqn:Hd; [discriminate|]. cbn in Hfin.
  destruct (allDone s) eqn:Hall.
  - (* every worker has finished: the main goroutine goes on *)
    rewrite andb_true_r in Hfin.
    pose proof (inv_recv _ _ _ _ HI) as Hr.
    pose proof (workers_le s HI) as Hw.
    rewrite (allDone_delivered s Hall) in Hr.
    unfold received, todo in *.
    exists AMain. unfold fire, fireMain. rewrite Hd.
    destruct (mainpc s) as [[|[name dsn] rest]|i|]; try discriminate; eauto.
    destruct (Nat.ltb_spec i (nsys cf)); [|eauto].
    destruct (errch s); cbn in *; [lia | eauto].
  - (* a worker has not finished *)
    destruct (allDone_false s Hall) as (k & w & Hk & Hpc).
    destruct (holding w) eqn:Hh; [exact (holder_fires s k w HI Hlen Hd Hk Hh)|].
    assert (Hacq : pc w = WAcquire).
    { unfold holding in Hh. destruct (pc w); congruence. }
    destruct (Nat.ltb_spec (sem s) cap) as [Hlt | Hge].
    + exists (AAcquire k). unfold fire, pcAt. rewrite Hd, Hk.
      change (pc <$> Some w) with (Some (pc w)). rewrite Hacq.
      destruct (Nat.ltb_spec (sem s) cap); [eauto | lia].
    + pose proof (inv_sem _ _ _ _ HI) as Hs.
      destruct (count_pos_exists holding (workers s)) as (j & wj & Hj & Hhj); [lia|].
      exact (holder_fires s j wj HI Hlen Hd Hj Hhj).
Qed.

(** When [run] has returned, there is one worker per system, each has run
    its task and delivered the result, and every error is in the log. *)
Lemma returned s :
  length order = nsys cf -> Inv cf cap order s -> mainpc s = MReturned ->
  ident <$> workers s = order
  /\ Forall (fun w => delivered w = true /\ is_Some (wres w)) (workers s)
  /\ Forall (resultLogged s) (workers s).
Proof.
  intros Hlen HI Hm.
  pose proof (inv_ident _ _ _ _ HI) as Hid.
  pose proof (inv_recv _ _ _ _ HI) as Hr.
  pose proof (workers_le s HI) as Hw.
  pose proof (count_le delivered (workers s)) as Hle.
  unfold todo, received in *. rewrite Hm in *. rewrite app_nil_r in Hid.
  cbn in Hw.
  assert (Hq : errch s = []) by (destruct (errch s); [reflexivity | cbn in *; lia]).
  assert (Hdel : Forall (fun w => delivered w = true) (workers s)).
  { apply count_all. rewrite Hq in Hr. cbn in Hr. lia. }
  split; [exact Hid|]. split.
  - rewrite Forall_forall. intros w Hin.
    pose proof (proj1 (Forall_forall _ _) Hdel w Hin) as Hd.
    pose proof (proj1 (Forall_forall _ _) (inv_res _ _ _ _ HI) w Hin) as Hres.
    split; [exact Hd|]. unfold resOK, delivered in *.
    destruct (pc w); try discriminate; exact Hres.
  - rewrite Forall_forall. intros w Hin e He.
    pose proof (proj1 (Forall_forall _ _) Hdel w Hin) as Hd.
    pose proof (proj1 (Forall_forall _ _) (inv_log _ _ _ _ HI) w Hin) as Hk.
    destruct (Hk Hd e He) as [Hin' | Hin']; [|exact Hin'].
    rewrite Hq in Hin'. now apply elem_of_nil in Hin'.
Qed.

End Steps.

Lemma count_mono f g (ws : list worker) :
  (forall w, f w = true -> g w = true) -> (count f ws <= count g ws)%nat.
Proof.
  intros Hfg. unfold count. induction ws as [|w ws IH]; cbn; [lia|].
  specialize (Hfg w). destruct (f w), (g w); try lia.
  all: try (now specialize (Hfg eq_refl)).
Qed.

Lemma fireAll_rtc E cf now cap sched : forall s s',
  fireAll E cf now cap sched s = Some s' -> rtc (step E cf now cap) s s'.
Proof.
  induction sched as [|a sched IH]; intros s s' H; cbn in H.
  - injection H as <-. apply rtc_refl.
  - destruct (fire E cf now cap a s) as [s1|] eqn:Hf; [|discriminate].
    eapply rtc_l; [exists a; exact Hf | now apply IH].
Qed.

(** The gate bounds the workers in their query phase, whatever the tasks do
    and whatever the capacity. *)
Lemma gate_bound E cf now cap order w0 s :
  (length order <= nsys cf)%nat ->
  rtc (step E cf now cap) (init order w0) s ->
  (count querying (workers s) <= count holding (workers s))%nat
  /\ count holding (workers s) = sem s /\ (sem s <= cap)%nat.
Proof.
  intros Hlen Hr. pose proof (reachable_Inv E cf now cap order w0 s Hlen Hr) as HI.
  split; [|split].
  - apply count_mono. intros w. unfold querying, holding. now destruct (pc w).
  - symmetry. apply (inv_sem _ _ _ _ HI).
  - apply (inv_cap _ _ _ _ HI).
Qed.

(** For every system mapping and every capacity of the gate, in every state
    [run] reaches: the workers in their query phase are never more than the
    capacity.  With a capacity of one at least, some goroutine can take a
    step until the process has terminated or [run] has returned and every
    worker has finished, and every step brings that end closer; and when
    [run] has returned there is exactly one worker per system, each has run
    its task to its end and delivered the result, whatever the results of the
    others, and every error is in the log. *)
Lemma dispatcher_bounded_and_complete E cf now cap order w0 s :
  order ≡ₚ map_to_list (Systems cf) ->
  rtc (step E cf now cap) (init order w0) s ->
  (count querying (workers s) <= count holding (workers s))%nat
  /\ count holding (workers s) = sem s /\ (sem s <= cap)%nat
  /\ ((1 <= cap)%nat -> final s = false ->
      exists a s', fire E cf now cap a s = Some s')
  /\ (forall a s', fire E cf now cap a s = Some s' ->
        (measure (nsys cf) s' < measure (nsys cf) s)%nat)
  /\ (mainpc s = MReturned ->
        ident <$> workers s = order
        /\ Forall (fun w => delivered w = true /\ is_Some (wres w)) (workers s)
        /\ Forall (resultLogged s) (workers s)).
Proof.
  intros Hperm Hr.
  assert (Hlen : length order = nsys cf).
  { unfold nsys. rewrite (Permutation_length Hperm). apply length_map_to_list. }
  pose proof (reachable_Inv E cf now cap order w0 s ltac:(lia) Hr) as HI.
  destruct (gate_bound E cf now cap order w0 s ltac:(lia) Hr) as (Hq & Hh & Hs).
  split; [exact Hq|]. split; [exact Hh|]. split; [exact Hs|].
  split; [|split].
  - intros Hcap Hfin. exact (progress E cf now cap order s Hcap Hlen HI Hfin).
  - intros a s' Hf. destruct (fire_trans _ _ _ _ _ _ _ Hf) as [Hd Ht].
    exact (trans_measure E cf now cap s s' Hd Ht).
  - intros Hm. exact (returned cf cap order s Hlen HI Hm).
Qed.

Example twoSystems_run :
  let s := fireAll (quietEnv UTC sampleRows) twoSystems march2024 1 oneByOne
             (init (map_to_list (Systems twoSystems)) emptyWorld) in
  (mainpc <$> s, (fun s => wname <$> workers s) <$> s, final <$> s)
  = (Some MReturned, Some ["a"; "b"], Some true).
Proof. vm_compute. reflexivity. Qed.

End DispatchFacts.

(** ** The gate made by [main] *)
Module MainFacts.
Import GoTime Os Sys T3rep Scenarios Dispatch DispatchFacts.

(** With a gate of capacity 0 and one system at least, no state [run]
    reaches is past the gate. *)
Lemma unbuffered_gate_blocks E cf now order w0 s :
  (0 < nsys cf)%nat ->
  rtc (step E cf now 0) (init order w0) s -> blocked w0 s.
Proof.
  intros Hn. revert s. apply rtc_ind_r.
  - repeat split; cbn; eauto.
  - intros s1 s2 _ [a Hs] (Hws & Hq & Hm & Hw & Hd).
    destruct (fire_trans _ _ _ _ _ _ _ Hs) as [_ Ht].
    assert (Hpc : forall k w, workers s1 !! k = Some w -> pc w = WAcquire).
    { intros k w Hk. exact (Forall_lookup_1 _ _ _ _ Hws Hk). }
    destruct Ht; unfold blocked; cbn [workers errch mainpc wld dead];
      try (match goal with
           | Hk : workers s1 !! _ = Some ?w, Hp : pc ?w = _ |- _ =>
               rewrite (Hpc _ _ Hk) in Hp; discriminate
           end).
    + repeat split; eauto. apply Forall_app. split; [exact Hws|].
      apply Forall_singleton. reflexivity.
    + repeat split; eauto.
    + rewrite Hq in H1. discriminate.
    + destruct Hm as [[l Hm] | Hm]; rewrite Hm in H; [discriminate|].
      injection H as <-. lia.
    + lia.
Qed.

(** Once every worker is spawned, that state is a deadlock: no goroutine can
    take a step, and [run] has not returned. *)
Lemma unbuffered_gate_deadlocks E cf now order w0 s :
  (0 < nsys cf)%nat ->
  rtc (step E cf now 0) (init order w0) s ->
  mainpc s = MRecv 0 ->
  final s = false /\ forall a, fire E cf now 0 a s = None.
Proof.
  intros Hn Hr Hm.
  destruct (unbuffered_gate_blocks E cf now order w0 s Hn Hr)
    as (Hws & Hq & _ & _ & Hd).
  split.
  - unfold final. rewrite Hd, Hm. reflexivity.
  - intros a. destruct (fire E cf now 0 a s) as [s'|] eqn:Hf; [|reflexivity].
    exfalso. destruct (fire_trans _ _ _ _ _ _ _ Hf) as [_ Ht].
    assert (Hpc : forall k w, workers s !! k = Some w -> pc w = WAcquire).
    { intros k w Hk. exact (Forall_lookup_1 _ _ _ _ Hws Hk). }
    destruct Ht;
      try (match goal with
           | Hk : workers s !! _ = Some ?w, Hp : pc ?w = _ |- _ =>
               rewrite (Hpc _ _ Hk) in Hp; discriminate
           end);
      try congruence; try lia.
Qed.

(** C1, on the code.  The test on the flag is the wrong way round: a
    parallelism of 1 or more makes a gate of capacity 1, a parallelism of 0
    (the default of the flag) makes an unbuffered gate, and a negative one
    makes [make] panic.  The capacity is not floored at 1, and it is not
    maxParallel for maxParallel >= 2. *)
Theorem gate_capacity_of_flag :
  (forall parallel,
     gateCapacity parallel
     = if 0 <? parallel then Ret 1
       else if parallel <? 0 then Panic "makechan: size out of range"
       else Ret 0)
  /\ gateCapacity 0 = Ret 0
  /\ gateCapacity 4 = Ret 1
  /\ gateCapacity (-1) = Panic "makechan: size out of range".
Proof.
  split; [|repeat split].
  intros parallel. unfold gateCapacity.
  destruct (Z.ltb_spec 0 parallel); [reflexivity|].
  destruct (Z.ltb_spec parallel 0); [reflexivity|].
  f_equal. lia.
Qed.

(** With the default flag and two systems, [run] deadlocks after spawning. *)
Example default_flag_deadlock :
  gateCapacity 0 = Ret 0
  /\ exists s,
       fireAll (quietEnv UTC sampleRows) twoSystems march2024 0
         [AMain; AMain; AMain]
         (init (map_to_list (Systems twoSystems)) emptyWorld) = Some s
       /\ final s = false
       /\ forall a, fire (quietEnv UTC sampleRows) twoSystems march2024 0 a s = None.
Proof.
  split; [reflexivity|].
  assert (Hs : exists s,
            fireAll (quietEnv UTC sampleRows) twoSystems march2024 0
              [AMain; AMain; AMain]
              (init (map_to_list (Systems twoSystems)) emptyWorld) = Some s
            /\ mainpc s = MRecv 0).
  { eexists. split; vm_compute; reflexivity. }
  destruct Hs as (s & Hs & Hm). exists s. split; [exact Hs|].
  apply (unbuffered_gate_deadlocks _ _ _ (map_to_list (Systems twoSystems)) emptyWorld).
  - vm_compute. lia.
  - exact (fireAll_rtc _ _ _ _ _ _ _ Hs).
  - exact Hm.
Qed.

End MainFacts.

(** ** Row extraction *)
Module ExtractFacts.
Import GoTime GoStrings Csv Os OsNotations Sys T3rep Scenarios Terms CsvFacts GenerateFacts.

Lemma formatCSV_eq buf fields : formatCSV buf fields = (csvLine fields, csvLine fields).
Proof. unfold formatCSV, csvLine. now rewrite formatCSV_loop_csv. Qed.

Lemma mapM_textRow (v : list string) : mapM id (textRow v) = Some v.
Proof.
  unfold textRow. induction v as [|x v IH]; [reflexivity|].
  cbn. cbn in IH. rewrite IH. reflexivity.
Qed.

Lemma Scan_textRow v assoc :
  length v = length assoc -> Scan (textRow v) assoc = inr v.
Proof.
  intros Hlen. unfold Scan. unfold textRow at 1. rewrite length_fmap.
  destruct (Nat.eqb_spec (length v) (length assoc)); [|contradiction].
  cbn [negb]. now rewrite mapM_textRow.
Qed.

Lemma mapM_None (r : row) : None ∈ r -> mapM id r = None.
Proof.
  induction r as [|[x|] r IH]; intros Hin.
  - now apply elem_of_nil in Hin.
  - apply elem_of_cons in Hin as [Hin | Hin]; [discriminate|].
    cbn. cbn in IH. now rewrite (IH Hin).
  - reflexivity.
Qed.

Lemma Scan_unscannable r assoc :
  unscannable (length assoc) r -> exists e, Scan r assoc = inl e.
Proof.
  intros [Hlen | Hnull]; unfold Scan.
  - destruct (Nat.eqb_spec (length r) (length assoc)); [contradiction|]. eauto.
  - destruct (negb _); [eauto|]. rewrite (mapM_None r Hnull). eauto.
Qed.

Lemma written_app f ls ls' w :
  written f (ls ++ ls') w = written f ls' (written f ls w).
Proof. revert w. induction ls as [|l ls IH]; intros w; cbn; [reflexivity | apply IH]. Qed.

Lemma written_trace f ls : forall w,
  trace (written f ls w) = trace w ++ (EvWrite f <$> ls).
Proof.
  induction ls as [|l ls IH]; intros w; cbn [written fmap list_fmap].
  - now rewrite app_nil_r.
  - rewrite IH. cbn [trace]. now rewrite <- app_assoc.
Qed.

Lemma written_contents f ls : forall w,
  contents (written f ls w) f = contents w f +:+ joined ls.
Proof.
  induction ls as [|l ls IH]; intros w; cbn [written joined foldr].
  - now rewrite append_nil_r.
  - rewrite IH. unfold contents at 1. cbn [files].
    rewrite lookup_insert_eq. cbn. apply append_assoc.
Qed.

Lemma written_other f g ls : g <> f -> forall w,
  files (written f ls w) !! g = files w !! g.
Proof.
  intros Hne. induction ls as [|l ls IH]; intros w; cbn [written]; [reflexivity|].
  rewrite IH. cbn [files]. now apply lookup_insert_ne.
Qed.

(** Where no write to [f] fails, the loop goes through rows of text of the
    right width, writing one line for each. *)
Lemma extract_loop_text E f n good tl :
  (forall w data, write_fault E w f data = None) ->
  Forall (fun v => length v = n) good ->
  forall assoc buf w, length assoc = n ->
  exists assoc' buf',
    length assoc' = n
    /\ extract_loop E f ((textRow <$> good) ++ tl) assoc buf w
       = extract_loop E f tl assoc' buf' (written f (csvLines good) w).
Proof.
  intros Hw Hgood. induction Hgood as [|v good Hv Hgood IH]; intros assoc buf w Hlen.
  - exists assoc, buf. split; [exact Hlen | reflexivity].
  - cbn [fmap list_fmap app extract_loop].
    change (Some <$> v) with (textRow v).
    rewrite Scan_textRow by congruence. rewrite formatCSV_eq.
    unfold bind at 1. unfold file_Write at 1.
    unfold bind, get, emit, ret, setFiles. cbn. rewrite Hw. cbn.
    destruct (IH v (csvLine v)
                (mkWorld (<[f := contents w f +:+ csvLine v]> (files w))
                   (trace w ++ [EvWrite f (csvLine v)])) Hv)
      as (assoc' & buf' & Hlen' & Heq).
    exists assoc', buf'. split; [exact Hlen'|]. exact Heq.
Qed.

(** With rows of text of the configured width and writes that do not fail,
    [extract] returns [nil] after one [Write] per row, in the order of the
    rows: the sink gains the lines of the rows and nothing else changes. *)
Theorem extract_writes_every_row E f n vals w :
  (forall w' data, write_fault E w' f data = None) ->
  Forall (fun v => length v = n) vals ->
  extract E f (textRow <$> vals) (Z.of_nat n) w
  = (Ret None, written f (csvLines vals) w)
  /\ trace (written f (csvLines vals) w)
     = trace w ++ (EvWrite f <$> (csvLine <$> vals))
  /\ contents (written f (csvLines vals) w) f
     = contents w f +:+ joined (csvLine <$> vals)
  /\ (forall g, g <> f -> files (written f (csvLines vals) w) !! g = files w !! g).
Proof.
  intros Hw Hvals. split; [|split; [|split]].
  - unfold extract. destruct (Z.ltb_spec (Z.of_nat n) 0); [lia|].
    rewrite Nat2Z.id.
    destruct (extract_loop_text E f n vals [] Hw Hvals (replicate n "") "" w)
      as (assoc' & buf' & _ & Heq); [apply length_replicate|].
    rewrite app_nil_r in Heq. rewrite Heq. reflexivity.
  - apply written_trace.
  - apply written_contents.
  - intros g Hg. now apply written_other.
Qed.

Lemma extract_writes_every_row_witness :
  extract (quietEnv UTC []) "out/x.csv" (textRow <$> [["a"; "b"]; ["c"; "d"]])
    (Z.of_nat 2) emptyWorld
  = (Ret None,
     mkWorld {[ "out/x.csv" := csvLine ["a"; "b"] +:+ csvLine ["c"; "d"] ]}
       [EvWrite "out/x.csv" (csvLine ["a"; "b"]);
        EvWrite "out/x.csv" (csvLine ["c"; "d"])]).
Proof.
  destruct (extract_writes_every_row (quietEnv UTC []) "out/x.csv" 2
              [["a"; "b"]; ["c"; "d"]] emptyWorld) as [H _].
  - intros w' data. reflexivity.
  - repeat constructor.
  - etransitivity; [exact H|]. vm_compute. reflexivity.
Defined.

(** With writes that do not fail, [extract] stops at the first row [Scan]
    rejects (a wrong number of columns, or a NULL): the rows before it have
    been written, the rows after it are not read, and the error says that the
    scan failed. *)
Theorem extract_stops_at_bad_row E f n good bad rest w :
  (forall w' data, write_fault E w' f data = None) ->
  Forall (fun v => length v = n) good ->
  unscannable n bad ->
  exists e,
    extract E f ((textRow <$> good) ++ bad :: rest) (Z.of_nat n) w
    = (Ret (Some (Errorf "cannot scan query: " e)), written f (csvLines good) w)
    /\ trace (written f (csvLines good) w)
       = trace w ++ (EvWrite f <$> (csvLine <$> good))
    /\ contents (written f (csvLines good) w) f
       = contents w f +:+ joined (csvLine <$> good).
Proof.
  intros Hw Hgood Hbad.
  destruct (extract_loop_text E f n good (bad :: rest) Hw Hgood (replicate n "") "" w)
    as (assoc' & buf' & Hlen & Heq); [apply length_replicate|].
  rewrite <- Hlen in Hbad.
  destruct (Scan_unscannable bad assoc' Hbad) as [e He].
  exists e. split; [|split].
  - unfold extract. destruct (Z.ltb_spec (Z.of_nat n) 0); [lia|].
    rewrite Nat2Z.id, Heq. cbn [extract_loop]. rewrite He. reflexivity.
  - apply written_trace.
  - apply written_contents.
Qed.

Lemma extract_stops_at_bad_row_witness :
  exists e,
    extract (quietEnv UTC []) "out/x.csv"
      ((textRow <$> [["a"; "b"]]) ++ [Some "c"; None] :: [[Some "d"; Some "e"]])
      (Z.of_nat 2) emptyWorld
    = (Ret (Some (Errorf "cannot scan query: " e)),
       mkWorld {[ "out/x.csv" := csvLine ["a"; "b"] ]}
         [EvWrite "out/x.csv" (csvLine ["a"; "b"])]).
Proof.
  destruct (extract_stops_at_bad_row (quietEnv UTC []) "out/x.csv" 2
              [["a"; "b"]] [Some "c"; None] [[Some "d"; Some "e"]] emptyWorld)
    as (e & H & _).
  - intros w' data. reflexivity.
  - repeat constructor.
  - right. apply elem_of_cons. right. apply elem_of_cons. now left.
  - exists e. etransitivity; [exact H|]. vm_compute. reflexivity.
Defined.

(** The loop over rows of text, whatever the writes do: it ends with every
    line written, or at the first write that fails. *)
Lemma extract_loop_faulty E f n vals :
  Forall (fun v => length v = n) vals ->
  forall assoc buf w, length assoc = n ->
  extract_loop E f (textRow <$> vals) assoc buf w
  = (Ret None, written f (csvLines vals) w)
  \/ exists (j : nat) line e0,
       csvLines vals !! j = Some line
       /\ write_fault E (written f (take j (csvLines vals)) w) f line = Some e0
       /\ extract_loop E f (textRow <$> vals) assoc buf w
          = (Ret (Some (Errorf "cannot write line: " e0)),
             logged (EvWrite f line) (written f (take j (csvLines vals)) w)).
Proof.
  intros Hvals. induction Hvals as [|v vals Hv Hvals IH]; intros assoc buf w Hlen.
  - left. reflexivity.
  - cbn [fmap list_fmap extract_loop].
    change (Some <$> v) with (textRow v).
    rewrite Scan_textRow by congruence. rewrite formatCSV_eq.
    unfold bind at 1. unfold file_Write at 1.
    unfold bind, get, emit, ret, setFiles. cbn.
    destruct (write_fault E w f (csvLine v)) as [e0|] eqn:Hf; cbn.
    + right. exists 0%nat, (csvLine v), e0. cbn. repeat split. exact Hf.
    + destruct (IH v (csvLine v)
                  (mkWorld (<[f := contents w f +:+ csvLine v]> (files w))
                     (trace w ++ [EvWrite f (csvLine v)])) Hv)
        as [Heq | (j & line & e0 & Hj & Hfault & Heq)].
      * left. exact Heq.
      * right. exists (S j), line, e0. cbn. repeat split; assumption.
Qed.

(** Whatever the writes do, [extract] on rows of text of the configured
    width either writes every line and returns [nil], or stops at the first
    write that fails: the lines before it are in the sink, the failed line
    was attempted once, no later row is written, and the error says that the
    write failed. *)
Theorem extract_stops_at_failed_write E f n vals w :
  Forall (fun v => length v = n) vals ->
  extract E f (textRow <$> vals) (Z.of_nat n) w
  = (Ret None, written f (csvLine <$> vals) w)
  \/ exists (j : nat) line e0,
       (csvLine <$> vals) !! j = Some line
       /\ write_fault E (written f (take j (csvLine <$> vals)) w) f line = Some e0
       /\ extract E f (textRow <$> vals) (Z.of_nat n) w
          = (Ret (Some (Errorf "cannot write line: " e0)),
             logged (EvWrite f line) (written f (take j (csvLine <$> vals)) w))
       /\ contents (logged (EvWrite f line) (written f (take j (csvLine <$> vals)) w)) f
          = contents w f +:+ joined (take j (csvLine <$> vals)).
Proof.
  intros Hvals. unfold extract.
  destruct (Z.ltb_spec (Z.of_nat n) 0); [lia|]. rewrite Nat2Z.id.
  destruct (extract_loop_faulty E f n vals Hvals (replicate n "") "" w)
    as [Heq | (j & line & e0 & Hj & Hfault & Heq)]; [apply length_replicate | |].
  - left. exact Heq.
  - right. exists j, line, e0. repeat split; try assumption.
    unfold contents at 1. cbn [logged files].
    apply (written_contents f (take j (csvLines vals)) w).
Qed.

Lemma extract_stops_at_failed_write_witness :
  extract (secondWriteFailsEnv UTC []) "out/x.csv"
    (textRow <$> [["a"]; ["b"]; ["c"]]) (Z.of_nat 1) emptyWorld
  = (Ret (Some (Errorf "cannot write line: " (EIO "write" "out/x.csv"))),
     mkWorld {[ "out/x.csv" := csvLine ["a"] ]}
       [EvWrite "out/x.csv" (csvLine ["a"]); EvWrite "out/x.csv" (csvLine ["b"])]).
Proof.
  destruct (extract_stops_at_failed_write (secondWriteFailsEnv UTC []) "out/x.csv" 1
              [["a"]; ["b"]; ["c"]] emptyWorld) as [H | (j & line & e0 & _ & _ & H & _)].
  - repeat constructor.
  - vm_compute in H. discriminate.
  - clear H. vm_compute. reflexivity.
Defined.

End ExtractFacts.

(** ** Report generation: failure, cleanup and success *)
Module CleanupFacts.
Import GoTime GoStrings Csv Os OsNotations Sys T3rep Scenarios Terms.
Import CsvFacts GenerateFacts ExtractFacts.

Lemma os_Create_inl E p w e w' :
  os_Create E p w = (Ret (inl e), w') -> w' = logged (EvCreate p) w.
Proof.
  unfold os_Create, bind, get, emit, ret, setFiles. cbn.
  destruct (create_fault E w p); cbn; intros H; [|discriminate].
  now injection H as _ <-.
Qed.

Lemma exists_false_world E rep w w1 :
  exists_ E rep w = (Ret false, w1) -> w1 = logged (EvStat (fname rep)) w.
Proof.
  intros H. destruct (exists_returns E rep w) as (err & _ & Hex).
  rewrite Hex in H. now injection H as _ <-.
Qed.

(** The file a failed [write] leaves behind is there to be removed. *)
Lemma created_file_kept E r rep w1 f w2 res w3 :
  os_Create E (fname rep) w1 = (Ret (inr f), w2) ->
  write E r f rep w2 = (res, w3) ->
  f = fname rep /\ is_Some (files w3 !! fname rep).
Proof.
  intros Hcr Hwr. destruct (os_Create_inr _ _ _ _ _ Hcr) as [-> Hw2].
  split; [reflexivity|].
  apply (respects_run _ _ _ _ _ (keeps_write E r (fname rep) (fname rep) rep) Hwr).
  rewrite Hw2. cbn. rewrite lookup_insert_eq. eauto.
Qed.

(** When the file was created and [write] fails, [generate] logs the
    failure, closes the file and removes it: afterwards the file is gone, and
    [generate] returns, so that the task goes on with its next report. *)
Theorem generate_removes_partial_file E r rep w w1 f w2 err w3 :
  exists_ E rep (atExistenceTest rep w) = (Ret false, w1) ->
  os_Create E (fname rep) w1 = (Ret (inr f), w2) ->
  write E r f rep w2 = (Ret (Some err), w3) ->
  remove_fault E (atRemoval rep err w3) (fname rep) = None ->
  generate E r rep w
  = (Ret tt,
     mkWorld (delete (fname rep) (files w3))
       (trace w3
        ++ [EvError (fname rep +:+ ": cannot generate report: " +:+ emsg err);
            EvClose (fname rep); EvRemove (fname rep)]))
  /\ files (generate E r rep w).2 !! fname rep = None.
Proof.
  intros Hex Hcr Hwr Hrm.
  destruct (created_file_kept E r rep w1 f w2 _ w3 Hcr Hwr) as [-> [c Hc]].
  assert (Hgen : generate E r rep w
                 = (Ret tt,
                    mkWorld (delete (fname rep) (files w3))
                      (trace w3
                       ++ [EvError (fname rep +:+ ": cannot generate report: "
                                    +:+ emsg err);
                           EvClose (fname rep); EvRemove (fname rep)]))).
  { rewrite generate_unfold, (bind_Ret _ _ _ _ _ Hex). cbn iota.
    rewrite (bind_Ret _ _ _ _ _ Hcr). cbn iota.
    rewrite (bind_Ret _ _ _ _ _ Hwr). cbn iota.
    unfold removePartial, os_Remove, file_Close, err_Printf, String_.
    unfold bind, get, emit, ret, setFiles. cbn.
    unfold atRemoval, logged in Hrm. cbn in Hrm. rewrite Hrm. cbn.
    rewrite Hc. cbn. rewrite <- !app_assoc. reflexivity. }
  split; [exact Hgen|]. rewrite Hgen. cbn. apply lookup_delete_eq.
Qed.

Lemma generate_removes_partial_file_witness :
  generate (quietEnv UTC [[Some "a"; None]]) sampleReporter februaryReport emptyWorld
  = (Ret tt,
     mkWorld ∅
       [EvInfo "out/sys-2024-02.csv: generating report";
        EvStat "out/sys-2024-02.csv";
        EvCreate "out/sys-2024-02.csv";
        EvQuery "user@/db" "SELECT a, b FROM t WHERE at BETWEEN ? AND ?"
          "2024-02-01 00:00:00" "2024-02-29 23:59:59";
        EvError "out/sys-2024-02.csv: cannot generate report: cannot scan query: sql: Scan error: converting NULL to string is unsupported";
        EvClose "out/sys-2024-02.csv";
        EvRemove "out/sys-2024-02.csv"]).
Proof.
  pose (E := quietEnv UTC [[Some "a"; None]]).
  pose (w1 := (exists_ E februaryReport (atExistenceTest februaryReport emptyWorld)).2).
  pose (w2 := (os_Create E (fname februaryReport) w1).2).
  pose (res := write E sampleReporter (fname februaryReport) februaryReport w2).
  destruct (generate_removes_partial_file E sampleReporter februaryReport emptyWorld
              w1 (fname februaryReport) w2
              (Errorf "cannot scan query: "
                 (mkError ErrOther
                    "sql: Scan error: converting NULL to string is unsupported"))
              res.2) as [H _].
  - vm_compute. reflexivity.
  - vm_compute. reflexivity.
  - vm_compute. reflexivity.
  - reflexivity.
  - etransitivity; [exact H|]. vm_compute. reflexivity.
Defined.

(** When the file was created, [write] fails and the removal fails too,
    [generate] says so in the error log and returns: the partial file stays,
    with what [write] left in it. *)
Theorem generate_leaves_partial_file E r rep w w1 f w2 err w3 e2 :
  exists_ E rep (atExistenceTest rep w) = (Ret false, w1) ->
  os_Create E (fname rep) w1 = (Ret (inr f), w2) ->
  write E r f rep w2 = (Ret (Some err), w3) ->
  remove_fault E (atRemoval rep err w3) (fname rep) = Some e2 ->
  generate E r rep w
  = (Ret tt,
     mkWorld (files w3)
       (trace w3
        ++ [EvError (fname rep +:+ ": cannot generate report: " +:+ emsg err);
            EvClose (fname rep); EvRemove (fname rep);
            EvError (fname rep
                     +:+ ": cannot removed partial report file, remove it manually: "
                     +:+ emsg e2)]))
  /\ is_Some (files (generate E r rep w).2 !! fname rep).
Proof.
  intros Hex Hcr Hwr Hrm.
  destruct (created_file_kept E r rep w1 f w2 _ w3 Hcr Hwr) as [-> Hc].
  assert (Hgen : generate E r rep w
                 = (Ret tt,
                    mkWorld (files w3)
                      (trace w3
                       ++ [EvError (fname rep +:+ ": cannot generate report: "
                                    +:+ emsg err);
                           EvClose (fname rep); EvRemove (fname rep);
                           EvError (fname rep
                             +:+ ": cannot removed partial report file, remove it manually: "
                             +:+ emsg e2)]))).
  { rewrite generate_unfold, (bind_Ret _ _ _ _ _ Hex). cbn iota.
    rewrite (bind_Ret _ _ _ _ _ Hcr). cbn iota.
    rewrite (bind_Ret _ _ _ _ _ Hwr). cbn iota.
    unfold removePartial, os_Remove, file_Close, err_Printf, String_.
    unfold bind, get, emit, ret, setFiles. cbn.
    unfold atRemoval, logged in Hrm. cbn in Hrm. rewrite Hrm. cbn.
    rewrite <- !app_assoc. reflexivity. }
  split; [exact Hgen|]. rewrite Hgen. exact Hc.
Qed.

Lemma generate_leaves_partial_file_witness :
  exists w',
    generate (removeDeniedEnv UTC [[Some "a"; Some "b"]; [Some "c"; None]])
      sampleReporter februaryReport emptyWorld
    = (Ret tt, w')
    /\ files w' !! "out/sys-2024-02.csv" = Some (csvLine ["a"; "b"])
    /\ last (trace w')
       = Some (EvError "out/sys-2024-02.csv: cannot removed partial report file, remove it manually: remove out/sys-2024-02.csv: permission denied").
Proof.
  pose (E := removeDeniedEnv UTC [[Some "a"; Some "b"]; [Some "c"; None]]).
  pose (w1 := (exists_ E februaryReport (atExistenceTest februaryReport emptyWorld)).2).
  pose (w2 := (os_Create E (fname februaryReport) w1).2).
  pose (res := write E sampleReporter (fname februaryReport) februaryReport w2).
  destruct (generate_leaves_partial_file E sampleReporter februaryReport emptyWorld
              w1 (fname februaryReport) w2
              (Errorf "cannot scan query: "
                 (mkError ErrOther
                    "sql: Scan error: converting NULL to string is unsupported"))
              res.2 (EACCES "remove" (fname februaryReport))) as [H _].
  - vm_compute. reflexivity.
  - vm_compute. reflexivity.
  - vm_compute. reflexivity.
  - reflexivity.
  - eexists. split; [exact H|]. split; vm_compute; reflexivity.
Defined.

(** When the file cannot be created, [generate] logs that and returns: no
    query is issued, no file is touched. *)
Theorem generate_create_failure E r rep w w1 e w2 :
  exists_ E rep (atExistenceTest rep w) = (Ret false, w1) ->
  os_Create E (fname rep) w1 = (Ret (inl e), w2) ->
  generate E r rep w
  = (Ret tt,
     mkWorld (files w)
       (trace w
        ++ [EvInfo (fname rep +:+ ": generating report");
            EvStat (fname rep);
            EvCreate (fname rep);
            EvError (fname rep +:+ ": cannot create file")])).
Proof.
  intros Hex Hcr.
  rewrite generate_unfold, (bind_Ret _ _ _ _ _ Hex). cbn iota.
  rewrite (bind_Ret _ _ _ _ _ Hcr). cbn iota.
  rewrite (os_Create_inl _ _ _ _ _ Hcr), (exists_false_world _ _ _ _ Hex).
  unfold err_Printf, emit, logged, atExistenceTest, String_. cbn.
  rewrite <- !app_assoc. reflexivity.
Qed.

Lemma generate_create_failure_witness :
  generate (createDeniedEnv UTC sampleRows) sampleReporter februaryReport emptyWorld
  = (Ret tt,
     mkWorld ∅
       [EvInfo "out/sys-2024-02.csv: generating report";
        EvStat "out/sys-2024-02.csv";
        EvCreate "out/sys-2024-02.csv";
        EvError "out/sys-2024-02.csv: cannot create file"]).
Proof.
  pose (E := createDeniedEnv UTC sampleRows).
  pose (w1 := (exists_ E februaryReport (atExistenceTest februaryReport emptyWorld)).2).
  pose (w2 := (os_Create E (fname februaryReport) w1).2).
  etransitivity.
  - apply (generate_create_failure E sampleReporter februaryReport emptyWorld
             w1 (EACCES "open" (fname februaryReport)) w2).
    + vm_compute. reflexivity.
    + vm_compute. reflexivity.
  - vm_compute. reflexivity.
Defined.

Lemma written_files f ls : forall w c,
  files w !! f = Some c ->
  files (written f ls w) = <[f := c +:+ joined ls]> (files w).
Proof.
  induction ls as [|l ls IH]; intros w c Hc; cbn [written joined foldr].
  - rewrite append_nil_r. symmetry. now apply insert_id.
  - rewrite (IH _ (c +:+ l)).
    + cbn [files]. rewrite insert_insert_eq. now rewrite append_assoc.
    + cbn [files]. unfold contents. rewrite Hc. cbn. apply lookup_insert_eq.
Qed.

(** A run of [generate] in which nothing fails. *)
Lemma generate_run E r rep vals w :
  faultless E (fname rep) -> answers E r rep vals ->
  Forall (fun v => length v = Z.to_nat (nassoc r)) vals -> 0 <= nassoc r ->
  files w !! fname rep = None ->
  generate E r rep w
  = (Ret tt,
     mkWorld (<[fname rep := joined (csvLine <$> vals)]> (files w))
       (trace w ++ generationEvents r rep (csvLine <$> vals))).
Proof.
  intros (Hst & Hcr & Hwr & Hcl) Hq Hvals Hn Habs.
  set (p := fname rep) in *.
  rewrite generate_unfold.
  assert (Hex : exists_ E rep (atExistenceTest rep w)
                = (Ret false, logged (EvStat p) (atExistenceTest rep w))).
  { unfold exists_, os_Stat, bind, get, emit, ret. cbn. fold p.
    rewrite Hst, Habs. reflexivity. }
  rewrite (bind_Ret _ _ _ _ _ Hex). cbn iota.
  set (w1 := logged (EvStat p) (atExistenceTest rep w)).
  assert (Hcreate : os_Create E p w1
                    = (Ret (inr p),
                       mkWorld (<[p := ""]> (files w1)) (trace w1 ++ [EvCreate p]))).
  { unfold os_Create, bind, get, emit, ret, setFiles. cbn. now rewrite Hcr. }
  fold p. rewrite (bind_Ret _ _ _ _ _ Hcreate). cbn iota.
  set (w2 := mkWorld (<[p := ""]> (files w1)) (trace w1 ++ [EvCreate p])).
  set (w2' := logged (EvQuery (db r) (query r) (Format (start rep))
                        (Format (end_ rep))) w2).
  assert (Hwrite : write E r p rep w2
                   = (Ret None, written p (csvLines vals) w2')).
  { unfold write, rows, db_Query. unfold bind at 1. unfold bind, get, emit, ret.
    cbn. rewrite Hq. unfold extract.
    destruct (Z.ltb_spec (nassoc r) 0); [lia|].
    destruct (extract_loop_text E p (Z.to_nat (nassoc r)) vals [] Hwr Hvals
                (replicate (Z.to_nat (nassoc r)) "") "" w2')
      as (assoc' & buf' & _ & Heq); [apply length_replicate|].
    rewrite app_nil_r in Heq. exact Heq. }
  rewrite (bind_Ret _ _ _ _ _ Hwrite). cbn iota.
  assert (Hclose : file_Close E p (written p (csvLines vals) w2')
                   = (Ret None, logged (EvClose p) (written p (csvLines vals) w2'))).
  { rewrite file_Close_eq, Hcl. reflexivity. }
  rewrite (bind_Ret _ _ _ _ _ Hclose). cbn iota.
  unfold ret, logged. f_equal. f_equal.
  - rewrite (written_files p (csvLines vals) w2' "").
    + subst w2' w2 w1. cbn. now rewrite insert_insert_eq.
    + subst w2' w2. cbn. apply lookup_insert_eq.
  - rewrite written_trace. subst w2' w2 w1. unfold generationEvents, csvLines.
    cbn. rewrite <- !app_assoc. reflexivity.
Qed.

(** Where nothing fails and the file is absent, [generate] creates it and
    leaves in it the lines of the rows of the query, in the order of the
    rows; it issues one query, for the window of the report, and touches no
    other file. *)
Theorem generate_writes_report E r rep vals w :
  faultless E (fname rep) -> answers E r rep vals ->
  Forall (fun v => length v = Z.to_nat (nassoc r)) vals -> 0 <= nassoc r ->
  files w !! fname rep = None ->
  generate E r rep w
  = (Ret tt,
     mkWorld (<[fname rep := joined (csvLine <$> vals)]> (files w))
       (trace w ++ generationEvents r rep (csvLine <$> vals)))
  /\ files (generate E r rep w).2 !! fname rep = Some (joined (csvLine <$> vals))
  /\ (forall p, p <> fname rep ->
        files (generate E r rep w).2 !! p = files w !! p).
Proof.
  intros Hf Hq Hvals Hn Habs.
  pose proof (generate_run E r rep vals w Hf Hq Hvals Hn Habs) as Hgen.
  split; [exact Hgen|]. rewrite Hgen. cbn [snd files]. split.
  - apply lookup_insert_eq.
  - intros p Hp. now apply lookup_insert_ne.
Qed.

Lemma generate_writes_report_witness :
  generate (quietEnv UTC (textRow <$> [["a"; "b"]; ["c"; "d"]])) sampleReporter
    februaryReport emptyWorld
  = (Ret tt,
     mkWorld {[ "out/sys-2024-02.csv" := csvLine ["a"; "b"] +:+ csvLine ["c"; "d"] ]}
       [EvInfo "out/sys-2024-02.csv: generating report";
        EvStat "out/sys-2024-02.csv";
        EvCreate "out/sys-2024-02.csv";
        EvQuery "user@/db" "SELECT a, b FROM t WHERE at BETWEEN ? AND ?"
          "2024-02-01 00:00:00" "2024-02-29 23:59:59";
        EvWrite "out/sys-2024-02.csv" (csvLine ["a"; "b"]);
        EvWrite "out/sys-2024-02.csv" (csvLine ["c"; "d"]);
        EvClose "out/sys-2024-02.csv"]).
Proof.
  destruct (generate_writes_report
              (quietEnv UTC (textRow <$> [["a"; "b"]; ["c"; "d"]])) sampleReporter
              februaryReport [["a"; "b"]; ["c"; "d"]] emptyWorld) as [H _].
  - repeat split.
  - intros w. reflexivity.
  - repeat constructor.
  - cbn. lia.
  - reflexivity.
  - etransitivity; [exact H|]. vm_compute. reflexivity.
Defined.

(** Generation is idempotent: where nothing fails, a second run of
    [generate] for the same report finds the file of the first run and skips;
    it changes no file and issues no query. *)
Theorem generate_twice E r rep vals w :
  faultless E (fname rep) -> answers E r rep vals ->
  Forall (fun v => length v = Z.to_nat (nassoc r)) vals -> 0 <= nassoc r ->
  files w !! fname rep = None ->
  (do_ generate E r rep; generate E r rep) w
  = (Ret tt,
     mkWorld (<[fname rep := joined (csvLine <$> vals)]> (files w))
       (trace w ++ generationEvents r rep (csvLine <$> vals) ++ skipEvents rep))
  /\ files ((do_ generate E r rep; generate E r rep) w).2
     = files (generate E r rep w).2.
Proof.
  intros Hf Hq Hvals Hn Habs.
  pose proof (generate_run E r rep vals w Hf Hq Hvals Hn Habs) as Hgen.
  destruct Hf as (Hst & _).
  set (w' := mkWorld (<[fname rep := joined (csvLine <$> vals)]> (files w))
               (trace w ++ generationEvents r rep (csvLine <$> vals))) in *.
  assert (Hex : exists_ E rep (atExistenceTest rep w')
                = (Ret true, logged (EvStat (fname rep)) (atExistenceTest rep w'))).
  { unfold exists_, os_Stat, bind, get, emit, ret. cbn.
    rewrite Hst, lookup_insert_eq. reflexivity. }
  assert (Hsnd : generate E r rep w'
                 = (Ret tt,
                    mkWorld (files w')
                      (trace w' ++ skipEvents rep))).
  { rewrite generate_unfold, (bind_Ret _ _ _ _ _ Hex).
    unfold info_Printf, emit, logged, atExistenceTest, skipEvents, String_. cbn.
    rewrite <- !app_assoc. reflexivity. }
  assert (Hboth : (do_ generate E r rep; generate E r rep) w
                  = (Ret tt, mkWorld (files w') (trace w' ++ skipEvents rep))).
  { rewrite (bind_Ret _ _ _ _ _ Hgen). exact Hsnd. }
  split.
  - rewrite Hboth. subst w'. cbn. now rewrite <- app_assoc.
  - rewrite Hboth, Hgen. reflexivity.
Qed.

Lemma generate_twice_witness :
  files ((do_ generate (quietEnv UTC sampleRows) sampleReporter februaryReport;
          generate (quietEnv UTC sampleRows) sampleReporter februaryReport)
           emptyWorld).2
  = {[ "out/sys-2024-02.csv" := csvLine ["a"; "b"] +:+ csvLine ["c"; "d"] ]}.
Proof.
  destruct (generate_twice (quietEnv UTC sampleRows) sampleReporter februaryReport
              [["a"; "b"]; ["c"; "d"]] emptyWorld) as [H _].
  - repeat split.
  - intros w. reflexivity.
  - repeat constructor.
  - cbn. lia.
  - reflexivity.
  - rewrite H. vm_compute. reflexivity.
Defined.

End CleanupFacts.

(** ** What generation and tasks leave alone *)
Module FrameFacts.
Import GoTime GoStrings Csv Os OsNotations Sys T3rep Scenarios Terms.
Import CsvFacts GenerateFacts ExtractFacts CleanupFacts.

Lemma sameAt_refl p w : sameAt p w w.
Proof. reflexivity. Qed.

Lemma sameAt_trans p w1 w2 w3 : sameAt p w1 w2 -> sameAt p w2 w3 -> sameAt p w1 w3.
Proof. unfold sameAt. congruence. Qed.

Lemma sameAt_emit p ev : respects (sameAt p) (emit ev).
Proof. intros w. reflexivity. Qed.

Lemma sameAt_os_Stat E p q : respects (sameAt p) (os_Stat E q).
Proof.
  intros w. destruct (os_Stat_returns E q w) as [err ->]. reflexivity.
Qed.

Lemma sameAt_os_Create E p q : p <> q -> respects (sameAt p) (os_Create E q).
Proof.
  intros Hne w. unfold sameAt, os_Create, bind, get, emit, ret, setFiles. cbn.
  destruct (create_fault E w q); cbn; [reflexivity|]. now apply lookup_insert_ne.
Qed.

Lemma sameAt_file_Write E p f data : p <> f -> respects (sameAt p) (file_Write E f data).
Proof.
  intros Hne w. unfold sameAt, file_Write, bind, get, emit, ret, setFiles. cbn.
  destruct (write_fault E w f data); cbn; [reflexivity|]. now apply lookup_insert_ne.
Qed.

Lemma sameAt_os_Remove E p q : p <> q -> respects (sameAt p) (os_Remove E q).
Proof.
  intros Hne w. unfold sameAt, os_Remove, bind, get, emit, ret, setFiles. cbn.
  destruct (remove_fault E w q); cbn; [reflexivity|].
  destruct (files w !! q); cbn; [|reflexivity]. now apply lookup_delete_ne.
Qed.

(** [write] for a relation that the writes to its own sink respect. *)
Section WriteToSink.
Variable R : world -> world -> Prop.
Hypothesis R_refl : forall w, R w w.
Hypothesis R_trans : forall w1 w2 w3, R w1 w2 -> R w2 w3 -> R w1 w3.
Variable E : env.
Variable f : string.
Hypothesis Hquery : forall db q a b, respects R (db_Query E db q a b).
Hypothesis Hwrite : forall data, respects R (file_Write E f data).

Lemma extract_loop_sink rs : forall assoc buf,
  respects R (extract_loop E f rs assoc buf).
Proof.
  induction rs as [|r rs IH]; intros assoc buf; cbn [extract_loop].
  - apply respects_ret, R_refl.
  - destruct (Scan r assoc) as [err | assoc']; [apply respects_ret, R_refl|].
    destruct (formatCSV buf assoc') as [buf' line].
    apply respects_bind; [exact R_trans | apply Hwrite |].
    intros [err|]; [apply respects_ret, R_refl | apply IH].
Qed.

Lemma write_sink r rep : respects R (write E r f rep).
Proof.
  unfold write, rows.
  apply respects_bind; [exact R_trans | apply Hquery |].
  intros [err | rs]; [apply respects_ret, R_refl|].
  unfold extract. destruct (nassoc r <? 0).
  - apply respects_panic, R_refl.
  - apply extract_loop_sink.
Qed.

End WriteToSink.

Lemma sameAt_write E r p f rep : p <> f -> respects (sameAt p) (write E r f rep).
Proof.
  intros Hne. apply write_sink.
  - apply sameAt_refl.
  - apply sameAt_trans.
  - intros d q a b w. reflexivity.
  - intros data. now apply sameAt_file_Write.
Qed.

(** After [os.Create] the handle is the path. *)
Lemma respects_bind_create R E q {B} (k : error + string -> M B) :
  (forall w1 w2 w3, R w1 w2 -> R w2 w3 -> R w1 w3) ->
  respects R (os_Create E q) ->
  (forall e, respects R (k (inl e))) ->
  respects R (k (inr q)) ->
  respects R (bind (os_Create E q) k).
Proof.
  intros Htrans Hc Hl Hr w. unfold bind. specialize (Hc w).
  destruct (os_Create E q w) as [[[e | f] | c | msg] w'] eqn:Hcr; cbn in *;
    try assumption.
  - eapply Htrans; [exact Hc | apply Hl].
  - destruct (os_Create_inr _ _ _ _ _ Hcr) as [-> _].
    eapply Htrans; [exact Hc | apply Hr].
Qed.

Lemma sameAt_generate E r rep p :
  p <> fname rep -> respects (sameAt p) (generate E r rep).
Proof.
  intros Hne. unfold generate, exists_, removePartial, info_Printf, err_Printf,
    err_Fatalf, String_.
  apply respects_bind; [apply sameAt_trans | apply sameAt_emit | intros _].
  apply respects_bind; [apply sameAt_trans | | intros [|]].
  { apply respects_bind; [apply sameAt_trans | apply sameAt_os_Stat |].
    intros err. apply respects_ret, sameAt_refl. }
  { apply sameAt_emit. }
  apply respects_bind_create;
    [apply sameAt_trans | now apply sameAt_os_Create | intros e; apply sameAt_emit |].
  pose proof (sameAt_os_Remove E p (fname rep) Hne) as Hrm.
  pose proof (sameAt_write E r p (fname rep) rep Hne) as Hwr.
  repeat first
    [ apply sameAt_emit
    | exact Hrm
    | exact Hwr
    | (intros w; reflexivity)
    | respects_step (sameAt_refl p) (sameAt_trans p) ].
Qed.

(** [generate] touches no file but the one of its report, whatever fails
    and however it ends: apart from that file, the files after are the files
    before. *)
Theorem generate_touches_only_its_file E r rep w :
  delete (fname rep) (files (generate E r rep w).2) = delete (fname rep) (files w)
  /\ forall p, p <> fname rep -> files (generate E r rep w).2 !! p = files w !! p.
Proof.
  assert (H : forall p, p <> fname rep ->
                files (generate E r rep w).2 !! p = files w !! p).
  { intros p Hne. exact (sameAt_generate E r rep p Hne w). }
  split; [|exact H].
  apply map_eq. intros p. destruct (decide (p = fname rep)) as [->|Hne].
  - now rewrite !lookup_delete_eq.
  - rewrite !lookup_delete_ne by congruence. now apply H.
Qed.

Lemma generate_touches_only_its_file_witness :
  files (generate (quietEnv UTC sampleRows) sampleReporter februaryReport
           (mkWorld {[ "out/other.csv" := "kept" ]} [])).2 !! "out/other.csv"
  = Some "kept".
Proof.
  destruct (generate_touches_only_its_file (quietEnv UTC sampleRows) sampleReporter
              februaryReport (mkWorld {[ "out/other.csv" := "kept" ]} []))
    as [_ H].
  rewrite H.
  - reflexivity.
  - vm_compute. discriminate.
Defined.

Lemma sameAt_generate_all E r reps p :
  Forall (fun rep => fname rep <> p) reps ->
  respects (sameAt p) (generate_all E r reps).
Proof.
  intros Hall. induction Hall as [|rep reps Hrep Hall IH]; cbn [generate_all].
  - apply respects_ret, sameAt_refl.
  - apply respects_bind; [apply sameAt_trans | | intros _; exact IH].
    apply sameAt_generate. congruence.
Qed.

(** A task touches no file but those of its reports, whatever fails and
    however it ends. *)
Theorem exec_touches_only_report_files E tk w p :
  (forall reps, reports E tk = Ret reps -> Forall (fun rep => fname rep <> p) reps) ->
  files (exec E tk w).2 !! p = files w !! p.
Proof.
  intros Hreps.
  assert (H : respects (sameAt p) (exec E tk)); [|exact (H w)].
  unfold exec, sql_Open, db_Close.
  apply respects_bind; [apply sameAt_trans | | intros [err | db]].
  - repeat first
      [ apply sameAt_emit
      | respects_step (sameAt_refl p) (sameAt_trans p) ].
  - apply respects_ret, sameAt_refl.
  - apply respects_defer;
      [apply sameAt_refl | apply sameAt_trans | apply sameAt_emit |].
    unfold lift. intros w'. unfold bind at 1.
    destruct (reports E tk) as [reps | c | msg] eqn:Hr; [|reflexivity|reflexivity].
    apply (respects_bind (sameAt p)); [apply sameAt_trans | | intros _].
    + apply sameAt_generate_all. now apply Hreps.
    + apply respects_ret, sameAt_refl.
Qed.

Lemma exec_touches_only_report_files_witness :
  files (exec (quietEnv UTC sampleRows) (sampleTask march2024 2)
           (mkWorld {[ "out/other.csv" := "kept" ]} [])).2 !! "out/other.csv"
  = Some "kept".
Proof.
  rewrite (exec_touches_only_report_files (quietEnv UTC sampleRows)
             (sampleTask march2024 2) (mkWorld {[ "out/other.csv" := "kept" ]} [])
             "out/other.csv").
  - reflexivity.
  - intros reps Hr. vm_compute in Hr. injection Hr as <-.
    repeat constructor; vm_compute; discriminate.
Defined.

(** *** The connection of a task *)
Lemma notDB_generate E r rep : respects (adds notDB) (generate E r rep).
Proof.
  unfold generate, exists_, removePartial, info_Printf, err_Printf, err_Fatalf.
  repeat first
    [ apply adds_setFiles
    | apply adds_emit; exact I
    | apply adds_os_Stat; exact I
    | apply adds_os_Create; exact I
    | apply adds_file_Close; exact I
    | apply adds_os_Remove; exact I
    | apply adds_write; intros; exact I
    | respects_step (adds_refl notDB) (adds_trans notDB) ].
Qed.

Lemma notDB_generate_all E r reps : respects (adds notDB) (generate_all E r reps).
Proof.
  induction reps as [|rep reps IH]; cbn [generate_all].
  - apply respects_ret, adds_refl.
  - apply respects_bind; [apply adds_trans | apply notDB_generate | intros _; exact IH].
Qed.

(** The events of [write]: the query on the connection of the reporter and
    the writes to the sink. *)
Lemma adds_write_own (P : event -> Prop) E r f rep :
  (forall a b, P (EvQuery (db r) (query r) a b)) ->
  (forall data, P (EvWrite f data)) ->
  respects (adds P) (write E r f rep).
Proof.
  intros Hq Hw. unfold write, rows.
  apply respects_bind; [apply adds_trans | apply adds_db_Query, Hq |].
  intros [err | rs]; [apply respects_ret, adds_refl|].
  unfold extract. destruct (nassoc r <? 0); [apply respects_panic, adds_refl|].
  apply extract_loop_sink; [apply adds_refl | apply adds_trans |].
  intros data. apply adds_file_Write, Hw.
Qed.

Lemma usesOnly_generate E r rep :
  respects (adds (usesOnly (db r))) (generate E r rep).
Proof.
  unfold generate, exists_, removePartial, info_Printf, err_Printf, err_Fatalf.
  repeat first
    [ apply adds_setFiles
    | apply adds_emit; exact I
    | apply adds_os_Stat; exact I
    | apply adds_os_Create; exact I
    | apply adds_file_Close; exact I
    | apply adds_os_Remove; exact I
    | apply adds_write_own; intros; [reflexivity | exact I]
    | respects_step (adds_refl (usesOnly (db r))) (adds_trans (usesOnly (db r))) ].
Qed.

Lemma usesOnly_generate_all E r reps :
  respects (adds (usesOnly (db r))) (generate_all E r reps).
Proof.
  induction reps as [|rep reps IH]; cbn [generate_all].
  - apply respects_ret, adds_refl.
  - apply respects_bind; [apply adds_trans | apply usesOnly_generate | intros _; exact IH].
Qed.

(** A task whose connection opens closes it once, as the last thing it does,
    whether it returns or panics.  Between the open and the close it opens
    and closes no connection, and every query it issues is a query on that
    connection; its other events are those of the file system and the logs.
    Only when the process exits inside a report is the connection not
    closed. *)
Theorem exec_closes_connection E tk w db w1 :
  sql_Open E (dsn tk) w = (Ret (inr db), w1) ->
  exists evs,
    Forall (usesOnly db) evs
    /\ match (exec E tk w).1 with
       | Exit _ =>
           eventsSince w (exec E tk w).2 = EvOpenDB (dsn tk) :: evs
       | _ =>
           eventsSince w (exec E tk w).2
           = EvOpenDB (dsn tk) :: evs ++ [EvCloseDB db]
       end.
Proof.
  intros Hop.
  assert (Hw1 : db = dsn tk /\ w1 = logged (EvOpenDB (dsn tk)) w).
  { unfold sql_Open, bind, get, emit, ret in Hop. cbn in Hop.
    destruct (open_fault E w (dsn tk)); cbn in Hop; [discriminate|].
    injection Hop as <- <-. split; reflexivity. }
  destruct Hw1 as [-> ->].
  unfold exec. rewrite (bind_Ret _ _ _ _ _ Hop). cbn iota. unfold defer.
  set (b := (do reps <- lift (reports E tk);
             do_ generate_all E (newReporter (dsn tk) (tquery tk) (fields tk)) reps;
             ret None)).
  set (w0' := logged (EvOpenDB (dsn tk)) w).
  assert (Hb : adds (usesOnly (dsn tk)) w0' (b w0').2).
  { subst b. unfold lift.
    apply (respects_bind (adds (usesOnly (dsn tk)))); [apply adds_trans | | intros reps].
    - intros w'. apply adds_refl.
    - apply respects_bind; [apply adds_trans | |].
      + apply (usesOnly_generate_all E (newReporter (dsn tk) (tquery tk) (fields tk))).
      + intros _. apply respects_ret, adds_refl. }
  destruct Hb as (evs & Htr & Hevs). exists evs. split; [exact Hevs|].
  unfold eventsSince.
  destruct (b w0') as [[a | c | msg] w2]; cbn [fst snd] in *.
  - unfold db_Close, bind, emit, ret. cbn. rewrite Htr. subst w0'. cbn.
    rewrite <- !app_assoc. now rewrite drop_app_length.
  - rewrite Htr. subst w0'. cbn. rewrite <- !app_assoc. now rewrite drop_app_length.
  - unfold db_Close, bind, emit, panic. cbn. rewrite Htr. subst w0'. cbn.
    rewrite <- !app_assoc. now rewrite drop_app_length.
Qed.

Lemma exec_closes_connection_witness :
  eventsSince emptyWorld
    (exec (quietEnv UTC sampleRows) (sampleTask march2024 1) emptyWorld).2
  = [EvOpenDB "user@/db";
     EvInfo "out/sys-2024-02.csv: generating report";
     EvStat "out/sys-2024-02.csv";
     EvCreate "out/sys-2024-02.csv";
     EvQuery "user@/db" "SELECT a, b FROM t WHERE at BETWEEN ? AND ?"
       "2024-02-01 00:00:00" "2024-02-29 23:59:59";
     EvWrite "out/sys-2024-02.csv" (csvLine ["a"; "b"]);
     EvWrite "out/sys-2024-02.csv" (csvLine ["c"; "d"]);
     EvClose "out/sys-2024-02.csv";
     EvCloseDB "user@/db"]
  /\ eventsSince emptyWorld
       (exec (quietEnv UTC sampleRows) (sampleTask march2024 (-1)) emptyWorld).2
     = [EvOpenDB "user@/db"; EvCloseDB "user@/db"]
  /\ (exec (quietEnv UTC sampleRows) (sampleTask march2024 (-1)) emptyWorld).1
     = Panic "makeslice: len out of range".
Proof.
  destruct (exec_closes_connection (quietEnv UTC sampleRows)
              (sampleTask march2024 (-1)) emptyWorld "user@/db"
              (logged (EvOpenDB "user@/db") emptyWorld)) as (evs & _ & _).
  - reflexivity.
  - split; [|split]; vm_compute; reflexivity.
Defined.

End FrameFacts.

(** ** Runs of the dispatcher *)
Module RunFacts.
Import GoTime Os Sys T3rep Scenarios Dispatch Terms RunTerms GenerateFacts DispatchFacts
  MainFacts.

Lemma order_length cf (order : list (string * string)) :
  order ≡ₚ map_to_list (Systems cf) -> length order = nsys cf.
Proof.
  intros Hperm. unfold nsys. rewrite (Permutation_length Hperm).
  apply length_map_to_list.
Qed.

(** Without a system [run] spawns nothing and returns at once, whatever the
    capacity of the gate, an unbuffered gate included: every state it reaches
    is one of three, none has a worker or an effect, the main goroutine can
    always take a step until it has returned, and two steps of it return. *)
Theorem run_without_systems E cf now cap order w0 s :
  Systems cf = ∅ ->
  order ≡ₚ map_to_list (Systems cf) ->
  rtc (step E cf now cap) (init order w0) s ->
  (s = init [] w0
   \/ s = mkState (MRecv 0) [] 0 [] w0 false
   \/ s = returnedAtOnce w0)
  /\ (final s = false -> exists s', fire E cf now cap AMain s = Some s')
  /\ fireAll E cf now cap [AMain; AMain] (init order w0) = Some (returnedAtOnce w0).
Proof.
  intros Hcf Hperm Hr.
  assert (Hn : nsys cf = 0%nat) by (unfold nsys; rewrite Hcf; apply map_size_empty).
  assert (Ho : order = []).
  { rewrite Hcf, map_to_list_empty in Hperm. now apply Permutation_nil_r. }
  subst order.
  assert (H3 : s = init [] w0 \/ s = mkState (MRecv 0) [] 0 [] w0 false
               \/ s = returnedAtOnce w0).
  { revert s Hr. apply rtc_ind_r; [now left|].
    intros s1 s2 _ [a Hs] H1. unfold fire, fireMain, fireWork, pcAt in Hs.
    destruct H1 as [-> | [-> | ->]]; cbn in Hs; rewrite ?Hn in Hs; cbn in Hs;
      destruct a; cbn in Hs; try discriminate;
      try (injection Hs as <-); auto.
    all: destruct cap; discriminate. }
  split; [exact H3|]. split.
  - intros Hfin. unfold fire, fireMain.
    destruct H3 as [-> | [-> | ->]]; cbn; rewrite ?Hn; cbn; eauto.
    discriminate Hfin.
  - unfold fireAll, fire, fireMain. cbn. rewrite Hn. reflexivity.
Qed.

Lemma run_without_systems_witness :
  fireAll (quietEnv UTC sampleRows) noSystems march2024 0 [AMain; AMain]
    (init [] emptyWorld) = Some (returnedAtOnce emptyWorld).
Proof.
  destruct (run_without_systems (quietEnv UTC sampleRows) noSystems march2024 0
              [] emptyWorld (init [] emptyWorld)) as (_ & _ & H).
  - reflexivity.
  - reflexivity.
  - apply rtc_refl.
  - exact H.
Defined.

(** *** The unbuffered gate *)
Lemma spawn_all E cf now cap : forall l s,
  mainpc s = MSpawn l -> dead s = false ->
  exists s',
    fireAll E cf now cap (replicate (S (length l)) AMain) s = Some s'
    /\ mainpc s' = MRecv 0.
Proof.
  induction l as [|[name dsn] l IH]; intros s Hm Hd.
  - eexists. cbn. unfold fire, fireMain. rewrite Hd, Hm. split; reflexivity.
  - cbn [length replicate fireAll]. unfold fire at 1, fireMain. rewrite Hd, Hm.
    apply IH; reflexivity.
Qed.

(** With an unbuffered gate and one system at least [run] never returns and
    no task ever runs: in every state it reaches the world is as it was,
    every worker waits at the gate, only the main goroutine can take a step,
    and once it has spawned the workers that are left nothing can. *)
Theorem unbuffered_gate_never_returns E cf now order w0 s :
  (0 < nsys cf)%nat ->
  rtc (step E cf now 0) (init order w0) s ->
  wld s = w0
  /\ Forall (fun w => pc w = WAcquire) (workers s)
  /\ final s = false
  /\ (forall a s', fire E cf now 0 a s = Some s' -> a = AMain)
  /\ exists n s',
       fireAll E cf now 0 (replicate n AMain) s = Some s'
       /\ final s' = false
       /\ forall a, fire E cf now 0 a s' = None.
Proof.
  intros Hn Hr.
  destruct (unbuffered_gate_blocks E cf now order w0 s Hn Hr)
    as (Hws & Hq & Hm & Hw & Hd).
  assert (Hpc : forall k w, workers s !! k = Some w -> pc w = WAcquire).
  { intros k w Hk. exact (Forall_lookup_1 _ _ _ _ Hws Hk). }
  split; [exact Hw|]. split; [exact Hws|]. split; [|split].
  - unfold final. rewrite Hd. now destruct Hm as [[l ->] | ->].
  - intros a s' Hf. destruct a as [|k|k|k|k|k j]; [reflexivity|..]; exfalso;
      unfold fire, fireWork, pcAt in Hf; rewrite Hd in Hf.
    + destruct (workers s !! k) as [w|] eqn:Hk; cbn in Hf; [|discriminate].
      rewrite (Hpc _ _ Hk) in Hf. discriminate.
    + destruct (workers s !! k) as [w|] eqn:Hk; [|discriminate].
      rewrite (Hpc _ _ Hk) in Hf. discriminate.
    + destruct (workers s !! k) as [w|] eqn:Hk; cbn in Hf; [|discriminate].
      rewrite (Hpc _ _ Hk) in Hf. discriminate.
    + destruct (workers s !! k) as [w|] eqn:Hk; cbn in Hf; [|discriminate].
      rewrite (Hpc _ _ Hk) in Hf. discriminate.
    + destruct (workers s !! k) as [w|] eqn:Hk; cbn in Hf; [|discriminate].
      rewrite (Hpc _ _ Hk) in Hf.
      destruct (workers s !! j) as [w'|] eqn:Hj; cbn in Hf; [|discriminate].
      rewrite (Hpc _ _ Hj) in Hf. discriminate.
  - assert (Hs' : exists n s',
              fireAll E cf now 0 (replicate n AMain) s = Some s'
              /\ mainpc s' = MRecv 0).
    { destruct Hm as [[l Hm] | Hm].
      - destruct (spawn_all E cf now 0 l s Hm Hd) as (s' & Hf & Hm').
        exists (S (length l)), s'. split; assumption.
      - exists 0%nat, s. split; [reflexivity | exact Hm]. }
    destruct Hs' as (n & s' & Hf & Hm'). exists n, s'. split; [exact Hf|].
    apply (unbuffered_gate_deadlocks E cf now order w0 s' Hn); [|exact Hm'].
    etransitivity; [exact Hr|]. exact (fireAll_rtc _ _ _ _ _ _ _ Hf).
Qed.

Lemma unbuffered_gate_never_returns_witness :
  exists s,
    fireAll (quietEnv UTC sampleRows) twoSystems march2024 0 [AMain]
      (init (map_to_list (Systems twoSystems)) emptyWorld) = Some s
    /\ wld s = emptyWorld
    /\ final s = false.
Proof.
  assert (Hs : exists s,
            fireAll (quietEnv UTC sampleRows) twoSystems march2024 0 [AMain]
              (init (map_to_list (Systems twoSystems)) emptyWorld) = Some s).
  { eexists. vm_compute. reflexivity. }
  destruct Hs as (s & Hs). exists s. split; [exact Hs|].
  destruct (unbuffered_gate_never_returns (quietEnv UTC sampleRows) twoSystems
              march2024 (map_to_list (Systems twoSystems)) emptyWorld s)
    as (Hw & _ & Hfin & _).
  - vm_compute. lia.
  - exact (fireAll_rtc _ _ _ _ _ _ _ Hs).
  - split; assumption.
Defined.

(** *** The channel of the results *)

(** A worker never waits to deliver its result: [errch] has room for the
    result of every system, so the send of a worker that has run its task can
    be taken in every state [run] reaches, whatever the capacity of the gate
    and whether or not the main goroutine receives. *)
Theorem result_send_never_blocks E cf now cap order w0 s k w err :
  order ≡ₚ map_to_list (Systems cf) ->
  rtc (step E cf now cap) (init order w0) s ->
  dead s = false ->
  workers s !! k = Some w -> pc w = WSend err ->
  (length (errch s) < nsys cf)%nat
  /\ fire E cf now cap (ASend k) s
     = Some (mkState (mainpc s) (setPc k WRelease (workers s)) (sem s)
               (errch s ++ [err]) (wld s) (dead s)).
Proof.
  intros Hperm Hr Hd Hk Hp.
  pose proof (order_length cf order Hperm) as Hlen.
  pose proof (reachable_Inv E cf now cap order w0 s ltac:(lia) Hr) as HI.
  assert (Hlt : (length (errch s) < nsys cf)%nat).
  { pose proof (inv_recv _ _ _ _ HI) as Hrecv.
    pose proof (workers_le cf cap order s HI) as Hw.
    assert (Hdl : delivered w = false) by (unfold delivered; now rewrite Hp).
    pose proof (count_member_lt delivered (workers s) k w Hk Hdl). lia. }
  split; [exact Hlt|].
  unfold fire, pcAt. rewrite Hd, Hk.
  change (pc <$> Some w) with (Some (pc w)). rewrite Hp.
  destruct (Nat.ltb_spec (length (errch s)) (nsys cf)); [reflexivity | lia].
Qed.

Lemma result_send_never_blocks_witness :
  exists s,
    fireAll (quietEnv UTC sampleRows) twoSystems march2024 1
      [AMain; AMain; AMain; AAcquire 0; AWork 0]
      (init (map_to_list (Systems twoSystems)) emptyWorld) = Some s
    /\ is_Some (fire (quietEnv UTC sampleRows) twoSystems march2024 1 (ASend 0) s).
Proof.
  assert (Hs : exists s w,
            fireAll (quietEnv UTC sampleRows) twoSystems march2024 1
              [AMain; AMain; AMain; AAcquire 0; AWork 0]
              (init (map_to_list (Systems twoSystems)) emptyWorld) = Some s
            /\ dead s = false
            /\ workers s !! 0%nat = Some w /\ pc w = WSend None).
  { eexists. eexists. split; [vm_compute; reflexivity|].
    split; [vm_compute; reflexivity|]. split; vm_compute; reflexivity. }
  destruct Hs as (s & w & Hs & Hd & Hw & Hp). exists s. split; [exact Hs|].
  destruct (result_send_never_blocks (quietEnv UTC sampleRows) twoSystems march2024
              1 (map_to_list (Systems twoSystems)) emptyWorld s 0 w None)
    as [_ H].
  - reflexivity.
  - exact (fireAll_rtc _ _ _ _ _ _ _ Hs).
  - exact Hd.
  - exact Hw.
  - exact Hp.
  - rewrite H. eexists. reflexivity.
Defined.

(** *** One task at a time *)
Lemma count_two f (ws : list worker) : forall k j wk wj,
  ws !! k = Some wk -> ws !! j = Some wj ->
  f wk = true -> f wj = true -> k <> j -> (2 <= count f ws)%nat.
Proof.
  induction ws as [|x ws IH]; intros k j wk wj Hk Hj Hfk Hfj Hne; [discriminate|].
  unfold count in *. cbn [sum_list_with].
  destruct k as [|k], j as [|j]; cbn in Hk, Hj.
  - congruence.
  - injection Hk as ->. rewrite Hfk.
    pose proof (count_member_pos f ws j wj Hj Hfj) as Hpos. unfold count in Hpos. lia.
  - injection Hj as ->. rewrite Hfj.
    pose proof (count_member_pos f ws k wk Hk Hfk) as Hpos. unfold count in Hpos. lia.
  - assert (Hne' : k <> j) by congruence.
    pose proof (IH k j wk wj Hk Hj Hfk Hfj Hne'). lia.
Qed.

(** Whatever positive number the parallelism flag holds, [main] makes a gate
    of one slot and [run] lets one task through at a time: in no state are
    two workers past the gate. *)
Theorem positive_flag_one_task_at_a_time E cf now parallel c order w0 s k j wk wj :
  0 < parallel ->
  gateCapacity parallel = Ret c ->
  order ≡ₚ map_to_list (Systems cf) ->
  rtc (step E cf now (Z.to_nat c)) (init order w0) s ->
  workers s !! k = Some wk -> holding wk = true ->
  workers s !! j = Some wj -> holding wj = true ->
  c = 1 /\ k = j.
Proof.
  intros Hpos Hc Hperm Hr Hk Hhk Hj Hhj.
  assert (Hc1 : c = 1).
  { unfold gateCapacity in Hc. destruct (Z.ltb_spec 0 parallel); [|lia].
    cbn in Hc. now injection Hc as <-. }
  split; [exact Hc1|]. subst c.
  pose proof (order_length cf order Hperm) as Hlen.
  destruct (gate_bound E cf now _ order w0 s ltac:(lia) Hr) as (_ & Hh & Hs).
  destruct (decide (k = j)) as [|Hne]; [assumption|].
  pose proof (count_two holding (workers s) k j wk wj Hk Hj Hhk Hhj Hne).
  change (Z.to_nat 1) with 1%nat in Hs. lia.
Qed.

Lemma positive_flag_one_task_at_a_time_witness :
  exists s w,
    fireAll (quietEnv UTC sampleRows) twoSystems march2024 1
      [AMain; AMain; AMain; AAcquire 1; AWork 1]
      (init (map_to_list (Systems twoSystems)) emptyWorld) = Some s
    /\ workers s !! 1%nat = Some w /\ holding w = true
    /\ forall j wj, workers s !! j = Some wj -> holding wj = true -> j = 1%nat.
Proof.
  assert (Hs : exists s w,
            fireAll (quietEnv UTC sampleRows) twoSystems march2024 1
              [AMain; AMain; AMain; AAcquire 1; AWork 1]
              (init (map_to_list (Systems twoSystems)) emptyWorld) = Some s
            /\ workers s !! 1%nat = Some w /\ holding w = true).
  { eexists. eexists. split; [vm_compute; reflexivity|].
    split; vm_compute; reflexivity. }
  destruct Hs as (s & w & Hs & Hw & Hh). exists s, w.
  split; [exact Hs|]. split; [exact Hw|]. split; [exact Hh|].
  intros j wj Hj Hhj.
  destruct (positive_flag_one_task_at_a_time (quietEnv UTC sampleRows) twoSystems
              march2024 4 1 (map_to_list (Systems twoSystems)) emptyWorld s
              j 1%nat wj w) as [_ H].
  - lia.
  - reflexivity.
  - reflexivity.
  - exact (fireAll_rtc _ _ _ _ _ _ _ Hs).
  - exact Hj.
  - exact Hhj.
  - exact Hw.
  - exact Hh.
  - exact H.
Defined.

(** *** One connection for each system *)
Lemma opened_app l l' : opened (l ++ l') = opened l ++ opened l'.
Proof. apply omap_app. Qed.

Lemma opened_notDB l : Forall notDB l -> opened l = [].
Proof.
  induction 1 as [|ev l Hev _ IH]; [reflexivity|].
  unfold opened in *. cbn. rewrite IH. now destruct ev.
Qed.

(** A task calls [sql.Open] once, with its connection string. *)
Lemma exec_opens_once E tk w :
  opened (trace (exec E tk w).2) = opened (trace w) ++ [dsn tk].
Proof.
  unfold exec, sql_Open, bind at 1, bind at 1, bind at 1, get, emit. cbn.
  destruct (open_fault E w (dsn tk)) as [e|].
  - cbn. now rewrite opened_app.
  - cbn. unfold defer.
    set (b := Os.bind _ _). set (w1 := mkWorld _ _).
    assert (Hb : adds notDB w1 (b w1).2).
    { subst b. unfold lift.
      apply (respects_bind (adds notDB)); [apply adds_trans | | intros reps].
      - intros w'. apply adds_refl.
      - apply respects_bind; [apply adds_trans | apply FrameFacts.notDB_generate_all |].
        intros _. apply respects_ret, adds_refl. }
    destruct Hb as (evs & Htr & Hevs).
    assert (Ho : opened (trace (b w1).2) = opened (trace w) ++ [dsn tk]).
    { rewrite Htr. subst w1. cbn. rewrite !opened_app, (opened_notDB _ Hevs).
      cbn. now rewrite app_nil_r. }
    destruct (b w1) as [[a | c | msg] w2]; cbn [fst snd] in *.
    + unfold db_Close, bind, emit, ret. cbn. rewrite opened_app, Ho. cbn.
      now rewrite app_nil_r.
    + exact Ho.
    + unfold db_Close, bind, emit, panic. cbn. rewrite opened_app, Ho. cbn.
      now rewrite app_nil_r.
Qed.

Lemma work_opens_once E tk w :
  opened (trace (work E tk w).2) = opened (trace w) ++ [dsn tk].
Proof.
  pose proof (exec_opens_once E tk w) as H. unfold work, bind.
  destruct (exec E tk w) as [[[e|] | c | msg] w']; exact H.
Qed.

Lemma ran_alter_same (h : worker -> worker) (ws : list worker) : forall k w,
  ws !! k = Some w -> ran (h w) = ran w -> wdsn (h w) = wdsn w ->
  wdsn <$> filter (fun w => ran w = true) (alter h k ws)
  = wdsn <$> filter (fun w => ran w = true) ws.
Proof.
  induction ws as [|x ws IH]; intros k w Hk Hr Hd; [discriminate|].
  destruct k as [|k]; cbn [alter list_alter]; cbn in Hk.
  - injection Hk as ->. rewrite !filter_cons, Hr.
    destruct (decide (ran w = true)); [|reflexivity].
    cbn. now rewrite Hd.
  - rewrite !filter_cons. specialize (IH k w Hk Hr Hd). cbn [alter] in IH.
    destruct (decide (ran x = true)); cbn; now rewrite IH.
Qed.

Lemma ran_alter_new (h : worker -> worker) (ws : list worker) : forall k w,
  ws !! k = Some w -> ran w = false -> ran (h w) = true -> wdsn (h w) = wdsn w ->
  wdsn <$> filter (fun w => ran w = true) (alter h k ws)
  ≡ₚ (wdsn <$> filter (fun w => ran w = true) ws) ++ [wdsn w].
Proof.
  induction ws as [|x ws IH]; intros k w Hk Hf Ht Hd; [discriminate|].
  destruct k as [|k]; cbn [alter list_alter]; cbn in Hk.
  - injection Hk as ->. rewrite !filter_cons.
    destruct (decide (ran (h w) = true)); [|congruence].
    destruct (decide (ran w = true)); [congruence|].
    cbn. rewrite Hd. apply Permutation_cons_append.
  - specialize (IH k w Hk Hf Ht Hd). cbn [alter] in IH. rewrite !filter_cons.
    destruct (decide (ran x = true)); cbn; [|exact IH].
    now rewrite IH.
Qed.

Lemma opened_steps E cf now cap w0 s s' :
  trans E cf now cap s s' ->
  opened (trace (wld s)) ≡ₚ opened (trace w0)
                             ++ (wdsn <$> filter (fun w => ran w = true) (workers s)) ->
  dead s' = false ->
  opened (trace (wld s')) ≡ₚ opened (trace w0)
                              ++ (wdsn <$> filter (fun w => ran w = true) (workers s')).
Proof.
  intros Ht HP Hd'.
  destruct Ht; cbn [workers wld dead] in *; try discriminate;
    unfold setPc, setRes.
  - rewrite filter_app, fmap_app. cbn. now rewrite app_nil_r.
  - exact HP.
  - destruct err as [e|]; cbn; [|exact HP]. now rewrite opened_app, app_nil_r.
  - exact HP.
  - rewrite (ran_alter_same _ _ k w); auto. unfold ran. cbn. now rewrite H0.
  - pose proof (work_opens_once E (newTask now (wname w) (wdsn w) cf) (wld s)) as Ho.
    rewrite H1 in Ho. cbn in Ho. rewrite Ho, HP.
    rewrite (ran_alter_new _ _ k w); auto.
    + now rewrite app_assoc.
    + unfold ran. now rewrite H0.
  - rewrite (ran_alter_same _ _ k w); auto. unfold ran. cbn. now rewrite H0.
  - rewrite (ran_alter_same _ _ k w); auto. unfold ran. cbn. now rewrite H0.
  - assert (Hj : alter (fun w => mkWorker (wname w) (wdsn w) WWork (wres w)) k (workers s)
                 !! j = Some wj).
    { rewrite list_lookup_alter_ne; [exact H2|]. intros ->. congruence. }
    rewrite (ran_alter_same _ _ j wj Hj); [| unfold ran; cbn; now rewrite H3 | reflexivity].
    rewrite (ran_alter_same _ _ k wk); auto. unfold ran. cbn. now rewrite H1.
Qed.

(** Every state [run] reaches in which the process is alive has one call of
    [sql.Open] for each worker that has run its task, with the connection
    string of its system, and no other; so when [run] has returned the
    connections opened during the run are those of the configured systems,
    each opened once. *)
Theorem each_system_opened_once E cf now cap order w0 s :
  order ≡ₚ map_to_list (Systems cf) ->
  rtc (step E cf now cap) (init order w0) s ->
  dead s = false ->
  opened (trace (wld s))
    ≡ₚ opened (trace w0) ++ (wdsn <$> filter (fun w => ran w = true) (workers s))
  /\ (mainpc s = MReturned ->
        opened (trace (wld s))
          ≡ₚ opened (trace w0) ++ (map_to_list (Systems cf)).*2).
Proof.
  intros Hperm Hr Hd.
  assert (HP : opened (trace (wld s))
                 ≡ₚ opened (trace w0)
                    ++ (wdsn <$> filter (fun w => ran w = true) (workers s))).
  { revert s Hr Hd. apply (rtc_ind_r (fun s => dead s = false -> _)).
    - intros _. cbn. now rewrite app_nil_r.
    - intros s1 s2 _ [a Hs] IH Hd2.
      destruct (fire_trans _ _ _ _ _ _ _ Hs) as [Hd1 Ht].
      exact (opened_steps E cf now cap w0 s1 s2 Ht (IH Hd1) Hd2). }
  split; [exact HP|]. intros Hm.
  pose proof (order_length cf order Hperm) as Hlen.
  pose proof (reachable_Inv E cf now cap order w0 s ltac:(lia) Hr) as HI.
  destruct (returned cf cap order s Hlen HI Hm) as (Hid & Hdel & _).
  rewrite HP. apply Permutation_app_head.
  assert (Hall : filter (fun w => ran w = true) (workers s) = workers s).
  { clear -Hdel. induction (workers s) as [|x ws IH]; [reflexivity|].
    apply Forall_cons in Hdel as [[Hx _] Hws]. rewrite filter_cons.
    destruct (decide (ran x = true)) as [|Hn]; [now rewrite (IH Hws)|].
    exfalso. apply Hn. unfold ran, delivered in *. now destruct (pc x). }
  rewrite Hall, <- Hperm, <- Hid, <- list_fmap_compose. reflexivity.
Qed.

Lemma each_system_opened_once_witness :
  exists s,
    fireAll (quietEnv UTC sampleRows) twoSystems march2024 1 oneByOne
      (init (map_to_list (Systems twoSystems)) emptyWorld) = Some s
    /\ opened (trace (wld s)) ≡ₚ ["user@/a"; "user@/b"].
Proof.
  assert (Hs : exists s,
            fireAll (quietEnv UTC sampleRows) twoSystems march2024 1 oneByOne
              (init (map_to_list (Systems twoSystems)) emptyWorld) = Some s
            /\ dead s = false /\ mainpc s = MReturned).
  { eexists. split; [vm_compute; reflexivity|]. split; vm_compute; reflexivity. }
  destruct Hs as (s & Hs & Hd & Hm). exists s. split; [exact Hs|].
  destruct (each_system_opened_once (quietEnv UTC sampleRows) twoSystems march2024
              1 (map_to_list (Systems twoSystems)) emptyWorld s) as [_ H].
  - reflexivity.
  - exact (fireAll_rtc _ _ _ _ _ _ _ Hs).
  - exact Hd.
  - exact (H Hm).
Defined.

End RunFacts.

(** ** The names of the report files *)
Module NameFacts.
Import GoTime GoStrings Os T3rep Scenarios NameTerms TimeFacts Windows CsvFacts.

Lemma sola_app (l l' : list ascii) :
  string_of_list_ascii (l ++ l')
  = string_of_list_ascii l +:+ string_of_list_ascii l'.
Proof.
  induction l as [|c l IH]; [reflexivity|].
  cbn [app string_of_list_ascii]. rewrite IH. reflexivity.
Qed.

Lemma hasSlash_app (a b : string) : hasSlash (a +:+ b) = hasSlash a || hasSlash b.
Proof.
  induction a as [|c a IH]; [reflexivity|].
  change (hasSlash (String c (a +:+ b)) = hasSlash (String c a) || hasSlash b).
  cbn [hasSlash]. rewrite IH. now rewrite orb_assoc.
Qed.

(** A string without a slash is one element. *)
Lemma splitSlash_element (T : string) : forall cur,
  hasSlash T = false ->
  splitSlash T cur = [string_of_list_ascii (rev cur) +:+ T].
Proof.
  induction T as [|c T IH]; intros cur Hs; cbn [splitSlash].
  - now rewrite append_nil_r.
  - cbn [hasSlash] in Hs. apply orb_false_elim in Hs as [Hc HT]. rewrite Hc.
    rewrite (IH (c :: cur) HT). cbn [rev]. rewrite sola_app, append_assoc.
    reflexivity.
Qed.

(** A suffix without a slash goes to the last element of the path. *)
Lemma splitSlash_suffix (p : string) : forall cur,
  exists init last, forall T,
    hasSlash T = false -> splitSlash (p +:+ T) cur = init ++ [last +:+ T].
Proof.
  induction p as [|c p IH]; intros cur.
  - exists [], (string_of_list_ascii (rev cur)). intros T HT.
    exact (splitSlash_element T cur HT).
  - change (String c p) with (String c EmptyString +:+ p).
    destruct (Ascii.eqb c slash) eqn:Hc.
    + destruct (IH []) as (init & last & H).
      exists (string_of_list_ascii (rev cur) :: init), last. intros T HT.
      change ((String c EmptyString +:+ p) +:+ T) with (String c (p +:+ T)).
      cbn [splitSlash]. rewrite Hc, (H T HT). reflexivity.
    + destruct (IH (c :: cur)) as (init & last & H).
      exists init, last. intros T HT.
      change ((String c EmptyString +:+ p) +:+ T) with (String c (p +:+ T)).
      cbn [splitSlash]. rewrite Hc. exact (H T HT).
Qed.

(** An element that ends in a dash and more is kept by [Clean]. *)
Lemma cleanStep_dashed rooted out last T :
  cleanStep rooted out (last +:+ String "-" T) = (last +:+ String "-" T) :: out.
Proof.
  unfold cleanStep.
  assert (H : String.eqb (last +:+ String "-" T) "" = false
              /\ String.eqb (last +:+ String "-" T) "." = false
              /\ String.eqb (last +:+ String "-" T) ".." = false).
  { destruct last as [|a [|b [|c last]]]; repeat split;
      apply String.eqb_neq; cbn; try discriminate.
    all: destruct T; discriminate. }
  destruct H as (-> & -> & ->). reflexivity.
Qed.

Lemma concat_last (sep : string) (l : list string) :
  exists pfx, forall e, String.concat sep (l ++ [e]) = pfx +:+ e.
Proof.
  induction l as [|x l (pfx & IH)].
  - exists "". reflexivity.
  - exists (x +:+ sep +:+ pfx). intros e.
    assert (Hc : String.concat sep ((x :: l) ++ [e])
                 = x +:+ sep +:+ String.concat sep (l ++ [e])).
    { cbn [app String.concat]. destruct l; reflexivity. }
    rewrite Hc, IH, !append_assoc. reflexivity.
Qed.

Lemma append_not_nil (a : string) c b : String.eqb (a +:+ String c b) "" = false.
Proof. apply String.eqb_neq. destruct a; discriminate. Qed.

Lemma Clean_cons c r :
  Clean (String c r)
  = let body := String.concat (str slash)
                  (rev (fold_left (cleanStep (Ascii.eqb c slash))
                          (splitSlash (String c r) []) [])) in
    if Ascii.eqb c slash then str slash +:+ body
    else if String.eqb body "" then "." else body.
Proof. reflexivity. Qed.

(** [Clean] keeps a suffix that starts with a dash and holds no slash, and
    what it puts in front depends on the rest of the path only. *)
Lemma Clean_suffix (p : string) :
  exists pfx, forall T,
    hasSlash T = false -> Clean (p +:+ String "-" T) = pfx +:+ String "-" T.
Proof.
  destruct (splitSlash_suffix p []) as (init & last & Hsp).
  set (rooted := match p with
                 | EmptyString => false
                 | String c _ => Ascii.eqb c slash
                 end).
  destruct (concat_last (str slash) (rev (fold_left (cleanStep rooted) init [])))
    as (pfx & Hpfx).
  exists ((if rooted then str slash else "") +:+ pfx +:+ last). intros T HT.
  assert (HT' : hasSlash (String "-" T) = false) by exact HT.
  assert (Hbody : String.concat (str slash)
                    (rev (fold_left (cleanStep rooted)
                            (splitSlash (p +:+ String "-" T) []) []))
                  = pfx +:+ last +:+ String "-" T).
  { rewrite (Hsp _ HT'), fold_left_app. cbn [fold_left].
    rewrite cleanStep_dashed. cbn [rev]. rewrite Hpfx. reflexivity. }
  assert (Hcl : Clean (p +:+ String "-" T)
                = if rooted then str slash +:+ pfx +:+ last +:+ String "-" T
                  else pfx +:+ last +:+ String "-" T).
  { subst rooted. destruct p as [|c p].
    - change ("" +:+ String "-" T) with (String "-" T) in *.
      rewrite Clean_cons. change (Ascii.eqb "-" slash) with false. cbv zeta iota.
      rewrite Hbody, <- append_assoc. now rewrite append_not_nil.
    - change (String c p +:+ String "-" T) with (String c (p +:+ String "-" T)) in *.
      rewrite Clean_cons. cbv zeta. rewrite Hbody.
      destruct (Ascii.eqb c slash); [reflexivity|].
      rewrite <- append_assoc. now rewrite append_not_nil. }
  rewrite Hcl. destruct rooted; rewrite !append_assoc; reflexivity.
Qed.

Lemma Join_suffix (dir name : string) :
  exists pfx, forall T,
    hasSlash T = false ->
    Join dir (name +:+ String "-" T) = pfx +:+ String "-" T.
Proof.
  unfold Join. destruct (String.eqb dir "") eqn:Hd.
  - destruct (Clean_suffix name) as (pfx & H). exists pfx. intros T HT.
    rewrite append_not_nil. exact (H T HT).
  - destruct (Clean_suffix (dir +:+ str slash +:+ name)) as (pfx & H).
    exists pfx. intros T HT. rewrite <- (H T HT), !append_assoc. reflexivity.
Qed.

(** *** The dated part of the name *)
Lemma pretty_N_char_no_slash x : Ascii.eqb (pretty_N_char x) slash = false.
Proof.
  unfold pretty_N_char.
  repeat match goal with |- context [match ?x with _ => _ end] => destruct x end;
    reflexivity.
Qed.

Lemma pretty_N_go_no_slash x : forall s,
  hasSlash s = false -> hasSlash (pretty_N_go x s) = false.
Proof.
  induction (N.lt_wf_0 x) as [x _ IH]. intros s Hs.
  destruct (N.eq_dec x 0%N) as [->|Hx]; [now rewrite pretty_N_go_0|].
  rewrite pretty_N_go_step by lia. apply IH.
  - apply N.div_lt; lia.
  - cbn [hasSlash]. now rewrite pretty_N_char_no_slash.
Qed.

Lemma pretty_N_no_slash (x : N) : hasSlash (pretty x) = false.
Proof.
  unfold pretty, pretty_N. destruct (decide (x = 0%N)); [reflexivity|].
  now apply pretty_N_go_no_slash.
Qed.

Lemma pretty_Z_no_slash (z : Z) : hasSlash (pretty z) = false.
Proof.
  destruct z as [|p|p]; [reflexivity | apply (pretty_N_no_slash (N.pos p)) |].
  change (pretty (Z.neg p)) with ("-" +:+ pretty (N.pos p)).
  rewrite hasSlash_app, pretty_N_no_slash. reflexivity.
Qed.

Lemma pad2_no_slash (z : Z) : hasSlash (pad2 z) = false.
Proof.
  unfold pad2. destruct ((0 <=? z) && (z <? 10)).
  - rewrite hasSlash_app, pretty_Z_no_slash. reflexivity.
  - apply pretty_Z_no_slash.
Qed.

Lemma monthSuffix_no_slash (y m : Z) :
  hasSlash (pretty y +:+ "-" +:+ pad2 m +:+ ".csv") = false.
Proof.
  rewrite !hasSlash_app, pretty_Z_no_slash, pad2_no_slash. reflexivity.
Qed.

Lemma length_append (a b : string) :
  String.length (a +:+ b) = (String.length a + String.length b)%nat.
Proof.
  induction a as [|c a IH]; [reflexivity|].
  change (S (String.length (a +:+ b)) = S (String.length a + String.length b)).
  now rewrite IH.
Qed.

(** Two strings that end in parts of one length are equal part by part. *)
Lemma append_inv_length (a : string) : forall a' b b',
  a +:+ b = a' +:+ b' -> String.length b = String.length b' ->
  a = a' /\ b = b'.
Proof.
  induction a as [|c a IH]; intros [|c' a'] b b' Heq Hlen.
  - split; [reflexivity | exact Heq].
  - exfalso. change ("" +:+ b) with b in Heq. rewrite Heq in Hlen.
    change (String c' a' +:+ b') with (String c' (a' +:+ b')) in Hlen.
    cbn [String.length] in Hlen. rewrite length_append in Hlen. lia.
  - exfalso. change ("" +:+ b') with b' in Heq. rewrite <- Heq in Hlen.
    change (String c a +:+ b) with (String c (a +:+ b)) in Hlen.
    cbn [String.length] in Hlen. rewrite length_append in Hlen. lia.
  - change (String c (a +:+ b) = String c' (a' +:+ b')) in Heq.
    injection Heq as -> Heq. destruct (IH a' b b' Heq Hlen) as [-> ->].
    split; reflexivity.
Qed.

Lemma append_inv_head (a : string) : forall b b', a +:+ b = a +:+ b' -> b = b'.
Proof.
  induction a as [|c a IH]; intros b b' Heq; [exact Heq|].
  change (String c (a +:+ b) = String c (a +:+ b')) in Heq.
  injection Heq as Heq. now apply IH.
Qed.

Lemma pad2_inj m m' : 1 <= m <= 12 -> 1 <= m' <= 12 -> pad2 m = pad2 m' -> m = m'.
Proof.
  intros Hm Hm' Heq.
  assert (Hc : m = 1 \/ m = 2 \/ m = 3 \/ m = 4 \/ m = 5 \/ m = 6 \/ m = 7
               \/ m = 8 \/ m = 9 \/ m = 10 \/ m = 11 \/ m = 12) by lia.
  assert (Hc' : m' = 1 \/ m' = 2 \/ m' = 3 \/ m' = 4 \/ m' = 5 \/ m' = 6 \/ m' = 7
                \/ m' = 8 \/ m' = 9 \/ m' = 10 \/ m' = 11 \/ m' = 12) by lia.
  clear Hm Hm'.
  repeat (destruct Hc as [-> | Hc]); try subst m;
    repeat (destruct Hc' as [-> | Hc']); try subst m';
    first [reflexivity | vm_compute in Heq; discriminate Heq].
Qed.

(** The dated part tells the month. *)
Lemma monthSuffix_inj y m y' m' :
  1 <= m <= 12 -> 1 <= m' <= 12 ->
  monthSuffix y m = monthSuffix y' m' -> y = y' /\ m = m'.
Proof.
  intros Hm Hm' Heq. unfold monthSuffix in Heq.
  change ("-" +:+ ?x) with (String "-" x) in Heq. injection Heq as Heq.
  assert (Hlen : forall k, 1 <= k <= 12 ->
            String.length (String "-" (pad2 k +:+ ".csv")) = 7%nat).
  { intros k Hk. cbn [String.length]. rewrite length_append, (pad2_month k Hk).
    reflexivity. }
  apply append_inv_length in Heq as [Hy Hr].
  - split; [exact (pretty_Z_inj _ _ Hy)|].
    injection Hr as Hr.
    apply (append_inv_length (pad2 m) (pad2 m') ".csv" ".csv") in Hr as [Hp _];
      [|reflexivity].
    exact (pad2_inj m m' Hm Hm' Hp).
  - change ("-" +:+ ?x) with (String "-" x). now rewrite !Hlen.
Qed.

Lemma monthOfIndex_inj i j : monthOfIndex i = monthOfIndex j -> i = j.
Proof. unfold monthOfIndex. intros [= H1 H2]. lia. Qed.

(** The file of a report is named by a prefix made of the directory and the
    name of the system, followed by the dated part. *)
Lemma fname_window l name dir :
  exists pfx, forall idx,
    fname (window l name dir idx)
    = pfx +:+ monthSuffix (idx / 12) (idx mod 12 + 1).
Proof.
  destruct (Join_suffix dir name) as (pfx & H). exists pfx. intros idx.
  unfold window, monthOfIndex. cbn [fname]. unfold Sprintf_csv, monthSuffix.
  change ("-" +:+ ?x) with (String "-" x).
  apply H, monthSuffix_no_slash.
Qed.

(** The reports of a task are the windows of its months. *)
Lemma reports_at E tk rs (i : nat) r :
  fixedOffset (Local E) -> reports E tk = Ret rs -> rs !! i = Some r ->
  r = window (Local E) (tname tk) (dir tk)
        (monthIndex (Year (t tk)) (Month (t tk)) - (Z.of_nat i + 1)).
Proof.
  intros Hfix Hrs Hi.
  assert (Hm : 0 <= months tk).
  { unfold reports in Hrs. destruct (Z.ltb_spec (months tk) 0); [discriminate | lia]. }
  destruct (reports_windows E tk Hfix Hm) as (rs' & Hrs' & Hlen & Hwin).
  rewrite Hrs in Hrs'. injection Hrs' as <-.
  pose proof (lookup_lt_Some _ _ _ Hi) as Hlt.
  rewrite Hlen in Hlt. rewrite (Hwin i Hlt) in Hi. now injection Hi as <-.
Qed.

Lemma reports_fname_NoDup E tk rs :
  fixedOffset (Local E) -> reports E tk = Ret rs -> NoDup (fname <$> rs).
Proof.
  intros Hfix Hrs.
  destruct (fname_window (Local E) (tname tk) (dir tk)) as (pfx & Hpfx).
  apply NoDup_alt. intros i j f Hi Hj.
  apply list_lookup_fmap_Some in Hi as (ri & -> & Hi).
  apply list_lookup_fmap_Some in Hj as (rj & Hf & Hj).
  rewrite (reports_at E tk rs i ri Hfix Hrs Hi),
    (reports_at E tk rs j rj Hfix Hrs Hj), !Hpfx in Hf.
  apply append_inv_head, monthSuffix_inj in Hf as [Hy Hmm]; [lia|lia|lia].
Qed.

(** Whatever the directory and the name of the system (slashes, dots and
    empty strings included), [makeReport] names the file by a prefix that
    depends on them only, followed by a dash, the year, a dash, the month in
    two digits and the extension; and in a location of fixed offset the
    reports of a task are named by their months, so no two of them share a
    file. *)
Theorem report_files_distinct E tk :
  (exists pfx, forall start,
     fname (makeReport (tname tk) (dir tk) start)
     = pfx +:+ monthSuffix (Year start) (Month start))
  /\ (fixedOffset (Local E) ->
      forall rs, reports E tk = Ret rs ->
        NoDup (fname <$> rs)
        /\ forall (i j : nat) ri rj,
             rs !! i = Some ri -> rs !! j = Some rj -> i <> j ->
             fname ri <> fname rj).
Proof.
  split.
  - destruct (Join_suffix (dir tk) (tname tk)) as (pfx & H). exists pfx.
    intros start. unfold makeReport. cbn [fname]. unfold Sprintf_csv, monthSuffix.
    change ("-" +:+ ?x) with (String "-" x).
    apply H, monthSuffix_no_slash.
  - intros Hfix rs Hrs.
    pose proof (reports_fname_NoDup E tk rs Hfix Hrs) as Hnd.
    split; [exact Hnd|]. intros i j ri rj Hi Hj Hne Heq. apply Hne.
    apply (NoDup_lookup _ i j (fname ri) Hnd).
    + rewrite list_lookup_fmap, Hi. reflexivity.
    + rewrite list_lookup_fmap, Hj, Heq. reflexivity.
Qed.

Lemma report_files_distinct_witness :
  exists rs,
    reports (quietEnv UTC sampleRows) (sampleTask march2024 2) = Ret rs
    /\ fname <$> rs = ["out/sys-2024-02.csv"; "out/sys-2024-01.csv"]
    /\ NoDup (fname <$> rs).
Proof.
  destruct (report_files_distinct (quietEnv UTC sampleRows) (sampleTask march2024 2))
    as [_ H].
  eexists. split; [reflexivity|]. split; [reflexivity|].
  destruct (H (fixedOffset_no_tx 0) _ eq_refl) as [Hnd _].
  exact Hnd.
Defined.

End NameFacts.

(** ** Rows and lines *)
Module CsvInjective.
Import GoStrings Csv CsvTerms CsvFacts.

Lemma chars_app (a b : string) :
  list_ascii_of_string (a +:+ b) = list_ascii_of_string a ++ list_ascii_of_string b.
Proof.
  induction a as [|c a IH]; [reflexivity|].
  change (c :: list_ascii_of_string (a +:+ b)
          = c :: (list_ascii_of_string a ++ list_ascii_of_string b)).
  now rewrite IH.
Qed.

Lemma chars_inj (a b : string) :
  list_ascii_of_string a = list_ascii_of_string b -> a = b.
Proof.
  intros H. rewrite <- (string_of_list_ascii_of_string a),
    <- (string_of_list_ascii_of_string b). now rewrite H.
Qed.

(** *** Escaping *)
Lemma escapeField_head f rest : escapeField f <> String dquote rest.
Proof.
  destruct f as [|c f]; cbn [escapeField]; [discriminate|].
  destruct (Ascii.eqb_spec c dquote) as [->|Hc]; [discriminate|].
  intros [= H _]. contradiction.
Qed.

Lemma escapeField_inj f : forall f', escapeField f = escapeField f' -> f = f'.
Proof.
  induction f as [|c f IH]; intros [|c' f']; cbn [escapeField].
  - reflexivity.
  - destruct (Ascii.eqb c' dquote); discriminate.
  - destruct (Ascii.eqb c dquote); discriminate.
  - destruct (Ascii.eqb_spec c dquote) as [->|Hc],
             (Ascii.eqb_spec c' dquote) as [->|Hc'].
    + intros [= H]. now rewrite (IH f' H).
    + intros [= _ H]. symmetry in H. now apply escapeField_head in H.
    + intros [= _ H]. now apply escapeField_head in H.
    + intros [= -> H]. now rewrite (IH f' H).
Qed.

Lemma quotesEscaped_app u : forall v,
  quotesEscaped u = true -> quotesEscaped (u ++ v) = quotesEscaped v.
Proof.
  induction u as [|c u IH]; intros v Hu; [reflexivity|].
  cbn [app quotesEscaped] in *. destruct (Ascii.eqb c dquote).
  - destruct u as [|b u]; [discriminate|].
    apply andb_prop in Hu as [Hb Hu]. cbn [app]. rewrite Hb.
    exact (IH v Hu).
  - exact (IH v Hu).
Qed.

Lemma quotesEscaped_escapeField f :
  quotesEscaped (rev (list_ascii_of_string (escapeField f))) = true.
Proof.
  induction f as [|c f IH]; [reflexivity|].
  cbn [escapeField]. destruct (Ascii.eqb_spec c dquote) as [->|Hc];
    cbn [list_ascii_of_string rev]; rewrite <- ?app_assoc;
    rewrite (quotesEscaped_app _ _ IH); cbn.
  - reflexivity.
  - apply Ascii.eqb_neq in Hc. now rewrite Hc.
Qed.

Lemma quotesEscaped_tail c u : quotesEscaped (c :: u) = true -> quotesEscaped u = true.
Proof.
  cbn [quotesEscaped]. destruct (Ascii.eqb c dquote); [|auto].
  destruct u; [discriminate|]. intros H. now apply andb_prop in H as [_ H].
Qed.

Lemma quotesEscaped_quote u :
  quotesEscaped (dquote :: u) = true -> exists u', u = backslash :: u'.
Proof.
  cbn [quotesEscaped]. change (Ascii.eqb dquote dquote) with true. cbv iota.
  destruct u as [|b u]; [discriminate|]. intros H.
  apply andb_prop in H as [Hb _]. apply Ascii.eqb_eq in Hb as ->. eauto.
Qed.

(** Read from the end of the line, a field ends at the first double quote
    that no backslash follows. *)
Lemma field_cancel u : forall v x y,
  quotesEscaped u = true -> quotesEscaped v = true ->
  fieldStart x -> fieldStart y ->
  u ++ dquote :: x = v ++ dquote :: y -> u = v /\ x = y.
Proof.
  induction u as [|c u IH]; intros [|c' v] x y Hu Hv Hx Hy Heq; cbn [app] in Heq.
  - injection Heq as ->. split; reflexivity.
  - injection Heq as <- ->. exfalso.
    destruct (quotesEscaped_quote v Hv) as (v' & ->). now apply Hx.
  - injection Heq as -> <-. exfalso.
    destruct (quotesEscaped_quote u Hu) as (u' & ->). now apply Hy.
  - injection Heq as <- Heq.
    destruct (IH v x y (quotesEscaped_tail _ _ Hu) (quotesEscaped_tail _ _ Hv)
                Hx Hy Heq) as [-> ->].
    split; reflexivity.
Qed.

(** *** Lines *)
Lemma chars_quoteField f :
  list_ascii_of_string (quoteField f)
  = dquote :: list_ascii_of_string (escapeField f) ++ [dquote].
Proof.
  unfold quoteField.
  change (str dquote +:+ escapeField f +:+ str dquote)
    with (String dquote (escapeField f +:+ str dquote)).
  cbn [list_ascii_of_string]. now rewrite chars_app.
Qed.

Lemma sepJoin_snoc f l : sepJoin (l ++ [f]) = sepJoin l +:+ ";" +:+ quoteField f.
Proof.
  induction l as [|h l IHl]; cbn [app sepJoin].
  - now rewrite append_nil_r.
  - now rewrite IHl, !append_assoc.
Qed.

Lemma lineBody_snoc fields f :
  lineBody (fields ++ [f])
  = match fields with
    | [] => []
    | _ => lineBody fields ++ [";"%char]
    end ++ dquote :: list_ascii_of_string (escapeField f) ++ [dquote].
Proof.
  unfold lineBody. destruct fields as [|g fields].
  - cbn [app map String.concat]. apply chars_quoteField.
  - change ((g :: fields) ++ [f]) with (g :: (fields ++ [f])).
    rewrite !concat_sepJoin, sepJoin_snoc, !chars_app, !chars_quoteField.
    change (list_ascii_of_string ";") with [";"%char].
    rewrite <- !app_assoc. reflexivity.
Qed.

Lemma lineBody_snoc_not_nil fields f : lineBody (fields ++ [f]) <> [].
Proof.
  rewrite lineBody_snoc. intros H. apply (f_equal length) in H.
  rewrite length_app in H. cbn [length] in H. lia.
Qed.

Lemma lineBody_inj fields : forall fields',
  lineBody fields = lineBody fields' -> fields = fields'.
Proof.
  induction fields as [|f fields IH] using rev_ind;
    intros fields'; destruct fields' as [|f' fields' _] using rev_ind.
  - reflexivity.
  - intros H. symmetry in H. now apply lineBody_snoc_not_nil in H.
  - intros H. now apply lineBody_snoc_not_nil in H.
  - rewrite !lineBody_snoc. intros H. apply (f_equal (@rev ascii)) in H.
    rewrite !rev_app_distr in H. cbn [rev] in H. rewrite !rev_app_distr in H.
    cbn [rev app] in H. injection H as H. rewrite <- !app_assoc in H.
    cbn [app] in H.
    apply field_cancel in H as [Hf Hx];
      try apply quotesEscaped_escapeField.
    + apply (f_equal (@rev ascii)) in Hf, Hx. rewrite !rev_involutive in Hf, Hx.
      apply chars_inj, escapeField_inj in Hf as ->.
      f_equal. destruct fields as [|g fields], fields' as [|g' fields'].
      * reflexivity.
      * exfalso. apply (f_equal length) in Hx. rewrite length_app in Hx.
        cbn [length] in Hx. lia.
      * exfalso. apply (f_equal length) in Hx. rewrite length_app in Hx.
        cbn [length] in Hx. lia.
      * apply app_inj_tail in Hx as [Hx _]. now apply IH.
    + destruct fields; [exact I|]. rewrite rev_app_distr. cbn. discriminate.
    + destruct fields'; [exact I|]. rewrite rev_app_distr. cbn. discriminate.
Qed.

(** Different rows give different lines, whatever the rows hold (quotes,
    backslashes, semicolons and line ends included) and whatever the buffer
    held: the line tells the number of fields and every field. *)
Theorem formatCSV_injective buf buf' fields fields' :
  fields <> fields' -> (formatCSV buf fields).2 <> (formatCSV buf' fields').2.
Proof.
  intros Hne Heq. apply Hne. rewrite !ExtractFacts.formatCSV_eq in Heq.
  cbn [snd] in Heq. unfold csvLine in Heq.
  apply (f_equal list_ascii_of_string) in Heq. rewrite !chars_app in Heq.
  apply app_inv_tail in Heq. now apply lineBody_inj.
Qed.

Lemma formatCSV_injective_witness :
  (formatCSV "" [String "a" (String dquote (String ";" (String dquote "b")))]).2
  <> (formatCSV "" ["a"; "b"]).2.
Proof.
  apply formatCSV_injective. discriminate.
Defined.

End CsvInjective.

(** ** Whole tasks *)
Module TaskFacts.
Import GoTime GoStrings Csv Os OsNotations Sys T3rep Scenarios Terms TaskTerms
  TimeFacts CsvFacts GenerateFacts CleanupFacts NameFacts.

(** [exec] around the generation of the reports. *)
Lemma exec_body E tk w reps w' :
  open_fault E w (dsn tk) = None ->
  reports E tk = Ret reps ->
  generate_all E (reporterOf tk) reps (logged (EvOpenDB (dsn tk)) w) = (Ret tt, w') ->
  exec E tk w = (Ret None, logged (EvCloseDB (dsn tk)) w').
Proof.
  intros Hop Hreps Hgen.
  unfold exec, sql_Open, bind at 1, bind at 1, bind at 1, get, emit. cbn.
  rewrite Hop. cbn. unfold defer, lift, bind at 1. rewrite Hreps.
  fold (reporterOf tk). fold (logged (EvOpenDB (dsn tk)) w).
  unfold bind at 1. rewrite Hgen. reflexivity.
Qed.

(** *** Files that are there *)
Lemma generate_skip E r rep w :
  is_Some (files w !! fname rep) ->
  (forall w', stat_fault E w' (fname rep) = None) ->
  generate E r rep w = (Ret tt, mkWorld (files w) (trace w ++ skipEvents rep)).
Proof.
  intros [c Hc] Hst.
  assert (Hex : exists_ E rep (atExistenceTest rep w)
                = (Ret true, logged (EvStat (fname rep)) (atExistenceTest rep w))).
  { unfold exists_, os_Stat, bind, get, emit, ret. cbn. rewrite Hst, Hc. reflexivity. }
  rewrite generate_unfold, (bind_Ret _ _ _ _ _ Hex).
  unfold info_Printf, emit, logged, atExistenceTest, skipEvents, String_. cbn.
  rewrite <- !app_assoc. reflexivity.
Qed.

Lemma generate_all_skip E r reps : forall w,
  (forall rep, rep ∈ reps ->
     is_Some (files w !! fname rep) /\ forall w', stat_fault E w' (fname rep) = None) ->
  generate_all E r reps w
  = (Ret tt, mkWorld (files w) (trace w ++ (reps ≫= skipEvents))).
Proof.
  induction reps as [|rep reps IH]; intros w H; cbn [generate_all].
  - cbn. rewrite app_nil_r. now destruct w.
  - destruct (H rep ltac:(left)) as [Hf Hst].
    rewrite (bind_Ret _ _ _ _ _ (generate_skip E r rep w Hf Hst)).
    rewrite IH.
    + cbn [files trace]. rewrite bind_cons, <- app_assoc. reflexivity.
    + intros rep' Hin. cbn [files]. apply H. now right.
Qed.

(** A task that finds the file of every report does nothing but look: it
    opens the connection, tests each file, closes the connection and returns
    [nil]; it issues no query and creates, writes and removes nothing. *)
Theorem task_skips_existing_reports E tk w reps :
  open_fault E w (dsn tk) = None ->
  reports E tk = Ret reps ->
  (forall rep, rep ∈ reps ->
     is_Some (files w !! fname rep) /\ forall w', stat_fault E w' (fname rep) = None) ->
  exec E tk w
  = (Ret None, mkWorld (files w) (trace w ++ skippedTaskEvents tk reps)).
Proof.
  intros Hop Hreps H.
  rewrite (exec_body E tk w reps
             (mkWorld (files w)
                (trace (logged (EvOpenDB (dsn tk)) w) ++ (reps ≫= skipEvents)))
             Hop Hreps).
  - unfold logged, skippedTaskEvents. cbn. rewrite <- !app_assoc. reflexivity.
  - rewrite generate_all_skip; [reflexivity|]. exact H.
Qed.

Lemma task_skips_existing_reports_witness :
  exec (quietEnv UTC sampleRows) (sampleTask march2024 1)
    (mkWorld {[ "out/sys-2024-02.csv" := "old" ]} [])
  = (Ret None,
     mkWorld {[ "out/sys-2024-02.csv" := "old" ]}
       [EvOpenDB "user@/db";
        EvInfo "out/sys-2024-02.csv: generating report";
        EvStat "out/sys-2024-02.csv";
        EvInfo "out/sys-2024-02.csv: exists";
        EvCloseDB "user@/db"]).
Proof.
  etransitivity.
  - apply (task_skips_existing_reports (quietEnv UTC sampleRows)
             (sampleTask march2024 1)
             (mkWorld {[ "out/sys-2024-02.csv" := "old" ]} []) [februaryReport]).
    + reflexivity.
    + reflexivity.
    + intros rep Hin. apply list_elem_of_singleton in Hin as ->.
      split; [exists "old"; vm_compute; reflexivity | intros w'; reflexivity].
  - vm_compute. reflexivity.
Defined.

(** *** Files that are written *)
Lemma generate_all_run E r vals reps : forall w,
  NoDup (fname <$> reps) -> 0 <= nassoc r ->
  (forall rep, rep ∈ reps ->
     faultless E (fname rep) /\ answers E r rep (vals rep)
     /\ Forall (fun v => length v = Z.to_nat (nassoc r)) (vals rep)
     /\ files w !! fname rep = None) ->
  exists w',
    generate_all E r reps w = (Ret tt, w')
    /\ (forall rep, rep ∈ reps ->
          files w' !! fname rep = Some (joined (csvLine <$> vals rep)))
    /\ (forall p, p ∉ fname <$> reps -> files w' !! p = files w !! p).
Proof.
  induction reps as [|rep reps IH]; intros w Hnd Hn H; cbn [generate_all].
  - exists w. split; [reflexivity|]. split; [|reflexivity].
    intros rep Hin. now apply elem_of_nil in Hin.
  - rewrite fmap_cons in Hnd. apply NoDup_cons in Hnd as [Hnotin Hnd].
    destruct (H rep ltac:(left)) as (Hf & Hq & Hv & Habs).
    pose proof (generate_run E r rep (vals rep) w Hf Hq Hv Hn Habs) as Hgen.
    set (w1 := mkWorld (<[fname rep := joined (csvLine <$> vals rep)]> (files w))
                 (trace w ++ generationEvents r rep (csvLine <$> vals rep))) in *.
    destruct (IH w1 Hnd Hn) as (w' & Hall & Hin & Hout).
    { intros rep' Hin'. destruct (H rep' ltac:(now right)) as (Hf' & Hq' & Hv' & Habs').
      repeat split; try assumption; try apply Hf'.
      subst w1. cbn [files]. rewrite lookup_insert_ne; [exact Habs'|].
      intros Heq. apply Hnotin. rewrite Heq. apply list_elem_of_fmap.
      exists rep'. split; [reflexivity | exact Hin']. }
    exists w'. split; [|split].
    + rewrite (bind_Ret _ _ _ _ _ Hgen). exact Hall.
    + intros rep' Hin'. apply elem_of_cons in Hin' as [-> | Hin'].
      * rewrite (Hout _ Hnotin). subst w1. cbn [files]. apply lookup_insert_eq.
      * now apply Hin.
    + intros p Hp. rewrite fmap_cons in Hp. apply not_elem_of_cons in Hp as [Hne Hp].
      rewrite (Hout p Hp). subst w1. cbn [files]. now apply lookup_insert_ne.
Qed.

(** In a location of fixed offset, a task for which nothing fails and no file
    is there yet writes one file for each of its months: it returns [nil],
    the file of every report holds the lines of the rows of the query for the
    window of that report, in the order of the rows, and no other file
    changes. *)
Theorem task_writes_every_month E tk vals w reps :
  fixedOffset (Local E) ->
  open_fault E w (dsn tk) = None ->
  0 <= fields tk ->
  reports E tk = Ret reps ->
  (forall rep, rep ∈ reps -> clearFor E tk w rep (vals rep)) ->
  exists w',
    exec E tk w = (Ret None, w')
    /\ (forall rep, rep ∈ reps ->
          files w' !! fname rep = Some (joined (csvLine <$> vals rep)))
    /\ (forall p, p ∉ fname <$> reps -> files w' !! p = files w !! p).
Proof.
  intros Hfix Hop Hn Hreps H.
  destruct (generate_all_run E (reporterOf tk) vals reps
              (logged (EvOpenDB (dsn tk)) w)) as (w' & Hall & Hin & Hout).
  - exact (reports_fname_NoDup E tk reps Hfix Hreps).
  - exact Hn.
  - intros rep Hrep. exact (H rep Hrep).
  - exists (logged (EvCloseDB (dsn tk)) w'). split; [|split].
    + exact (exec_body E tk w reps w' Hop Hreps Hall).
    + exact Hin.
    + exact Hout.
Qed.

Lemma task_writes_every_month_witness :
  exists w',
    exec (quietEnv UTC sampleRows) (sampleTask march2024 2) emptyWorld = (Ret None, w')
    /\ files w' !! "out/sys-2024-02.csv" = Some (csvLine ["a"; "b"] +:+ csvLine ["c"; "d"])
    /\ files w' !! "out/sys-2024-01.csv" = Some (csvLine ["a"; "b"] +:+ csvLine ["c"; "d"])
    /\ files w' !! "out/sys-2023-12.csv" = None.
Proof.
  destruct (task_writes_every_month (quietEnv UTC sampleRows) (sampleTask march2024 2)
              (fun _ => [["a"; "b"]; ["c"; "d"]]) emptyWorld
              [makeReport "sys" "out" (Date 2024 2 1 0 0 0 0 UTC);
               makeReport "sys" "out" (Date 2024 1 1 0 0 0 0 UTC)])
    as (w' & Hex & Hin & Hout).
  - exact (fixedOffset_no_tx 0).
  - reflexivity.
  - cbn. lia.
  - vm_compute. reflexivity.
  - intros rep _. repeat split; try (intros; reflexivity).
    repeat constructor.
  - exists w'. split; [exact Hex|]. split; [|split].
    + etransitivity; [apply (Hin (makeReport "sys" "out" (Date 2024 2 1 0 0 0 0 UTC)))|].
      * left.
      * vm_compute. reflexivity.
    + etransitivity; [apply (Hin (makeReport "sys" "out" (Date 2024 1 1 0 0 0 0 UTC)))|].
      * right. left.
      * vm_compute. reflexivity.
    + rewrite Hout; [reflexivity|].
      apply (bool_decide_unpack _). vm_compute. exact I.
Defined.

End TaskFacts.

(** ** The results of the tasks *)
Module ResultFacts.
Import GoTime Os OsNotations Sys T3rep Scenarios Dispatch ResultTerms
  CsvFacts GenerateFacts DispatchFacts RunFacts.

(** A task whose connection does not open does nothing else. *)
Lemma work_open_failure E tk w e0 :
  open_fault E w (dsn tk) = Some e0 ->
  work E tk w
  = (Ret (Some (Errorf "creating report: "
                  (Errorf (tname tk +:+ ": cannot connect to database: ") e0))),
     logged (EvOpenDB (dsn tk)) w).
Proof.
  intros Hop. unfold work, exec, sql_Open, bind, get, emit, ret. cbn.
  rewrite Hop. reflexivity.
Qed.

Lemma results_step E cf now cap s s' :
  trans E cf now cap s s' ->
  Forall (resultOfTask E cf now) (workers s) ->
  Forall (resultOfTask E cf now) (workers s').
Proof.
  intros Ht HP.
  destruct Ht; cbn [workers]; try exact HP; unfold setPc, setRes.
  - apply Forall_app. split; [exact HP|]. apply Forall_singleton.
    intros r Hr. discriminate Hr.
  - apply Forall_alter; [exact HP|]. intros x _ Hx. exact Hx.
  - apply Forall_alter; [exact HP|]. intros x Hk _ r Hr. cbn in *.
    injection Hr as <-. assert (x = w) as -> by congruence. eauto.
  - apply Forall_alter; [exact HP|]. intros x _ Hx. exact Hx.
  - apply Forall_alter; [exact HP|]. intros x _ Hx. exact Hx.
  - apply Forall_alter; [apply Forall_alter; [exact HP|]|];
      intros x _ Hx; exact Hx.
Qed.

Lemma reachable_results E cf now cap order w0 s :
  rtc (step E cf now cap) (init order w0) s ->
  Forall (resultOfTask E cf now) (workers s).
Proof.
  revert s. apply rtc_ind_r; [apply Forall_nil_2|].
  intros s1 s2 _ [a Hs] IH.
  destruct (fire_trans _ _ _ _ _ _ _ Hs) as [_ Ht].
  exact (results_step E cf now cap s1 s2 Ht IH).
Qed.

(** When [run] has returned, the error log holds, for every system whose
    connection string [sql.Open] rejects, the line that names the system and
    gives the error of [sql.Open]. *)
Theorem rejected_dsn_is_logged E cf now cap order w0 s name d e0 :
  order ≡ₚ map_to_list (Systems cf) ->
  Systems cf !! name = Some d ->
  (forall w, open_fault E w d = Some e0) ->
  rtc (step E cf now cap) (init order w0) s ->
  mainpc s = MReturned ->
  EvError (openFailureLine name e0) ∈ trace (wld s).
Proof.
  intros Hperm Hsys Hop Hr Hm.
  pose proof (order_length cf order Hperm) as Hlen.
  pose proof (reachable_Inv E cf now cap order w0 s ltac:(lia) Hr) as HI.
  destruct (returned cf cap order s Hlen HI Hm) as (Hid & Hdel & Hlog).
  assert (Hin : (name, d) ∈ ident <$> workers s).
  { rewrite Hid, Hperm. now apply elem_of_map_to_list. }
  apply list_elem_of_fmap in Hin as (w & Hw & Hin).
  unfold ident in Hw. injection Hw as Hn Hd.
  pose proof (proj1 (Forall_forall _ _) Hdel w Hin) as [_ [r Hres]].
  pose proof (proj1 (Forall_forall _ _) (reachable_results E cf now cap order w0 s Hr)
                w Hin r Hres) as (w1 & w2 & Hwork).
  rewrite <- Hn, <- Hd in Hwork.
  rewrite (work_open_failure E (newTask now name d cf) w1 e0 (Hop w1)) in Hwork.
  injection Hwork as <- _.
  pose proof (proj1 (Forall_forall _ _) Hlog w Hin _ Hres) as Hev.
  unfold fatalMsg, Errorf in Hev. cbn [emsg tname newTask] in Hev.
  unfold openFailureLine. rewrite append_assoc in Hev. exact Hev.
Qed.

Lemma rejected_dsn_is_logged_witness :
  exists s,
    fireAll (strictDsnEnv UTC sampleRows) oneBadDsn march2024 1 oneByOne
      (init (map_to_list (Systems oneBadDsn)) emptyWorld) = Some s
    /\ EvError "fatal: creating report: a: cannot connect to database: invalid DSN: missing the slash separating the database name"
       ∈ trace (wld s)
    /\ is_Some (files (wld s) !! "out/b-2024-02.csv").
Proof.
  assert (Hs : exists s,
            fireAll (strictDsnEnv UTC sampleRows) oneBadDsn march2024 1
              oneByOne (init (map_to_list (Systems oneBadDsn)) emptyWorld) = Some s
            /\ mainpc s = MReturned
            /\ is_Some (files (wld s) !! "out/b-2024-02.csv")).
  { eexists. split; [vm_compute; reflexivity|].
    split; [vm_compute; reflexivity|]. eexists. vm_compute. reflexivity. }
  destruct Hs as (s & Hs & Hm & Hb). exists s. split; [exact Hs|]. split; [|exact Hb].
  apply (rejected_dsn_is_logged (strictDsnEnv UTC sampleRows)
           oneBadDsn march2024 1 (map_to_list (Systems oneBadDsn)) emptyWorld s
           "a" "user@tcp(db:3306)" EBADDSN).
  - reflexivity.
  - reflexivity.
  - intros w. reflexivity.
  - exact (fireAll_rtc _ _ _ _ _ _ _ Hs).
  - exact Hm.
Defined.

End ResultFacts.

(** ** A negative number of columns *)
Module WidthFacts.
Import GoTime Os OsNotations Sys T3rep Scenarios Terms GenerateFacts.

(** With a negative number of columns configured, a report whose file is
    absent and whose query succeeds gets its file created, and then [make]
    panics in [extract] before a row is read: the panic leaves [generate]
    with the empty file on disk, neither closed nor removed.  A query that
    fails is reported as usual, since [extract] is not reached. *)
Theorem negative_width_panics E r rep w :
  nassoc r < 0 ->
  files w !! fname rep = None ->
  (forall w', stat_fault E w' (fname rep) = None) ->
  (forall w', create_fault E w' (fname rep) = None) ->
  (forall rs,
     (forall w', query_result E w' (db r) (query r) (Format (start rep))
                   (Format (end_ rep)) = inr rs) ->
     generate E r rep w
     = (Panic "makeslice: len out of range",
        mkWorld (<[fname rep := ""]> (files w))
          (trace w
           ++ [EvInfo (fname rep +:+ ": generating report");
               EvStat (fname rep);
               EvCreate (fname rep);
               EvQuery (db r) (query r) (Format (start rep)) (Format (end_ rep))])))
  /\ (forall e,
        (forall w', query_result E w' (db r) (query r) (Format (start rep))
                      (Format (end_ rep)) = inl e) ->
        exists w', generate E r rep w = (Ret tt, w')
                   /\ EvError (fname rep +:+ ": cannot generate report: cannot query: "
                               +:+ emsg e) ∈ trace w').
Proof.
  intros Hn Habs Hst Hcr.
  set (p := fname rep) in *.
  assert (Hex : exists_ E rep (atExistenceTest rep w)
                = (Ret false, logged (EvStat p) (atExistenceTest rep w))).
  { unfold exists_, os_Stat, bind, get, emit, ret. cbn. fold p.
    rewrite Hst, Habs. reflexivity. }
  set (w1 := logged (EvStat p) (atExistenceTest rep w)) in *.
  assert (Hcreate : os_Create E p w1
                    = (Ret (inr p),
                       mkWorld (<[p := ""]> (files w1)) (trace w1 ++ [EvCreate p]))).
  { unfold os_Create, bind, get, emit, ret, setFiles. cbn. now rewrite Hcr. }
  set (w2 := mkWorld (<[p := ""]> (files w1)) (trace w1 ++ [EvCreate p])) in *.
  split.
  - intros rs Hq. rewrite generate_unfold, (bind_Ret _ _ _ _ _ Hex). cbn iota.
    fold p. rewrite (bind_Ret _ _ _ _ _ Hcreate). cbn iota.
    assert (Hwrite : write E r p rep w2
                     = (Panic "makeslice: len out of range",
                        logged (EvQuery (db r) (query r) (Format (start rep))
                                  (Format (end_ rep))) w2)).
    { unfold write, rows, db_Query. unfold bind at 1. unfold bind, get, emit, ret.
      cbn. rewrite Hq. unfold extract.
      destruct (Z.ltb_spec (nassoc r) 0); [reflexivity | lia]. }
    rewrite (bind_Panic _ _ _ _ _ Hwrite). subst w2 w1.
    unfold logged, atExistenceTest. cbn. rewrite <- !app_assoc. reflexivity.
  - intros e Hq. rewrite generate_unfold, (bind_Ret _ _ _ _ _ Hex). cbn iota.
    fold p. rewrite (bind_Ret _ _ _ _ _ Hcreate). cbn iota.
    assert (Hwrite : write E r p rep w2
                     = (Ret (Some (Errorf "cannot query: " e)),
                        logged (EvQuery (db r) (query r) (Format (start rep))
                                  (Format (end_ rep))) w2)).
    { unfold write, rows, db_Query. unfold bind at 1. unfold bind, get, emit, ret.
      cbn. rewrite Hq. reflexivity. }
    rewrite (bind_Ret _ _ _ _ _ Hwrite). cbn iota.
    set (w3 := logged _ w2).
    set (msg := String_ rep +:+ ": cannot generate report: "
                +:+ emsg (Errorf "cannot query: " e)).
    assert (Hgrow : forall (m : M unit) wa, respects (adds (fun _ => True)) m ->
              EvError msg ∈ trace wa -> EvError msg ∈ trace (m wa).2).
    { intros m wa Hm Hin. destruct (Hm wa) as (l & -> & _).
      apply elem_of_app. now left. }
    unfold err_Printf at 1. unfold bind at 1, emit at 1.
    assert (Hret : returnsWith anything
                     (do _ignored <- file_Close E p; removePartial E rep)).
    { apply (returnsWith_bind anything); [apply file_Close_returns|].
      intros _ _. apply removePartial_returns. }
    destruct (Hret (mkWorld (files w3) (trace w3 ++ [EvError msg])))
      as ([] & w' & Hrest & _).
    rewrite Hrest. exists w'. split; [reflexivity|].
    change w' with ((@Ret unit tt, w').2). rewrite <- Hrest.
    apply Hgrow.
    + apply respects_bind; [apply adds_trans | apply adds_file_Close; exact I |].
      intros _. unfold removePartial, err_Printf.
      apply respects_bind; [apply adds_trans | apply adds_os_Remove; exact I |].
      intros [e'|]; [apply adds_emit; exact I | apply respects_ret, adds_refl].
    + cbn. apply elem_of_app. right. left.
Qed.

Lemma negative_width_panics_witness :
  generate (quietEnv UTC sampleRows)
    (newReporter "user@/db" "SELECT a, b FROM t WHERE at BETWEEN ? AND ?" (-1))
    februaryReport emptyWorld
  = (Panic "makeslice: len out of range",
     mkWorld {[ "out/sys-2024-02.csv" := "" ]}
       [EvInfo "out/sys-2024-02.csv: generating report";
        EvStat "out/sys-2024-02.csv";
        EvCreate "out/sys-2024-02.csv";
        EvQuery "user@/db" "SELECT a, b FROM t WHERE at BETWEEN ? AND ?"
          "2024-02-01 00:00:00" "2024-02-29 23:59:59"]).
Proof.
  destruct (negative_width_panics (quietEnv UTC sampleRows)
              (newReporter "user@/db" "SELECT a, b FROM t WHERE at BETWEEN ? AND ?" (-1))
              februaryReport emptyWorld) as [H _].
  - cbn. lia.
  - reflexivity.
  - intros w'. reflexivity.
  - intros w'. reflexivity.
  - etransitivity; [apply (H sampleRows); intros w'; reflexivity|].
    vm_compute. reflexivity.
Defined.

End WidthFacts.

(** ** A task that terminates the process *)
Module FatalFacts.
Import GoTime Os OsNotations Sys T3rep Scenarios Dispatch Terms RunTerms
  GenerateFacts DispatchFacts RunFacts.

(** With closes that fail, the task of either system of [twoSystems] ends
    the process when it is the first to run. *)
Lemma first_task_exits name d r w' :
  (name, d) ∈ map_to_list (Systems twoSystems) ->
  work (closeFailsEnv UTC sampleRows) (newTask march2024 name d twoSystems) emptyWorld
  = (r, w') ->
  r = Exit 1.
Proof.
  intros Hin Hw.
  change (map_to_list (Systems twoSystems)) with [("a", "user@/a"); ("b", "user@/b")] in Hin.
  apply elem_of_cons in Hin as [[= -> ->] | Hin].
  - vm_compute in Hw. now injection Hw as <- _.
  - apply list_elem_of_singleton in Hin as [= -> ->].
    vm_compute in Hw. now injection Hw as <- _.
Qed.

(** Until a task has run, nothing has happened to the world; the first task
    that runs ends the process, with its connection the only one opened. *)
Lemma fatal_run_states s :
  rtc (step (closeFailsEnv UTC sampleRows) twoSystems march2024 1)
    (init (map_to_list (Systems twoSystems)) emptyWorld) s ->
  (dead s = false /\ wld s = emptyWorld /\ errch s = []
   /\ (mainpc s = MRecv 0 \/ exists l, mainpc s = MSpawn l)
   /\ Forall (fun w => pc w = WAcquire \/ pc w = WWork) (workers s))
  \/ (dead s = true /\ mainpc s <> MReturned
      /\ exists d, opened (trace (wld s)) = [d]).
Proof.
  intros Hr.
  assert (Hlen : (length (map_to_list (Systems twoSystems)) <= nsys twoSystems)%nat).
  { vm_compute. lia. }
  revert s Hr. apply rtc_ind_r.
  - left. repeat split; eauto.
  - intros s1 s2 Hr1 [a Hs] IH.
    destruct (fire_trans _ _ _ _ _ _ _ Hs) as [Hd1 Ht].
    destruct IH as [(_ & Hw & Hq & Hm & Hws) | (Hd & _)]; [|congruence].
    pose proof (reachable_Inv _ _ _ _ _ _ _ Hlen Hr1) as HI.
    assert (Hpc : forall k w, workers s1 !! k = Some w ->
              pc w = WAcquire \/ pc w = WWork).
    { intros k w Hk. exact (Forall_lookup_1 _ _ _ _ Hws Hk). }
    assert (Hid : forall k w, workers s1 !! k = Some w ->
              (wname w, wdsn w) ∈ map_to_list (Systems twoSystems)).
    { intros k w Hk. rewrite <- (inv_ident _ _ _ _ HI).
      apply elem_of_app. left. apply list_elem_of_fmap. exists w.
      split; [reflexivity|]. eapply list_elem_of_lookup_2. exact Hk. }
    destruct Ht.
    + left. cbn. repeat split; eauto.
      apply Forall_app. split; [exact Hws|]. apply Forall_singleton. now left.
    + left. cbn. repeat split; eauto.
    + rewrite Hq in H1. discriminate.
    + exfalso. destruct Hm as [Hm | [l Hm]]; rewrite Hm in H; [|discriminate].
      injection H as <-. apply H0. vm_compute. lia.
    + left. cbn. repeat split; eauto. unfold setPc.
      apply Forall_alter; [exact Hws|]. intros x _ _. now right.
    + exfalso. rewrite Hw in H1.
      pose proof (first_task_exits _ _ _ _ (Hid _ _ H) H1). discriminate.
    + right. cbn. split; [reflexivity|]. split.
      * destruct Hm as [Hm | [l Hm]]; rewrite Hm; discriminate.
      * exists (wdsn w).
        pose proof (work_opens_once (closeFailsEnv UTC sampleRows)
                      (newTask march2024 (wname w) (wdsn w) twoSystems) (wld s1)) as Ho.
        rewrite H1, Hw in Ho. exact Ho.
    + exfalso. destruct (Hpc _ _ H) as [Hp | Hp]; rewrite Hp in H0; discriminate.
    + exfalso. destruct (Hpc _ _ H) as [Hp | Hp]; rewrite Hp in H0; discriminate.
    + discriminate.
Qed.

(** C8, on the code.  [run] bounds the tasks past the gate and attempts
    every system as long as the tasks return, whatever errors they return;
    but a task does not return when the final close of a report fails:
    [generate] calls [Fatalf], which ends the whole process.  Two systems, a
    gate of one, closes that fail: in every schedule [run] never returns and
    at most one of the two systems is attempted; every run goes on until the
    process has terminated, and it terminates in the first task that runs.
    In the schedule that lets system a through the gate first, system b is
    still waiting at the gate when the process ends, and no result was
    delivered or logged. *)
Theorem fatal_task_stops_dispatch :
  (forall s,
     rtc (step (closeFailsEnv UTC sampleRows) twoSystems march2024 1)
       (init (map_to_list (Systems twoSystems)) emptyWorld) s ->
     mainpc s <> MReturned
     /\ (length (opened (trace (wld s))) <= 1)%nat
     /\ (final s = true -> dead s = true)
     /\ (final s = false ->
         exists a s',
           fire (closeFailsEnv UTC sampleRows) twoSystems march2024 1 a s = Some s'))
  /\ exists s,
       fireAll (closeFailsEnv UTC sampleRows) twoSystems march2024 1
         [AMain; AMain; AMain; AAcquire 0; AWork 0]
         (init (map_to_list (Systems twoSystems)) emptyWorld) = Some s
       /\ (forall a, fire (closeFailsEnv UTC sampleRows) twoSystems march2024 1 a s = None)
       /\ dead s = true
       /\ mainpc s = MRecv 0
       /\ wname <$> workers s = ["a"; "b"]
       /\ pc <$> workers s = [WWork; WAcquire]
       /\ wres <$> workers s = [None; None]
       /\ opened (trace (wld s)) = ["user@/a"]
       /\ last (trace (wld s))
          = Some (EvError "out/a-2024-02.csv: cannot close file: close out/a-2024-02.csv: input/output error").
Proof.
  split.
  - intros s Hr.
    assert (Hlen : length (map_to_list (Systems twoSystems)) = nsys twoSystems)
      by reflexivity.
    assert (Hle : (length (map_to_list (Systems twoSystems)) <= nsys twoSystems)%nat)
      by (rewrite Hlen; lia).
    pose proof (reachable_Inv _ _ _ _ _ _ _ Hle Hr) as HI.
    destruct (fatal_run_states s Hr)
      as [(Hd & Hw & _ & Hm & _) | (Hd & Hm & d & Ho)].
    + split; [destruct Hm as [Hm | [l Hm]]; rewrite Hm; discriminate|].
      split; [rewrite Hw; cbn; lia|]. split.
      * unfold final. rewrite Hd.
        destruct Hm as [Hm | [l Hm]]; rewrite Hm; discriminate.
      * intros Hfin.
        exact (progress _ _ _ 1%nat _ s (Nat.le_refl 1) Hlen HI Hfin).
    + split; [exact Hm|]. split; [rewrite Ho; cbn; lia|]. split; [auto|].
      unfold final. rewrite Hd. discriminate.
  - assert (Hs : exists s,
              fireAll (closeFailsEnv UTC sampleRows) twoSystems march2024 1
                [AMain; AMain; AMain; AAcquire 0; AWork 0]
                (init (map_to_list (Systems twoSystems)) emptyWorld) = Some s
              /\ dead s = true /\ mainpc s = MRecv 0
              /\ wname <$> workers s = ["a"; "b"]
              /\ pc <$> workers s = [WWork; WAcquire]
              /\ wres <$> workers s = [None; None]
              /\ opened (trace (wld s)) = ["user@/a"]
              /\ last (trace (wld s))
                 = Some (EvError "out/a-2024-02.csv: cannot close file: close out/a-2024-02.csv: input/output error")).
    { eexists. split; [vm_compute; reflexivity|].
      repeat split; vm_compute; reflexivity. }
    destruct Hs as (s & Hs & Hd & Hrest). exists s.
    split; [exact Hs|]. split; [|split; [exact Hd | exact Hrest]].
    intros a. unfold fire. now rewrite Hd.
Qed.

Lemma fatal_task_stops_dispatch_witness :
  exists s,
    fireAll (closeFailsEnv UTC sampleRows) twoSystems march2024 1
      [AMain; AMain; AMain; AAcquire 1; AWork 1]
      (init (map_to_list (Systems twoSystems)) emptyWorld) = Some s
    /\ mainpc s <> MReturned
    /\ dead s = true.
Proof.
  assert (Hs : exists s,
            fireAll (closeFailsEnv UTC sampleRows) twoSystems march2024 1
              [AMain; AMain; AMain; AAcquire 1; AWork 1]
              (init (map_to_list (Systems twoSystems)) emptyWorld) = Some s
            /\ final s = true).
  { eexists. split; vm_compute; reflexivity. }
  destruct Hs as (s & Hs & Hfin). exists s. split; [exact Hs|].
  destruct fatal_task_stops_dispatch as [H _].
  destruct (H s (fireAll_rtc _ _ _ _ _ _ _ Hs)) as (Hm & _ & Hd & _).
  split; [exact Hm | exact (Hd Hfin)].
Defined.

End FatalFacts.

(** ** Windows in zones that change their offset *)
Module ZoneFacts.
Import GoTime GoStrings Os T3rep Scenarios ZoneTerms TimeFacts Windows.

Section Zone.
Variable l : Location.

(** [Date] at a midnight that is read with offset [off]. *)
Lemma Date_inForce y m d off :
  inForce l off (civilMidnight (monthIndex y m) d) ->
  Date y m d 0 0 0 0 l = instant l off (civilMidnight (monthIndex y m) d).
Proof.
  intros [Hc Hu]. unfold Date, instant, norm.
  change (0 mod 1000000000) with 0. change (0 / 1000000000) with 0.
  change (0 + 0) with 0. change (0 mod 60) with 0. change (0 / 60) with 0.
  change (0 + 0) with 0. change (0 mod 24) with 0. change (0 / 24) with 0.
  cbv zeta.
  match goal with
  | |- context [lookup l ?u] =>
      assert (Hd : u = civilMidnight (monthIndex y m) d);
      [| rewrite Hd; clear Hd]
  end.
  { unfold civilMidnight, firstDay, dayNumber, monthIndex.
    replace ((12 * y + (m - 1)) / 12) with (y + (m - 1) / 12) by lia.
    replace ((12 * y + (m - 1)) mod 12) with ((m - 1) mod 12) by lia.
    unfold secondsPerDay. destruct (isLeap _ && _); lia. }
  set (c := civilMidnight (monthIndex y m) d) in *.
  unfold offsetAt in Hc.
  destruct (lookup l c) as [[o a] b] eqn:Hl. cbn in Hc. subst o.
  f_equal.
  destruct (Z.eqb_spec off 0) as [H0 | H0]; [lia|].
  rewrite Hu. destruct (_ || _); reflexivity.
Qed.

Lemma abs_instant off c : offsetAt l (c - off) = off -> abs (instant l off c) = c.
Proof. intros H. unfold abs, instant. cbn. rewrite H. lia. Qed.

(** The fields of such a midnight. *)
Lemma civil_instant idx d off :
  1 <= d <= daysIn (idx / 12) (idx mod 12 + 1) ->
  inForce l off (civilMidnight idx d) ->
  dateOf (instant l off (civilMidnight idx d)) = (idx / 12, idx mod 12 + 1, d)
  /\ Clock (instant l off (civilMidnight idx d)) = (0, 0, 0).
Proof.
  intros Hd [_ Hu].
  apply (civil_of_abs _ (idx / 12) (idx mod 12 + 1) d 0).
  - rewrite (abs_instant _ _ Hu). unfold civilMidnight, firstDay, dayNumber. lia.
  - unfold secondsPerDay. lia.
  - lia.
  - exact Hd.
Qed.

(** [AddDate] from the first midnight of a month to a midnight that is read
    with offset [off']. *)
Lemma AddDate_instant idx off months days off' :
  inForce l off (civilMidnight idx 1) ->
  inForce l off' (civilMidnight (idx + months) (1 + days)) ->
  AddDate (instant l off (civilMidnight idx 1)) 0 months days
  = instant l off' (civilMidnight (idx + months) (1 + days)).
Proof.
  intros Hs Ht.
  pose proof (daysIn_pos (idx / 12) (idx mod 12 + 1)) as Hp.
  destruct (civil_instant idx 1 off ltac:(lia) Hs) as [Hd Hc].
  unfold AddDate. rewrite Hd, Hc. cbn [nsec loc instant].
  replace (idx + months) with (monthIndex (idx / 12 + 0) (idx mod 12 + 1 + months)) in *
    by (unfold monthIndex; lia).
  now apply Date_inForce.
Qed.

(** [makeReport] at the first midnight of a month: the end is 86399 seconds
    after the midnight that starts the last day. *)
Lemma makeReport_instant name dir idx s e :
  inForce l s (civilMidnight idx 1) ->
  inForce l e (civilMidnight (idx + 1) 0) ->
  makeReport name dir (instant l s (civilMidnight idx 1))
  = zoneWindow l s e name dir idx.
Proof.
  intros Hs He.
  pose proof (daysIn_pos (idx / 12) (idx mod 12 + 1)) as Hp.
  destruct (civil_instant idx 1 s ltac:(lia) Hs) as [Hd _].
  unfold makeReport, zoneWindow, Year, Month. rewrite Hd. cbn [fst snd]. f_equal.
  rewrite (AddDate_instant idx s 1 (-1) e Hs He).
  unfold Add, instant. cbn [nsec unixSec loc].
  change (23 * Hour + 59 * Minute + 59 * Second) with 86399000000000.
  change (Z.quot 86399000000000 1000000000) with 86399.
  change (0 + Z.rem 86399000000000 1000000000) with 0.
  cbn [Z.leb Z.ltb Z.compare]. f_equal.
  unfold civilMidnight, secondsPerDay. lia.
Qed.

Variables s e : Z -> Z.

(** The loop fills the slots [i], [i + 1], ... with what [makeReport] builds
    for the months before the month of [last], one month further back at
    each slot. *)
Lemma reports_loop_zone tk n : forall i idx reps,
  (i + n <= length reps)%nat ->
  (forall k, idx - Z.of_nat n <= k <= idx -> inForce l (s k) (civilMidnight k 1)) ->
  (forall k, idx - Z.of_nat n <= k < idx ->
     inForce l (e k) (civilMidnight (k + 1) 0)) ->
  let rs := reports_loop tk n i (instant l (s idx) (civilMidnight idx 1)) reps in
  length rs = length reps
  /\ (forall j, (j < n)%nat ->
        rs !! (i + j)%nat
        = Some (zoneWindow l (s (idx - (Z.of_nat j + 1))) (e (idx - (Z.of_nat j + 1)))
                  (tname tk) (dir tk) (idx - (Z.of_nat j + 1))))
  /\ (forall j, (j < i)%nat -> rs !! j = reps !! j).
Proof.
  induction n as [|n IH]; intros i idx reps Hlen Hs He; cbn [reports_loop].
  - split; [reflexivity|]. split; [lia|]. reflexivity.
  - assert (Hs0 : inForce l (s idx) (civilMidnight idx 1)) by (apply Hs; lia).
    assert (Hs1 : inForce l (s (idx - 1)) (civilMidnight (idx - 1) 1))
      by (apply Hs; lia).
    assert (He1 : inForce l (e (idx - 1)) (civilMidnight (idx - 1 + 1) 0))
      by (apply He; lia).
    rewrite (AddDate_instant idx (s idx) (-1) 0 (s (idx - 1)) Hs0);
      [| replace (idx + -1) with (idx - 1) by lia;
         replace (1 + 0) with 1 by lia; exact Hs1].
    replace (idx + -1) with (idx - 1) by lia.
    replace (1 + 0) with 1 by lia.
    rewrite (makeReport_instant _ _ (idx - 1) (s (idx - 1)) (e (idx - 1)) Hs1 He1).
    set (reps' := <[i := zoneWindow l (s (idx - 1)) (e (idx - 1)) (tname tk) (dir tk)
                           (idx - 1)]> reps).
    assert (Hlen' : (S i + n <= length reps')%nat)
      by (subst reps'; rewrite length_insert; lia).
    destruct (IH (S i) (idx - 1) reps' Hlen') as (IH1 & IH2 & IH3).
    { intros k Hk. apply Hs. lia. }
    { intros k Hk. apply He. lia. }
    split; [|split].
    + rewrite IH1. subst reps'. apply length_insert.
    + intros [|j] Hj.
      * rewrite Nat.add_0_r, IH3 by lia. subst reps'.
        rewrite list_lookup_insert_eq by lia. reflexivity.
      * replace (i + S j)%nat with (S i + j)%nat by lia.
        rewrite IH2 by lia.
        replace (idx - 1 - (Z.of_nat j + 1)) with (idx - (Z.of_nat (S j) + 1)) by lia.
        reflexivity.
    + intros j Hj. rewrite IH3 by lia. subst reps'.
      apply list_lookup_insert_ne. lia.
Qed.

End Zone.

(** The local reading of the end of such a window: the last second of the
    month, shifted by the change of offset since the midnight that started
    the last day. *)
Lemma zoneWindow_end l s e name dir idx :
  let r := zoneWindow l s e name dir idx in
  let shift := offsetAt l (unixSec (end_ r)) - e in
  abs (end_ r) = civilMidnight (idx + 1) 1 - 1 + shift
  /\ (shift = 0 ->
      dateOf (end_ r)
      = (idx / 12, idx mod 12 + 1, daysIn (idx / 12) (idx mod 12 + 1))
      /\ Clock (end_ r) = (23, 59, 59))
  /\ (Clock (end_ r) = (23, 59, 59) -> shift mod 86400 = 0).
Proof.
  intros r shift.
  assert (Ha : abs (end_ r) = civilMidnight (idx + 1) 1 - 1 + shift).
  { subst shift r. unfold abs, zoneWindow. cbn [end_ unixSec loc]. lia. }
  split; [exact Ha|]. split.
  - intros H0.
    pose proof (daysIn_pos (idx / 12) (idx mod 12 + 1)) as Hp.
    apply (civil_of_abs _ (idx / 12) (idx mod 12 + 1) _ 86399).
    + rewrite Ha, H0. unfold civilMidnight. rewrite firstDay_succ.
      unfold firstDay, dayNumber, secondsPerDay. lia.
    + unfold secondsPerDay. lia.
    + lia.
    + lia.
  - unfold Clock. rewrite Ha. unfold civilMidnight, secondsPerDay.
    set (D := firstDay (idx + 1) + 1 - 1). intros [= H1 H2 H3]. lia.
Qed.

(** In every location, as long as the first midnights of the months concerned
    and the midnights that start their last days are read with the offsets
    [s] and [e]: the expansion returns the reports of the [months] months
    before the month of now, the latest first; each starts at 00:00:00 on the
    first day of its month; its end is 86399 seconds after the midnight that
    starts the last day of the month, which is 23:59:59 on that day when the
    offset is still the same then; and the end of a window plus one second is
    the start of the window of the next month plus the change of offset
    between the two midnights. *)
Lemma reports_zone E tk (s e : Z -> Z) :
  let l := Local E in
  let idx0 := monthIndex (Year (t tk)) (Month (t tk)) in
  0 <= months tk ->
  (forall k, idx0 - months tk <= k <= idx0 -> inForce l (s k) (civilMidnight k 1)) ->
  (forall k, idx0 - months tk <= k < idx0 -> inForce l (e k) (civilMidnight (k + 1) 0)) ->
  exists rs,
    reports E tk = Ret rs
    /\ length rs = Z.to_nat (months tk)
    /\ (forall (i : nat) r, rs !! i = Some r ->
          let idx := idx0 - (Z.of_nat i + 1) in
          r = zoneWindow l (s idx) (e idx) (tname tk) (dir tk) idx
          /\ dateOf (start r) = (idx / 12, idx mod 12 + 1, 1)
          /\ Clock (start r) = (0, 0, 0)
          /\ (offsetAt l (unixSec (end_ r)) = e idx ->
              dateOf (end_ r)
              = (idx / 12, idx mod 12 + 1, daysIn (idx / 12) (idx mod 12 + 1))
              /\ Clock (end_ r) = (23, 59, 59))
          /\ (Clock (end_ r) = (23, 59, 59) ->
              (offsetAt l (unixSec (end_ r)) - e idx) mod 86400 = 0))
    /\ (forall (i : nat) r r', rs !! i = Some r -> rs !! S i = Some r' ->
          let idx := idx0 - (Z.of_nat i + 1) in
          unixSec (end_ r') + 1 = unixSec (start r) + (s idx - e (idx - 1))).
Proof.
  intros l idx0 Hm Hs He. unfold reports.
  destruct (Z.ltb_spec (months tk) 0) as [?|_]; [lia|].
  fold l. fold idx0 in Hs.
  rewrite (Date_inForce l _ _ _ (s idx0)) by (apply Hs; lia).
  fold idx0.
  eexists. split; [reflexivity|].
  destruct (reports_loop_zone l s e tk (Z.to_nat (months tk)) 0 idx0
              (replicate (Z.to_nat (months tk)) zeroReport)) as (H1 & H2 & _).
  { rewrite length_replicate. lia. }
  { intros k Hk. apply Hs. lia. }
  { intros k Hk. apply He. lia. }
  set (rs := reports_loop tk (Z.to_nat (months tk)) 0
               (instant l (s idx0) (civilMidnight idx0 1))
               (replicate (Z.to_nat (months tk)) zeroReport)) in *.
  assert (Hlen : length rs = Z.to_nat (months tk)).
  { rewrite H1. apply length_replicate. }
  assert (Hat : forall (i : nat) r, rs !! i = Some r ->
            r = zoneWindow l (s (idx0 - (Z.of_nat i + 1))) (e (idx0 - (Z.of_nat i + 1)))
                  (tname tk) (dir tk) (idx0 - (Z.of_nat i + 1))).
  { intros i r Hi. pose proof (lookup_lt_Some _ _ _ Hi) as Hlt.
    rewrite Hlen in Hlt. pose proof (H2 i Hlt) as Hx.
    change (0 + i)%nat with i in Hx. rewrite Hx in Hi. now injection Hi as <-. }
  split; [exact Hlen|]. split.
  - intros i r Hi. set (idx := idx0 - (Z.of_nat i + 1)).
    pose proof (lookup_lt_Some _ _ _ Hi) as Hlt. rewrite Hlen in Hlt.
    pose proof (Hat i r Hi) as Hr. fold idx in Hr.
    split; [exact Hr|].
    pose proof (daysIn_pos (idx / 12) (idx mod 12 + 1)) as Hp.
    assert (Hsi : inForce l (s idx) (civilMidnight idx 1))
      by (apply Hs; subst idx; lia).
    destruct (civil_instant l idx 1 (s idx) ltac:(lia) Hsi) as [Hd Hc].
    destruct (zoneWindow_end l (s idx) (e idx) (tname tk) (dir tk) idx)
      as (_ & Hgood & Hclock).
    rewrite Hr. cbn [start]. split; [exact Hd|]. split; [exact Hc|]. split.
    + intros Ho. apply Hgood. lia.
    + exact Hclock.
  - intros i r r' Hi Hi'. set (idx := idx0 - (Z.of_nat i + 1)).
    rewrite (Hat i r Hi), (Hat (S i) r' Hi'). fold idx.
    replace (idx0 - (Z.of_nat (S i) + 1)) with (idx - 1) by (subst idx; lia).
    unfold zoneWindow, instant. cbn [start end_ unixSec].
    replace (idx - 1 + 1) with idx by lia. lia.
Qed.

(** Central European time, now in May 2024, two months back: the offsets at
    the midnights concerned are those of [romeStart] and [romeLastDay], and
    the window of March ends an hour into April. *)
Example reports_zone_rome :
  exists apr mar,
    reports (quietEnv europeRome sampleRows) (sampleTask may2024Rome 2)
    = Ret [apr; mar]
    /\ unixSec (end_ mar) + 1 = unixSec (start apr) + 3600.
Proof.
  assert (H0 : monthIndex (Year (t (sampleTask may2024Rome 2)))
                 (Month (t (sampleTask may2024Rome 2))) = monthIndex 2024 5)
    by (vm_compute; reflexivity).
  destruct (reports_zone (quietEnv europeRome sampleRows) (sampleTask may2024Rome 2)
              romeStart romeLastDay) as (rs & Hrs & Hlen & _ & Hadj).
  - cbn. lia.
  - intros k Hk. rewrite H0 in Hk.
    change (months (sampleTask may2024Rome 2)) with 2 in Hk.
    assert (Hc : k = monthIndex 2024 3 \/ k = monthIndex 2024 4 \/ k = monthIndex 2024 5)
      by (unfold monthIndex in *; lia).
    destruct Hc as [-> | [-> | ->]]; split; vm_compute; reflexivity.
  - intros k Hk. rewrite H0 in Hk.
    change (months (sampleTask may2024Rome 2)) with 2 in Hk.
    assert (Hc : k = monthIndex 2024 3 \/ k = monthIndex 2024 4)
      by (unfold monthIndex in *; lia).
    destruct Hc as [-> | ->]; split; vm_compute; reflexivity.
  - destruct rs as [|apr [|mar [|? ?]]]; try discriminate Hlen.
    exists apr, mar. split; [exact Hrs|].
    rewrite (Hadj 0%nat apr mar eq_refl eq_refl). rewrite H0.
    vm_compute. reflexivity.
Qed.

End ZoneFacts.
